(** * Image optimisation CLI: a shallow embedding of [src/index.mjs]

    The script prompts for inputs, resolves each token (URL, directory or
    single file), hands every image to the [sharp] codec, and prints a size
    report.  The embedding keeps the source's names.  JavaScript strings are
    sequences of code units; here they are [string]s whose characters are the
    code units below 256.  The sizes that the file system reports are
    integers, kept in [Z]; they enter the arithmetic of the script as the
    doubles nearest to them, and the totals, the comparisons and every
    other expression on numbers go through the [Number] module, a model of
    IEEE-754 binary64 with round-to-nearest-even. *)

From Stdlib Require Import ZArith NArith List String Ascii Bool Lia.
From Stdlib Require PrimFloat FloatOps Uint63.
Import ListNotations.
Open Scope string_scope.
Open Scope Z_scope.

(** ** JavaScript string primitives *)

Module JSString.

(** WhiteSpace and LineTerminator code units below 256: TAB, LF, VT, FF,
    CR, SP and NBSP. *)
Definition isWhiteSpace (c : ascii) : bool :=
  let n := N_of_ascii c in
  (((9 <=? n) && (n <=? 13)) || (n =? 32) || (n =? 160))%N.

Fixpoint rev (s : string) : string :=
  match s with
  | "" => ""
  | String c s' => rev s' ++ String c ""
  end.

Fixpoint trimStart (s : string) : string :=
  match s with
  | String c s' => if isWhiteSpace c then trimStart s' else s
  | "" => ""
  end.

Definition trimEnd (s : string) : string := rev (trimStart (rev s)).

(** [String.prototype.trim]. *)
Definition trim (s : string) : string := trimEnd (trimStart s).

(** [s.split(sep)] for a one-character separator: never empty, [""] splits
    to [[""]]. *)
Fixpoint split (sep : ascii) (s : string) : list string :=
  match s with
  | "" => [""]
  | String c s' =>
      if Ascii.eqb c sep then "" :: split sep s'
      else match split sep s' with
           | tok :: toks => String c tok :: toks
           | [] => [String c ""]
           end
  end.

Definition isUpperAZ (c : ascii) : bool :=
  let n := N_of_ascii c in ((65 <=? n) && (n <=? 90))%N.

(** Upper-case letters of Latin-1 other than A-Z: U+00C0..U+00DE without
    the multiplication sign U+00D7. *)
Definition isUpperLatin1 (c : ascii) : bool :=
  let n := N_of_ascii c in ((192 <=? n) && (n <=? 222) && negb (n =? 215))%N.

Definition toLowerChar (c : ascii) : ascii :=
  if isUpperAZ c || isUpperLatin1 c
  then ascii_of_N (N_of_ascii c + 32) else c.

(** [String.prototype.toLowerCase] on code units below 256. *)
Fixpoint toLowerCase (s : string) : string :=
  match s with
  | "" => ""
  | String c s' => String (toLowerChar c) (toLowerCase s')
  end.

Definition isLowerAZ (c : ascii) : bool :=
  let n := N_of_ascii c in ((97 <=? n) && (n <=? 122))%N.

Definition toUpperChar (c : ascii) : ascii :=
  if isLowerAZ c then ascii_of_N (N_of_ascii c - 32) else c.

(** [String.prototype.toUpperCase] on A-Z/a-z; the script applies it to
    format tags only. *)
Fixpoint toUpperCase (s : string) : string :=
  match s with
  | "" => ""
  | String c s' => String (toUpperChar c) (toUpperCase s')
  end.

(** Canonicalisation of a regular expression with the [i] flag and without
    the [u] flag: a code unit is compared through its upper case, except
    that a code unit of 128 or more never canonicalises to one below 128.
    For the ASCII letters of a pattern this identifies exactly a letter
    with its other case. *)
Definition canonicalize (c : ascii) : ascii := toUpperChar c.

Definition eqb_ci (a b : ascii) : bool :=
  Ascii.eqb (canonicalize a) (canonicalize b).

Fixpoint prefix_ci (p s : string) {struct p} : bool :=
  match p, s with
  | "", _ => true
  | String a p', String b s' => eqb_ci a b && prefix_ci p' s'
  | String _ _, "" => false
  end.

(** [s] ends with [suffix], letters compared case-insensitively. *)
Definition endsWith_ci (s suffix : string) : bool :=
  prefix_ci (rev suffix) (rev s).

Definition isQuote (c : ascii) : bool :=
  Ascii.eqb c "'"%char || Ascii.eqb c (ascii_of_N 34).

End JSString.

(** ** Decimal digits of an integer *)

Module Decimal.

Definition digit (n : N) : ascii := ascii_of_N (48 + n mod 10).

(** Digits of [n], most significant first, pushed in front of [acc]. *)
Fixpoint digits (fuel : nat) (n : N) (acc : string) : string :=
  let acc' := String (digit n) acc in
  match fuel with
  | O => acc'
  | S fuel' => if (n <? 10)%N then acc' else digits fuel' (n / 10)%N acc'
  end.

(** The decimal representation of a natural number; [N.log2 n] bounds the
    number of digits after the first. *)
Definition ofN (n : N) : string := digits (N.to_nat (N.log2 n)) n "".

(** The decimal representation of an integer, which is what
    [Number::toString] writes of an integer below 2^53 in magnitude. *)
Definition ofZ (z : Z) : string :=
  if z <? 0 then "-" ++ ofN (Z.abs_N z) else ofN (Z.abs_N z).

Fixpoint zeros (n : nat) : string :=
  match n with O => "" | S n' => String "0" (zeros n') end.

Fixpoint take (n : nat) (s : string) : string :=
  match n, s with
  | S n', String c s' => String c (take n' s')
  | _, _ => ""
  end.

Fixpoint drop (n : nat) (s : string) : string :=
  match n, s with
  | S n', String _ s' => drop n' s'
  | _, _ => s
  end.

Fixpoint stripTrailingZeros (fuel : nat) (n : N) : N :=
  match fuel with
  | O => n
  | S fuel' =>
      if ((0 <? n) && (n mod 10 =? 0))%N
      then stripTrailingZeros fuel' (n / 10)%N else n
  end.

End Decimal.

(** ** JavaScript numbers: IEEE-754 binary64 *)

Module Number.

(** A finite double is a dyadic fraction: [Finite s m k] is
    (-1)^s * m / 2^k with [m] odd or [k = 0], so integers are exactly the
    values with [k = 0] and the two zeros are [Finite _ 0 0]. *)
Inductive number : Type :=
| NaN
| Infinity (negative : bool)
| Finite (negative : bool) (m : N) (k : N).

(** [lowest p k]: the fraction p / 2^k in lowest terms. *)
Fixpoint lowest (p : positive) (k : N) : positive * N :=
  match p, k with
  | xO p', Npos _ => lowest p' (N.pred k)
  | _, _ => (p, k)
  end.

(** The number m * 2^e, for an [m >= 0]. *)
Definition dyadic (neg : bool) (m e : Z) : number :=
  match m with
  | Zpos p =>
      if 0 <=? e then Finite neg (Z.to_N (m * 2 ^ e)) 0
      else let (p', k) := lowest p (Z.to_N (- e)) in Finite neg (Npos p') k
  | _ => Finite neg 0 0
  end.

(** floor (log2 (a / b)) for positive [a] and [b]. *)
Definition ilog2 (a b : Z) : Z :=
  let l := Z.log2 a - Z.log2 b in
  if a * 2 ^ Z.max 0 (- l) <? b * 2 ^ Z.max 0 l then l - 1 else l.

(** The integer nearest to n / d, ties to even. *)
Definition rne (n d : Z) : Z :=
  let q := n / d in
  let r := n mod d in
  if 2 * r <? d then q
  else if d <? 2 * r then q + 1
  else if Z.even q then q else q + 1.

(** The double nearest to the rational a / b ([a >= 0], [b > 0]), ties to
    even: 53 significant bits, the unit in the last place never below
    2^-1074 (gradual underflow), overflow to infinity. *)
Definition round (neg : bool) (a b : Z) : number :=
  if a =? 0 then Finite neg 0 0
  else
    let e := Z.max (ilog2 a b - 52) (-1074) in
    let m := rne (a * 2 ^ Z.max 0 (- e)) (b * 2 ^ Z.max 0 e) in
    if (971 <=? e) && (2 ^ 53 <=? m * 2 ^ (e - 971)) then Infinity neg
    else dyadic neg m e.

(** The double nearest to an integer: the value of an integer literal, of
    a run of digits, of a byte count. *)
Definition ofZ (z : Z) : number := round (z <? 0) (Z.abs z) 1.

(** [x * y]. *)
Definition mul (x y : number) : number :=
  match x, y with
  | NaN, _ | _, NaN => NaN
  | Infinity s, Infinity t => Infinity (xorb s t)
  | Infinity s, Finite t m _ | Finite t m _, Infinity s =>
      if (m =? 0)%N then NaN else Infinity (xorb s t)
  | Finite s m k, Finite t n j =>
      round (xorb s t) (Z.of_N (m * n)) (2 ^ Z.of_N (k + j))
  end.

(** [x / y]. *)
Definition div (x y : number) : number :=
  match x, y with
  | NaN, _ | _, NaN => NaN
  | Infinity _, Infinity _ => NaN
  | Infinity s, Finite t _ _ => Infinity (xorb s t)
  | Finite s _ _, Infinity t => Finite (xorb s t) 0 0
  | Finite s m k, Finite t n j =>
      if (n =? 0)%N
      then if (m =? 0)%N then NaN else Infinity (xorb s t)
      else round (xorb s t) (Z.of_N m * 2 ^ Z.of_N j) (Z.of_N n * 2 ^ Z.of_N k)
  end.

(** [-x]. *)
Definition opp (x : number) : number :=
  match x with
  | NaN => NaN
  | Infinity s => Infinity (negb s)
  | Finite s m k => Finite (negb s) m k
  end.

(** [x + y]: the exact sum, rounded; an exact zero is -0 only when both
    terms are -0. *)
Definition add (x y : number) : number :=
  match x, y with
  | NaN, _ | _, NaN => NaN
  | Infinity s, Infinity t => if Bool.eqb s t then Infinity s else NaN
  | Infinity s, Finite _ _ _ => Infinity s
  | Finite _ _ _, Infinity t => Infinity t
  | Finite s m k, Finite t n j =>
      let a := (if s then -1 else 1) * Z.of_N m * 2 ^ Z.of_N j
               + (if t then -1 else 1) * Z.of_N n * 2 ^ Z.of_N k in
      if a =? 0 then Finite (s && t) 0 0
      else round (a <? 0) (Z.abs a) (2 ^ Z.of_N (k + j))
  end.

(** [x - y]. *)
Definition sub (x y : number) : number := add x (opp y).

(** The same double ([NaN] is the same as itself here). *)
Definition eqb (x y : number) : bool :=
  match x, y with
  | NaN, NaN => true
  | Infinity s, Infinity t => Bool.eqb s t
  | Finite s m k, Finite t n j => Bool.eqb s t && (m =? n)%N && (k =? j)%N
  | _, _ => false
  end.

(** [x < y]; false as soon as one side is [NaN]. *)
Definition ltb (x y : number) : bool :=
  match x, y with
  | NaN, _ | _, NaN => false
  | Infinity s, Infinity t => s && negb t
  | Infinity s, Finite _ _ _ => s
  | Finite _ _ _, Infinity t => negb t
  | Finite s m k, Finite t n j =>
      let zx := (if s then -1 else 1) * Z.of_N m * 2 ^ Z.of_N j in
      let zy := (if t then -1 else 1) * Z.of_N n * 2 ^ Z.of_N k in
      zx <? zy
  end.

Definition isNegative (x : number) : bool :=
  match x with
  | NaN => false
  | Infinity s | Finite s _ _ => s
  end.

(** [Math.max(x, y)]: [NaN] if either is, and +0 is larger than -0. *)
Definition max (x y : number) : number :=
  match x, y with
  | NaN, _ | _, NaN => NaN
  | _, _ =>
      if ltb x y then y
      else if ltb y x then x
      else if isNegative x then y else x
  end.

(** [Math.min(x, y)]: [NaN] if either is, and -0 is smaller than +0. *)
Definition min (x y : number) : number :=
  match x, y with
  | NaN, _ | _, NaN => NaN
  | _, _ =>
      if ltb x y then x
      else if ltb y x then y
      else if isNegative x then x else y
  end.

Definition isNaN (x : number) : bool :=
  match x with NaN => true | _ => false end.

(** [Number::toString] of a double of magnitude 10^21 or more, an integer
    [x]: the shortest digit string that reads back as [x], in exponent
    notation. *)
Fixpoint shortest (tries : nat) (k : nat) (nd : nat) (x : Z) : Z :=
  match tries with
  | O => x
  | S tries' =>
      let u := 10 ^ Z.of_nat (nd - k) in
      let lo := (x / u) * u in
      let hi := lo + u in
      let okLo := match ofZ lo, ofZ x with
                  | Finite _ a 0, Finite _ b 0 => (a =? b)%N
                  | _, _ => false
                  end in
      let okHi := match ofZ hi, ofZ x with
                  | Finite _ a 0, Finite _ b 0 => (a =? b)%N
                  | _, _ => false
                  end in
      if okLo && okHi then
        (if x - lo <? hi - x then lo
         else if hi - x <? x - lo then hi
         else if Z.even (x / u) then lo else hi)
      else if okLo then lo
      else if okHi then hi
      else shortest tries' (S k) nd x
  end.

Definition toStringLarge (x : Z) : string :=
  let nd := String.length (Decimal.ofN (Z.to_N x)) in
  let v := shortest 21 1 nd x in
  let n := String.length (Decimal.ofN (Z.to_N v)) in
  let s := Decimal.ofN (Decimal.stripTrailingZeros n (Z.to_N v)) in
  Decimal.take 1 s
    ++ (if (1 <? String.length s)%nat then "." ++ Decimal.drop 1 s else "")
    ++ "e+" ++ Decimal.ofN (N.of_nat (n - 1)).

(** [Number::toString] of a positive integer [x]: the digits of the
    shortest decimal that reads back as [x], with its zeros, when they are
    21 at most, and exponent notation beyond. *)
Definition toStringInteger (x : Z) : string :=
  let nd := String.length (Decimal.ofN (Z.to_N x)) in
  let v := shortest 21 1 nd x in
  if (String.length (Decimal.ofN (Z.to_N v)) <=? 21)%nat
  then Decimal.ofN (Z.to_N v)
  else toStringLarge x.

(** The number of zeros between the point and the first digit of a / b,
    for 0 < a < b. *)
Fixpoint leadingZeros (fuel : nat) (a b : Z) : nat :=
  match fuel with
  | O => O
  | S fuel' =>
      if b <=? 10 * a then O else S (leadingZeros fuel' (10 * a) b)
  end.

(** The [n] with 10^(n-1) <= a / b < 10^n, for positive [a] and [b]. *)
Definition decimalExponent (a b : Z) : Z :=
  if b <=? a then Z.of_nat (String.length (Decimal.ofN (Z.to_N (a / b))))
  else - Z.of_nat (leadingZeros 400 a b).

(** The digits [s] and the exponent [n] of [Number::toString] for the
    positive double [x] = a / b: the least number [k] of digits for which
    s * 10^(n-k) reads back as [x], the nearest such [s], the even one of
    two as near. *)
Fixpoint shortestDigits (tries : nat) (k n : Z) (x : number) (a b : Z)
    : Z * Z :=
  match tries with
  | O => (0, n)
  | S tries' =>
      let e := k - n in
      let p := a * 10 ^ Z.max 0 e in
      let q := b * 10 ^ Z.max 0 (- e) in
      let lo := p / q in
      let hi := lo + 1 in
      let reads s :=
        eqb (round false (s * 10 ^ Z.max 0 (- e)) (10 ^ Z.max 0 e)) x in
      let pick s := if s =? 10 ^ k then (10 ^ (k - 1), n + 1) else (s, n) in
      if reads lo && reads hi then
        (if 2 * (p mod q) <? q then pick lo
         else if q <? 2 * (p mod q) then pick hi
         else if Z.even lo then pick lo else pick hi)
      else if reads lo then pick lo
      else if reads hi then pick hi
      else shortestDigits tries' (k + 1) n x a b
  end.

(** [Number::toString] of a positive double that is not an integer. *)
Definition toStringFraction (x : number) (a b : Z) : string :=
  let (s, n) := shortestDigits 17 1 (decimalExponent a b) x a b in
  let ds := Decimal.ofN (Z.to_N s) in
  let k := Z.of_nat (String.length ds) in
  if (k <=? n) && (n <=? 21) then ds ++ Decimal.zeros (Z.to_nat (n - k))
  else if (0 <? n) && (n <=? 21)
  then Decimal.take (Z.to_nat n) ds ++ "." ++ Decimal.drop (Z.to_nat n) ds
  else if (-6 <? n) && (n <=? 0)
  then "0." ++ Decimal.zeros (Z.to_nat (- n)) ++ ds
  else
    Decimal.take 1 ds
      ++ (if 1 <? k then "." ++ Decimal.drop 1 ds else "")
      ++ "e" ++ (if 0 <=? n - 1 then "+" else "-")
      ++ Decimal.ofN (Z.to_N (Z.abs (n - 1))).

(** [Number::toString(x)] in radix 10, what [x + text] writes of [x]. *)
Definition toString (x : number) : string :=
  match x with
  | NaN => "NaN"
  | Infinity s => if s then "-Infinity" else "Infinity"
  | Finite s m k =>
      if (m =? 0)%N then "0"
      else
        (if s then "-" else "")
          ++ (if (k =? 0)%N then toStringInteger (Z.of_N m)
              else toStringFraction (Finite false m k)
                     (Z.of_N m) (2 ^ Z.of_N k))
  end.

(** [Number.prototype.toFixed(f)] for 0 <= f <= 100: the integer [n] with
    n / 10^f nearest to x, the larger one on a tie; its digits, padded
    with zeros to f + 1 of them, with a point before the last f. *)
Definition toFixed (f : nat) (x : number) : string :=
  match x with
  | NaN => "NaN"
  | Infinity s => if s then "-Infinity" else "Infinity"
  | Finite s m k =>
      let m := Z.of_N m in
      let d := 2 ^ Z.of_N k in
      if 10 ^ 21 * d <=? m
      then (if s then "-" else "") ++ toStringLarge m
      else
        let n := (2 * m * 10 ^ Z.of_nat f + d) / (2 * d) in
        let ds := Decimal.ofN (Z.to_N n) in
        let ds := Decimal.zeros (S f - String.length ds) ++ ds in
        let a := Decimal.take (String.length ds - f) ds in
        let b := Decimal.drop (String.length ds - f) ds in
        (if s && (0 <? m) then "-" else "")
          ++ a ++ (if (0 <? f)%nat then "." ++ b else "")
  end.

End Number.

(** ** The primitive binary64 numbers, for comparison *)

Module Primitive.

(** A primitive float as a [number]; mantissa and exponent come from the
    kernel's decoding of the float. *)
Definition toNumber (f : PrimFloat.float) : Number.number :=
  match FloatOps.Prim2SF f with
  | SpecFloat.S754_zero s => Number.Finite s 0 0
  | SpecFloat.S754_infinity s => Number.Infinity s
  | SpecFloat.S754_nan => Number.NaN
  | SpecFloat.S754_finite s m e => Number.dyadic s (Zpos m) e
  end.

(** An integer below 2^63 in magnitude as a primitive float. *)
Definition ofZ (z : Z) : PrimFloat.float :=
  if z <? 0 then PrimFloat.opp (PrimFloat.of_uint63 (Uint63.of_Z (- z)))
  else PrimFloat.of_uint63 (Uint63.of_Z z).

Definition eqb (x y : Number.number) : bool :=
  match x, y with
  | Number.NaN, Number.NaN => true
  | Number.Infinity s, Number.Infinity t => Bool.eqb s t
  | Number.Finite s m k, Number.Finite t n j =>
      Bool.eqb s t && (m =? n)%N && (k =? j)%N
  | _, _ => false
  end.

(** [((o - p) / o) * 100] on primitive floats. *)
Definition percent (o p : Z) : PrimFloat.float :=
  PrimFloat.mul (PrimFloat.div (ofZ (o - p)) (ofZ o)) (ofZ 100).

End Primitive.

(** ** Global functions: [parseInt] and [isNaN] *)

Module Global.
Import JSString.

Definition digitValue (c : ascii) : option N :=
  let n := N_of_ascii c in
  if ((48 <=? n) && (n <=? 57))%N then Some (n - 48)%N
  else if ((97 <=? n) && (n <=? 122))%N then Some (n - 87)%N
  else if ((65 <=? n) && (n <=? 90))%N then Some (n - 55)%N
  else None.

Definition isDigitIn (radix : N) (c : ascii) : bool :=
  match digitValue c with
  | Some d => (d <? radix)%N
  | None => false
  end.

(** The value of the longest prefix of radix-R digits; [acc] is [None]
    until a digit has been read. *)
Fixpoint parseDigits (radix : N) (s : string) (acc : option N) : option N :=
  match s with
  | String c s' =>
      match digitValue c with
      | Some d =>
          if (d <? radix)%N
          then parseDigits radix s'
                 (Some (match acc with Some a => a * radix + d | None => d end)%N)
          else acc
      | None => acc
      end
  | "" => acc
  end.

Definition stripSign (s : string) : bool * string :=
  match s with
  | String "-" s' => (true, s')
  | String "+" s' => (false, s')
  | _ => (false, s)
  end.

Definition stripHexPrefix (s : string) : N * string :=
  match s with
  | String "0" (String "x" s') | String "0" (String "X" s') => (16%N, s')
  | _ => (10%N, s)
  end.

(** [parseInt(string)] with no radix argument: leading white space, a
    sign, an optional 0x prefix, then the longest run of digits; [NaN]
    when there is none; the sign is kept on zero. *)
Definition parseInt (s : string) : Number.number :=
  let (neg, s1) := stripSign (trimStart s) in
  let (radix, s2) := stripHexPrefix s1 in
  match parseDigits radix s2 None with
  | None => Number.NaN
  | Some v => Number.round neg (Z.of_N v) 1
  end.

Fixpoint skipDigits (s : string) : string :=
  match s with
  | String c s' => if isDigitIn 10 c then skipDigits s' else s
  | "" => ""
  end.

Definition startsWithDigit (s : string) : bool :=
  match s with
  | String c _ => isDigitIn 10 c
  | "" => false
  end.

Fixpoint allDigitsIn (radix : N) (s : string) : bool :=
  match s with
  | String c s' => isDigitIn radix c && allDigitsIn radix s'
  | "" => true
  end.

(** The empty string or an ExponentPart: e or E, a sign, digits. *)
Definition isExponentOpt (s : string) : bool :=
  match s with
  | "" => true
  | String c s' =>
      (Ascii.eqb c "e" || Ascii.eqb c "E")
      && (let s'' := snd (stripSign s') in
          startsWithDigit s'' && String.eqb (skipDigits s'') "")
  end.

(** StrUnsignedDecimalLiteral: Infinity, digits with an optional fraction
    and exponent, or a fraction that starts with the point. *)
Definition isUnsignedDecimal (s : string) : bool :=
  if String.eqb s "Infinity" then true
  else
    match s with
    | String "." s' => startsWithDigit s' && isExponentOpt (skipDigits s')
    | _ =>
        startsWithDigit s
        && match skipDigits s with
           | String "." r => isExponentOpt (skipDigits r)
           | r => isExponentOpt r
           end
    end.

(** StrNumericLiteral: a signed decimal literal, or an unsigned
    hexadecimal, octal or binary integer literal. *)
Definition isStrNumericLiteral (s : string) : bool :=
  match s with
  | String "0" (String "x" r) | String "0" (String "X" r) =>
      negb (String.eqb r "") && allDigitsIn 16 r
  | String "0" (String "o" r) | String "0" (String "O" r) =>
      negb (String.eqb r "") && allDigitsIn 8 r
  | String "0" (String "b" r) | String "0" (String "B" r) =>
      negb (String.eqb r "") && allDigitsIn 2 r
  | _ => isUnsignedDecimal (snd (stripSign s))
  end.

(** [isNaN(string)]: the argument goes through StringToNumber, which
    gives 0 for a string of white space only and [NaN] exactly when the
    trimmed string is not a StrNumericLiteral. *)
Definition isNaN (s : string) : bool :=
  let t := trim s in
  negb (String.eqb t "" || isStrNumericLiteral t).

End Global.

(** ** Data of the script *)

(** A thrown [Error] and its message. *)
Inductive Error : Type := mkError (message : string).

Definition message (e : Error) : string :=
  match e with mkError m => m end.

(** The two values the script gives its [format] variable. *)
Inductive Format : Type := webp | png.

Definition formatName (f : Format) : string :=
  match f with webp => "webp" | png => "png" end.

(** What the script reads of an [fs.Stats]. *)
Record Stats : Type := { size : Z; isDirectory : bool }.

(** What the script reads of a [sharp] metadata object. *)
Record Metadata : Type := { format : string; width : Z; height : Z }.

(** What the script reads of a fetch response: [arrayBuffer] is what
    [await response.arrayBuffer()] gives, the bytes of the body or the
    error thrown while the body is read. *)
Record Response : Type := {
  ok : bool;
  statusText : string;
  arrayBuffer : Error + string
}.

(** The chain of [sharp] calls built by [processImage]. *)
Record Pipeline : Type := {
  source : string;
  resize : option (Number.number * Number.number);
  encoder : Format;
  encoderQuality : Number.number
}.

(** The [stats] object of [processImage]. *)
Record FileStats : Type := {
  inputPath : string;
  outputPath : string;
  originalSize : Z;
  optimizedSize : Z;
  originalFormat : string;
  optimizedFormat : string;
  originalDimensions : string;
  optimizedDimensions : string;
  savings : string
}.

(** What the script does to the outside, in order. *)
Inductive Event : Type :=
| Question (query : string)
| ConsoleLog (line : string)
| ConsoleError (line : string)
| SpinnerStart (text : string)
| SpinnerText (text : string)
| SpinnerInfo (text : string)
| SpinnerSucceed (text : string)
| SpinnerFail (text : string)
| Fetch (url : string)
| WriteFile (path : string) (data : string)
| Mkdir (path : string)
| ToFile (p : Pipeline) (path : string)
| RlClose.

(** The file system, the network, the codec, Node's [path] and [URL]
    modules and the operator at the keyboard.  [World] is whatever the
    outside keeps between calls; a call that can throw returns a sum. *)
Class Platform : Type := {
  World : Type;
  fs_existsSync : string -> World -> bool;
  fs_mkdirSync : string -> World -> Error + World;
  fs_statSync : string -> World -> Error + Stats;
  fs_readdirSync : string -> World -> Error + list string;
  fs_writeFileSync : string -> string -> World -> Error + World;
  node_fetch : string -> World -> (Error + Response) * World;
  sharp_metadata : string -> World -> Error + Metadata;
  sharp_toFile : Pipeline -> string -> World -> (Error + unit) * World;
  path_basename : string -> string;
  path_basename_ext : string -> string -> string;
  path_extname : string -> string;
  path_dirname : string -> string;
  path_join : string -> string -> string;
  URL_pathname : string -> option string;
  dirname : string;
  keyboard : nat -> string
}.

(** ** Pure helpers of the script *)

(** [inputPath.replace(/^['dq]|['dq]$/g, empty).trim()], dq the double
    quote: one quote character off the front, one off the end of what is
    left, then white space off both ends. *)
Definition cleanPath (inputPath : string) : string :=
  let s := match inputPath with
           | String c s' => if JSString.isQuote c then s' else inputPath
           | "" => ""
           end in
  let s := match JSString.rev s with
           | String c r => if JSString.isQuote c then JSString.rev r else s
           | "" => s
           end in
  JSString.trim s.

Definition formatFileSize (bytes : Number.number) : string :=
  if Number.ltb bytes (Number.ofZ 1024) then Number.toString bytes ++ " B"
  else if Number.ltb bytes (Number.ofZ (1024 * 1024))
  then Number.toFixed 2 (Number.div bytes (Number.ofZ 1024)) ++ " KB"
  else Number.toFixed 2 (Number.div bytes (Number.ofZ (1024 * 1024))) ++ " MB".

(** [formatChoice ? (formatChoice === one ? webp : png) : webp]. *)
Definition chooseFormat (formatChoice : string) : Format :=
  if String.eqb formatChoice "" then webp
  else if String.eqb formatChoice "1" then webp else png.

(** [qualityInput ? Math.min(100, Math.max(0, parseInt(qualityInput))) : 80]. *)
Definition chooseQuality (qualityInput : string) : Number.number :=
  if String.eqb qualityInput "" then Number.ofZ 80
  else Number.min (Number.ofZ 100)
         (Number.max (Number.ofZ 0) (Global.parseInt qualityInput)).

(** The test of the crop prompt: the message of the error it throws, or the
    tokens. *)
Definition invalidDimensions : Error :=
  mkError "Invalid dimensions! Please provide valid numbers.".

Definition parseDimensions (dimensions : string) : Error + list string :=
  let cropDimensions := JSString.split " " dimensions in
  if negb (Nat.eqb (List.length cropDimensions) 2)
     || Global.isNaN (nth 0 cropDimensions "undefined")
     || Global.isNaN (nth 1 cropDimensions "undefined")
  then inl invalidDimensions
  else inr cropDimensions.

(** The regular expression of the directory filter, a point and one of five
    extensions at the end of the name, letters in either case. *)
Definition imageExtensions : list string := ["jpg"; "jpeg"; "png"; "gif"; "webp"].

Definition isImageFile (file : string) : bool :=
  existsb (fun ext => JSString.endsWith_ci file ("." ++ ext)) imageExtensions.

(** [(((o - p) / o) * 100).toFixed(2)]. *)
Definition savingsOf (o p : Z) : string :=
  Number.toFixed 2
    (Number.mul
       (Number.div (Number.sub (Number.ofZ o) (Number.ofZ p)) (Number.ofZ o))
       (Number.ofZ 100)).

(** ** The script as a state-and-exception computation *)

Section Script.
Context {P : Platform}.

(** The outside world, the trace of effects, the number of answers read
    from the keyboard, and the three accumulators of [main]; the two
    totals are JavaScript numbers. *)
Record State : Type := {
  world : World;
  events : list Event;
  asked : nat;
  processedStats : list FileStats;
  totalSavedBytes : Number.number;
  totalOriginalBytes : Number.number
}.

Definition M (A : Type) : Type := State -> (Error + A) * State.

Definition ret {A} (a : A) : M A := fun st => (inr a, st).

Definition bind {A B} (m : M A) (f : A -> M B) : M B :=
  fun st =>
    match m st with
    | (inr a, st') => f a st'
    | (inl e, st') => (inl e, st')
    end.

Definition throw {A} (e : Error) : M A := fun st => (inl e, st).

(** [try { m } catch (error) { handler error }]. *)
Definition tryCatch {A} (m : M A) (handler : Error -> M A) : M A :=
  fun st =>
    match m st with
    | (inl e, st') => handler e st'
    | r => r
    end.

(** [try { m } finally { cleanup }], for a cleanup that does not throw. *)
Definition tryFinally {A} (m : M A) (cleanup : M unit) : M A :=
  fun st =>
    match m st with
    | (r, st') => (r, snd (cleanup st'))
    end.

Definition withWorld (w : World) (st : State) : State :=
  {| world := w; events := events st; asked := asked st;
     processedStats := processedStats st;
     totalSavedBytes := totalSavedBytes st;
     totalOriginalBytes := totalOriginalBytes st |}.

Definition withEvent (e : Event) (st : State) : State :=
  {| world := world st; events := events st ++ [e]; asked := asked st;
     processedStats := processedStats st;
     totalSavedBytes := totalSavedBytes st;
     totalOriginalBytes := totalOriginalBytes st |}.

Definition emit (e : Event) : M unit := fun st => (inr tt, withEvent e st).

(** Reading a variable of the script. *)
Definition get {A} (f : State -> A) : M A := fun st => (inr (f st), st).

(** A call that reads the world and cannot throw. *)
Definition test {A} (f : World -> A) : M A :=
  fun st => (inr (f (world st)), st).

(** A call that reads the world. *)
Definition observe {A} (f : World -> Error + A) : M A :=
  fun st => (f (world st), st).

(** A call that changes the world, or throws and leaves it. *)
Definition update (f : World -> Error + World) : M unit :=
  fun st =>
    match f (world st) with
    | inr w => (inr tt, withWorld w st)
    | inl e => (inl e, st)
    end.

(** A call that changes the world and returns or throws. *)
Definition perform {A} (f : World -> (Error + A) * World) : M A :=
  fun st => let (r, w) := f (world st) in (r, withWorld w st).

End Script.

Declare Scope script_scope.
Delimit Scope script_scope with script.
Notation "x <- m ;; k" := (bind m (fun x => k))
  (at level 61, m at next level, right associativity) : script_scope.
Notation "m ;; k" := (bind m (fun _ => k))
  (at level 61, right associativity) : script_scope.

Section Main.
Context {P : Platform}.
Local Open Scope script_scope.

Definition console_log (line : string) : M unit := emit (ConsoleLog line).
Definition console_error (line : string) : M unit := emit (ConsoleError line).

(** [await question(query)]: the next answer of the operator. *)
Definition question (query : string) : M string :=
  fun st =>
    (inr (keyboard (asked st)),
     {| world := world st; events := events st ++ [Question query];
        asked := S (asked st);
        processedStats := processedStats st;
        totalSavedBytes := totalSavedBytes st;
        totalOriginalBytes := totalOriginalBytes st |}).

Definition downloadDir : string := path_join dirname "downloads".

(** The statement before the helpers: create the download directory when
    it is absent. *)
Definition ensureDownloadDir : M unit :=
  present <- test (fs_existsSync downloadDir) ;;
  if present then ret tt
  else emit (Mkdir downloadDir) ;; update (fs_mkdirSync downloadDir).

Definition downloadImage (url outputPath : string) : M unit :=
  emit (Fetch url) ;;
  response <- perform (node_fetch url) ;;
  if negb (ok response)
  then throw (mkError ("Failed to download image: " ++ statusText response))
  else
    buffer <- observe (fun _ => arrayBuffer response) ;;
    emit (WriteFile outputPath buffer) ;;
    update (fs_writeFileSync outputPath buffer).

Definition dimensionsText (m : Metadata) : string :=
  Number.toString (Number.ofZ (width m)) ++ "x"
    ++ Number.toString (Number.ofZ (height m)).

Definition processImage (inputPath : string) (fmt : Format)
    (quality : Number.number) (shouldCrop : bool)
    (cropDimensions : option (list string)) : M FileStats :=
  tryCatch
    (let fileName := path_basename_ext inputPath (path_extname inputPath) in
     let outputDir := path_join (path_dirname inputPath) "optimized" in
     emit (SpinnerText ("Processing " ++ fileName ++ "...")) ;;
     present <- test (fs_existsSync outputDir) ;;
     (if present then ret tt
      else emit (Mkdir outputDir) ;; update (fs_mkdirSync outputDir)) ;;
     metadata <- observe (sharp_metadata inputPath) ;;
     let imageProcess :=
       {| source := inputPath;
          resize :=
            match cropDimensions with
            | Some dims =>
                if shouldCrop
                then Some (Global.parseInt (nth 0 dims "undefined"),
                           Global.parseInt (nth 1 dims "undefined"))
                else None
            | None => None
            end;
          encoder := fmt;
          encoderQuality := quality |} in
     let outputPath :=
       path_join outputDir (fileName ++ "." ++ formatName fmt) in
     emit (ToFile imageProcess outputPath) ;;
     perform (sharp_toFile imageProcess outputPath) ;;
     inputStats <- observe (fs_statSync inputPath) ;;
     outputStats <- observe (fs_statSync outputPath) ;;
     outputMetadata <- observe (sharp_metadata outputPath) ;;
     let savings := savingsOf (size inputStats) (size outputStats) in
     let stats :=
       {| inputPath := inputPath;
          outputPath := outputPath;
          originalSize := size inputStats;
          optimizedSize := size outputStats;
          originalFormat := format metadata;
          optimizedFormat := formatName fmt;
          originalDimensions := dimensionsText metadata;
          optimizedDimensions := dimensionsText outputMetadata;
          savings := savings |} in
     emit (SpinnerSucceed
             ("Processed: " ++ fileName ++ "." ++ formatName fmt)) ;;
     ret stats)
    (fun error =>
       emit (SpinnerFail ("Error processing " ++ path_basename inputPath
                            ++ ": " ++ message error)) ;;
       throw error).

(** The three statements under [if (fileStats)]; the two [+=] and the
    subtraction are those of JavaScript numbers. *)
Definition record (fileStats : FileStats) : M unit :=
  fun st =>
    (inr tt,
     {| world := world st; events := events st; asked := asked st;
        processedStats := processedStats st ++ [fileStats];
        totalSavedBytes :=
          Number.add (totalSavedBytes st)
            (Number.sub (Number.ofZ (originalSize fileStats))
               (Number.ofZ (optimizedSize fileStats)));
        totalOriginalBytes :=
          Number.add (totalOriginalBytes st)
            (Number.ofZ (originalSize fileStats)) |}).

Definition nl : string := String (ascii_of_N 10) "".
Definition dq : string := String (ascii_of_N 34) "".

Section Batch.
(** The options of the run, fixed before the first file is read. *)
Variable fmt : Format.
Variable quality : Number.number.
Variable shouldCrop : bool.
Variable cropDimensions : option (list string).

(** The loop over [imageFiles] of a directory. *)
Fixpoint processDirectory (inputPath : string) (imageFiles : list string)
    : M unit :=
  match imageFiles with
  | [] => ret tt
  | file :: rest =>
      let fullPath := path_join inputPath file in
      tryCatch
        (fileStats <-
           processImage fullPath fmt quality shouldCrop cropDimensions ;;
         record fileStats)
        (fun error =>
           console_error
             ("Error processing " ++ file ++ ": " ++ message error)) ;;
      processDirectory inputPath rest
  end.

Definition imageFilesOf (files : list string) : list string :=
  filter isImageFile files.

Definition noImageFiles : Error :=
  mkError "No image files found in the directory!".

(** From [fs.statSync(inputPath)] to the end of the inner [try] block. *)
Definition processPath (inputPath : string) : M unit :=
  stats <- observe (fs_statSync inputPath) ;;
  if isDirectory stats then
    files <- observe (fs_readdirSync inputPath) ;;
    let imageFiles := imageFilesOf files in
    if Nat.eqb (List.length imageFiles) 0 then throw noImageFiles
    else
      let count := Decimal.ofN (N.of_nat (List.length imageFiles)) in
      emit (SpinnerInfo ("Found " ++ count ++ " image(s) to process")) ;;
      emit (SpinnerStart "Starting batch processing...") ;;
      processDirectory inputPath imageFiles ;;
      emit (SpinnerSucceed
              ("Batch processing complete! Processed " ++ count ++ " files"))
  else
    emit (SpinnerStart "Processing image...") ;;
    fileStats <-
      processImage inputPath fmt quality shouldCrop cropDimensions ;;
    record fileStats.

(** The [catch] of the loop over the input paths; [inputPath] is the
    value the loop variable has when the error is thrown. *)
Definition pathError (inputPath : string) (error : Error) : M unit :=
  console_error
    ("Error with path " ++ inputPath ++ ": " ++ message error).

(** The destination of a download: the answer of the operator or the
    file name of the URL, in the download directory, with the extension
    of the URL when it has none. *)
Definition downloadPath (pathname outputFileName : string) : string :=
  let urlFilename := path_basename pathname in
  let urlFileExtension := path_extname urlFilename in
  let inputPath :=
    path_join downloadDir
      (if String.eqb outputFileName "" then urlFilename
       else outputFileName) in
  if String.eqb (path_extname inputPath) ""
  then inputPath ++ urlFileExtension else inputPath.

(** One turn of the loop over the input paths.  [URL_pathname] is
    [None] when [new URL(inputPath)] throws, that is when [isURL] is
    false.  The loop variable is assigned before anything in the [try]
    block can throw, so the block is entered here after the
    assignment. *)
Definition handleInputPath (token : string) : M unit :=
  match URL_pathname token with
  | Some pathname =>
      outputFileName <-
        question ("Enter output file name for " ++ path_basename pathname
                    ++ " (leave blank to use URL file name): ") ;;
      let inputPath := downloadPath pathname outputFileName in
      tryCatch
        (console_log ("Downloading image from URL: " ++ inputPath ++ "...") ;;
         downloadImage inputPath inputPath ;;
         console_log "Image downloaded successfully." ;;
         processPath inputPath)
        (pathError inputPath)
  | None =>
      tryCatch
        (present <- test (fs_existsSync token) ;;
       (if present then ret tt
        else throw (mkError ("Path does not exist: " ++ token))) ;;
       processPath token)
        (pathError token)
  end.

Fixpoint processInputs (inputPaths : list string) : M unit :=
  match inputPaths with
  | [] => ret tt
  | inputPath :: rest => handleInputPath inputPath ;; processInputs rest
  end.

End Batch.

(** The body of [processedStats.forEach], [index] counted from 0. *)
Definition reportFile (index : nat) (stat : FileStats) : M unit :=
  console_log (Decimal.ofN (N.of_nat (index + 1)) ++ ". "
                 ++ path_basename (inputPath stat)) ;;
  console_log ("   Before: "
                 ++ formatFileSize (Number.ofZ (originalSize stat)) ++ " ("
                 ++ JSString.toUpperCase (originalFormat stat) ++ " - "
                 ++ originalDimensions stat ++ ")") ;;
  console_log ("   After:  "
                 ++ formatFileSize (Number.ofZ (optimizedSize stat)) ++ " ("
                 ++ JSString.toUpperCase (optimizedFormat stat) ++ " - "
                 ++ optimizedDimensions stat ++ ")") ;;
  console_log ("   Reduced: " ++ savings stat ++ "%") ;;
  console_log "".

Fixpoint reportFiles (index : nat) (stats : list FileStats) : M unit :=
  match stats with
  | [] => ret tt
  | stat :: rest => reportFile index stat ;; reportFiles (S index) rest
  end.

Definition resultsHeading : string :=
  nl ++ "ðŸ“Š Optimization Results:" ++ nl.

Definition totalsHeading : string := "ðŸ“ˆ Total Statistics:".

Definition outputDirectoryLine (inputPaths : list string) : string :=
  nl ++ "ðŸ’¾ Output Directory: "
    ++ path_join (path_dirname (nth 0 inputPaths "undefined")) "optimized".

Definition noImagesProcessed : string :=
  "No images were processed successfully.".

(** [((totalSavedBytes / totalOriginalBytes) * 100).toFixed(2)]. *)
Definition totalSavingsPercent (st : State) : string :=
  Number.toFixed 2
    (Number.mul
       (Number.div (totalSavedBytes st) (totalOriginalBytes st))
       (Number.ofZ 100)).

(** The [if (processedStats.length > 0)] statement. *)
Definition reportTotals : M unit :=
  st <- get (fun st => st) ;;
  if (0 <? List.length (processedStats st))%nat then
    (console_log totalsHeading ;;
       console_log ("   Total Size Before: "
                      ++ formatFileSize (totalOriginalBytes st)) ;;
       console_log ("   Total Size After:  "
                      ++ formatFileSize
                           (Number.sub (totalOriginalBytes st)
                              (totalSavedBytes st))) ;;
       console_log ("   Total Space Saved: "
                      ++ formatFileSize (totalSavedBytes st)
                      ++ " (" ++ totalSavingsPercent st ++ "%)"))
  else console_log noImagesProcessed.

(** The results display, from the heading to the output directory. *)
Definition report (inputPaths : list string) : M unit :=
  console_log resultsHeading ;;
  stats <- get processedStats ;;
  reportFiles 0 stats ;;
  reportTotals ;;
  console_log (outputDirectoryLine inputPaths) ;;
  emit (SpinnerSucceed "All operations completed successfully!").

(** The crop prompt. *)
Definition askCrop (shouldCrop : bool) : M (option (list string)) :=
  if shouldCrop then
    dimensions <-
      question ("Enter width and height separated by space (e.g., "
                  ++ dq ++ "800 600" ++ dq ++ "): ") ;;
    match parseDimensions dimensions with
    | inl error => throw error
    | inr cropDimensions => ret (Some cropDimensions)
    end
  else ret None.

Definition main : M unit :=
  tryFinally
    (tryCatch
       (rawInputPaths <-
          question "1. Enter paths to images/image folders (or URLs) separated by space: " ;;
        let inputPaths := map cleanPath (JSString.split " " rawInputPaths) in
        console_log (nl ++ "2. Choose Image Format:") ;;
        console_log "1. webp" ;;
        console_log "2. png" ;;
        formatChoice <- question "Enter your choice (1 or 2): (Default Webp)" ;;
        let fmt := chooseFormat formatChoice in
        qualityInput <-
          question (nl ++ "3. Enter quality (0-100, default is 80): ") ;;
        let quality := chooseQuality qualityInput in
        cropResponse <-
          question (nl ++ "4. Do you want to crop the images? (y/n): ") ;;
        let shouldCrop := String.eqb (JSString.toLowerCase cropResponse) "y" in
        cropDimensions <- askCrop shouldCrop ;;
        processInputs fmt quality shouldCrop cropDimensions inputPaths ;;
        report inputPaths)
       (fun error => emit (SpinnerFail ("Error: " ++ message error))))
    (emit RlClose).

(** The whole module: the download directory, then [main()]. *)
Definition script : M unit := ensureDownloadDir ;; main.

Definition initialState (w : World) : State :=
  {| world := w; events := []; asked := 0%nat; processedStats := [];
     totalSavedBytes := Number.ofZ 0; totalOriginalBytes := Number.ofZ 0 |}.

End Main.

(** ** A small concrete platform

    A file system as an association list, a table of remote resources, a
    codec and POSIX-style path functions (no normalisation: enough for paths
    without dot segments).  A file carries the size of what the codec makes
    of it, or nothing when the codec cannot read it.  The platform is used
    to run the script on concrete inputs. *)

Module Demo.

Inductive Node : Type :=
| File (bytes : Z) (tag : string) (w h : Z) (encoded : option Z)
| Dir (entries : list string).

Record DemoWorld : Type := {
  files : list (string * Node);
  remote : list (string * Response)
}.

Fixpoint lookup {A} (key : string) (l : list (string * A)) : option A :=
  match l with
  | [] => None
  | (k, v) :: l' => if String.eqb k key then Some v else lookup key l'
  end.

Definition put (path : string) (n : Node) (w : DemoWorld) : DemoWorld :=
  {| files := (path, n) :: files w; remote := remote w |}.

Fixpoint takeUntil (c : ascii) (s : string) : string :=
  match s with
  | String a s' => if Ascii.eqb a c then "" else String a (takeUntil c s')
  | "" => ""
  end.

Fixpoint dropUntil (c : ascii) (s : string) : string :=
  match s with
  | String a s' => if Ascii.eqb a c then s else dropUntil c s'
  | "" => ""
  end.

Definition basename (path : string) : string :=
  JSString.rev (takeUntil "/" (JSString.rev path)).

Definition extname (path : string) : string :=
  let b := JSString.rev (basename path) in
  match dropUntil "." b with
  | String _ (String _ _) => "." ++ JSString.rev (takeUntil "." b)
  | _ => ""
  end.

Definition basename_ext (path ext : string) : string :=
  let b := basename path in
  if negb (String.eqb ext "") && JSString.prefix_ci (JSString.rev ext) (JSString.rev b)
     && String.eqb (Decimal.drop (String.length b - String.length ext) b) ext
  then Decimal.take (String.length b - String.length ext) b
  else b.

Definition dirname_of (path : string) : string :=
  match dropUntil "/" (JSString.rev path) with
  | String _ (String c r) => JSString.rev (String c r)
  | String _ "" => "/"
  | "" => "."
  end.

Definition join (a b : string) : string := a ++ "/" ++ b.

(** [new URL(s).pathname] for http and https addresses with a host. *)
Definition pathname (s : string) : option string :=
  let after :=
    if String.prefix "https://" s then Some (Decimal.drop 8 s)
    else if String.prefix "http://" s then Some (Decimal.drop 7 s)
    else None in
  match after with
  | Some "" => None
  | Some (String "/" _) => None
  | Some r => Some (match dropUntil "/" r with "" => "/" | q => q end)
  | None => None
  end.

Definition enoent (call path : string) : Error :=
  mkError ("ENOENT: no such file or directory, " ++ call ++ " '" ++ path ++ "'").

Definition unsupported : Error :=
  mkError "Input file contains unsupported image format".

Definition metadataOf (path : string) (w : DemoWorld) : Error + Metadata :=
  match lookup path (files w) with
  | Some (File _ tag wd ht (Some _)) =>
      inr {| format := tag; width := wd; height := ht |}
  | Some _ => inl unsupported
  | None => inl (mkError "Input file is missing")
  end.

Definition toFile (p : Pipeline) (out : string) (w : DemoWorld)
    : (Error + unit) * DemoWorld :=
  match lookup (source p) (files w) with
  | Some (File _ _ wd ht (Some n)) =>
      (inr tt, put out (File n (formatName (encoder p)) wd ht (Some n)) w)
  | Some _ => (inl unsupported, w)
  | None => (inl (mkError "Input file is missing"), w)
  end.

Definition fetchFrom (url : string) (w : DemoWorld)
    : (Error + Response) * DemoWorld :=
  match pathname url with
  | None => (inl (mkError "Only absolute URLs are supported"), w)
  | Some _ =>
      match lookup url (remote w) with
      | Some r => (inr r, w)
      | None =>
          (inr {| ok := false; statusText := "Not Found";
                  arrayBuffer := inr "" |}, w)
      end
  end.

Definition platform (answers : list string) : Platform := {|
  World := DemoWorld;
  fs_existsSync := fun path w =>
    match lookup path (files w) with Some _ => true | None => false end;
  fs_mkdirSync := fun path w =>
    match lookup path (files w) with
    | Some _ => inl (mkError ("EEXIST: file already exists, mkdir '" ++ path ++ "'"))
    | None => inr (put path (Dir []) w)
    end;
  fs_statSync := fun path w =>
    match lookup path (files w) with
    | Some (File bytes _ _ _ _) => inr {| size := bytes; isDirectory := false |}
    | Some (Dir _) => inr {| size := 4096; isDirectory := true |}
    | None => inl (enoent "stat" path)
    end;
  fs_readdirSync := fun path w =>
    match lookup path (files w) with
    | Some (Dir entries) => inr entries
    | Some _ => inl (mkError ("ENOTDIR: not a directory, scandir '" ++ path ++ "'"))
    | None => inl (enoent "scandir" path)
    end;
  fs_writeFileSync := fun path data w =>
    inr (put path (File (Z.of_nat (String.length data)) "" 0 0 None) w);
  node_fetch := fetchFrom;
  sharp_metadata := metadataOf;
  sharp_toFile := toFile;
  path_basename := basename;
  path_basename_ext := basename_ext;
  path_extname := extname;
  path_dirname := dirname_of;
  path_join := join;
  URL_pathname := pathname;
  dirname := "/app";
  keyboard := fun n => nth n answers ""
|}.

Definition run (answers : list string) (w : DemoWorld)
    : (Error + unit) * @State (platform answers) :=
  @script (platform answers) (@initialState (platform answers) w).

(** A directory of five pictures, the third of which the codec cannot
    read, next to a text file. *)
Definition album : DemoWorld := {|
  files :=
    [ ("/app/downloads", Dir []);
      ("/pics", Dir ["a.jpg"; "notes.txt"; "b.PNG"; "c.gif"; "d.webp"; "e.jpeg"]);
      ("/pics/a.jpg", File 204800 "jpeg" 800 600 (Some 102400));
      ("/pics/notes.txt", File 12 "" 0 0 None);
      ("/pics/b.PNG", File 160 "png" 10 10 (Some 73));
      ("/pics/c.gif", File 5000 "gif" 64 64 None);
      ("/pics/d.webp", File 3145728 "webp" 1920 1080 (Some 1572864));
      ("/pics/e.jpeg", File 1000 "jpeg" 32 32 (Some 500));
      ("/texts", Dir ["readme.md"; "b.txt"]) ];
  remote :=
    [ ("https://example.com/img/cat.jpg",
       {| ok := true; statusText := "OK"; arrayBuffer := inr "JFIF" |}) ]
|}.

End Demo.

(** ** Vocabulary of the statements *)

(** [s] has no space character. *)
Fixpoint noSpace (s : string) : bool :=
  match s with
  | "" => true
  | String c s' => negb (Ascii.eqb c " ") && noSpace s'
  end.

(** A positive integer, as a crop width or height should be. *)
Definition isPositiveInteger (x : Number.number) : Prop :=
  exists m, (0 < m)%N /\ x = Number.Finite false m 0.

(** An integer between 0 and 100. *)
Definition isQuality (x : Number.number) : Prop :=
  exists m, (m <= 100)%N /\ x = Number.Finite false m 0.

(** The integer nearest to a / b for a [b > 0], the larger one on a tie. *)
Definition roundHalfUp (a b : Z) : Z := (2 * a + b) / (2 * b).

(** [n] hundredths written with two decimals. *)
Definition fixed2 (n : Z) : string :=
  Decimal.ofN (Z.to_N (n / 100)) ++ "."
    ++ String (Decimal.digit (Z.to_N (n / 10)))
         (String (Decimal.digit (Z.to_N n)) "").

(** [Number.MAX_SAFE_INTEGER]: up to it every integer is a double. *)
Definition MAX_SAFE_INTEGER : Z := 2 ^ 53 - 1.

(** [s] starts with [p]. *)
Fixpoint startsWith (s p : string) {struct p} : bool :=
  match p, s with
  | "", _ => true
  | String a p', String b s' => Ascii.eqb a b && startsWith s' p'
  | String _ _, "" => false
  end.

(** [s] ends with [suffix]. *)
Definition endsWith (s suffix : string) : bool :=
  startsWith (JSString.rev s) (JSString.rev suffix).

(** The savings percentage as the specification words it: the exact value
    of (o - p) / o * 100, rounded to two decimals, halves away from zero. *)
Definition savingsExact (o p : Z) : string :=
  (if o <? p then "-" else "")
    ++ fixed2 (roundHalfUp (10000 * Z.abs (o - p)) o).

(** A name made of a stem, a point and one of the five extensions, the
    extension in any mix of cases. *)
Definition hasImageExtension (file : string) : Prop :=
  exists stem ext,
    file = stem ++ "." ++ ext /\ In (JSString.toLowerCase ext) imageExtensions.

(** A pattern character that the case-insensitive comparison matches with
    itself and its upper case only. *)
Definition plain (c : ascii) : Prop :=
  forall a, JSString.eqb_ci c a = true <-> JSString.toLowerChar a = c.

Section Vocabulary.
Context {P : Platform}.

(** The accumulators of [main]. *)
Definition accumulators (st : State)
    : list FileStats * Number.number * Number.number :=
  (processedStats st, totalSavedBytes st, totalOriginalBytes st).

(** The file names announced on the spinner, in order. *)
Fixpoint processingOf (evs : list Event) : list string :=
  match evs with
  | [] => []
  | SpinnerText text :: evs' => text :: processingOf evs'
  | _ :: evs' => processingOf evs'
  end.

(** The lines written by [console.error], in order. *)
Fixpoint consoleErrors (evs : list Event) : list string :=
  match evs with
  | [] => []
  | ConsoleError line :: evs' => line :: consoleErrors evs'
  | _ :: evs' => consoleErrors evs'
  end.

(** The lines written by [console.log], in order. *)
Fixpoint consoleLogs (evs : list Event) : list string :=
  match evs with
  | [] => []
  | ConsoleLog line :: evs' => line :: consoleLogs evs'
  | _ :: evs' => consoleLogs evs'
  end.

(** The addresses handed to [fetch], in order. *)
Fixpoint fetched (evs : list Event) : list string :=
  match evs with
  | [] => []
  | Fetch url :: evs' => url :: fetched evs'
  | _ :: evs' => fetched evs'
  end.

(** The paths handed to [fs.writeFileSync], in order. *)
Fixpoint written (evs : list Event) : list string :=
  match evs with
  | [] => []
  | WriteFile path _ :: evs' => path :: written evs'
  | _ :: evs' => written evs'
  end.

(** The text [processImage] puts on the spinner for a path. *)
Definition processingText (path : string) : string :=
  "Processing " ++ path_basename_ext path (path_extname path) ++ "...".

(** A reading of the trace that goes through concatenation. *)
Definition Hom {B} (proj : list Event -> list B) : Prop :=
  proj [] = [] /\ forall a b, proj (a ++ b)%list = (proj a ++ proj b)%list.

(** [m] leaves the accumulators as they are. *)
Definition Inert {A} (m : M A) : Prop :=
  forall st, accumulators (snd (m st)) = accumulators st.

(** [m] only adds to the trace, and what it adds reads as [l]. *)
Definition Emits {A B} (proj : list Event -> list B) (m : M A) (l : list B)
    : Prop :=
  forall st,
    exists evs, events (snd (m st)) = (events st ++ evs)%list /\ proj evs = l.

(** Every value [m] returns satisfies [Q]. *)
Definition Returns {A} (Q : A -> Prop) (m : M A) : Prop :=
  forall st a, fst (m st) = inr a -> Q a.

(** [m] does not throw. *)
Definition NoThrow {A} (m : M A) : Prop :=
  forall st, exists a, fst (m st) = inr a.

(** [m] keeps [I]. *)
Definition Preserves {A} (I : State -> Prop) (m : M A) : Prop :=
  forall st, I st -> I (snd (m st)).

(** The elements of [l] at the places where [mask] is true. *)
Fixpoint select {A} (mask : list bool) (l : list A) : list A :=
  match mask, l with
  | b :: mask', x :: l' => if b then x :: select mask' l' else select mask' l'
  | _, _ => []
  end.

Definition sumOriginal (stats : list FileStats) : Z :=
  fold_right (fun s acc => originalSize s + acc) 0 stats.

Definition sumOptimized (stats : list FileStats) : Z :=
  fold_right (fun s acc => optimizedSize s + acc) 0 stats.

Definition sumSaved (stats : list FileStats) : Z :=
  fold_right (fun s acc => (originalSize s - optimizedSize s) + acc) 0 stats.

(** Sizes that are not negative and whose sums, of the originals and of
    the optimized files, are integers a double holds exactly. *)
Definition safeSizes (stats : list FileStats) : Prop :=
  Forall (fun s => 0 <= originalSize s /\ 0 <= optimizedSize s) stats
  /\ sumOriginal stats <= MAX_SAFE_INTEGER
  /\ sumOptimized stats <= MAX_SAFE_INTEGER.

(** The two totals are the sums over the records kept so far, as long as
    the sizes of the records are safe. *)
Definition totalsMatch (st : State) : Prop :=
  safeSizes (processedStats st) ->
  totalOriginalBytes st = Number.ofZ (sumOriginal (processedStats st))
  /\ totalSavedBytes st = Number.ofZ (sumSaved (processedStats st)).

End Vocabulary.

(** The number of space characters of [s]. *)
Fixpoint countSpaces (s : string) : nat :=
  match s with
  | "" => 0%nat
  | String c s' =>
      if Ascii.eqb c " " then S (countSpaces s') else countSpaces s'
  end.

Section TraceVocabulary.
Context {P : Platform}.

(** [st] with the events [evs] added to its trace, in order. *)
Definition withEvents (evs : list Event) (st : State) : State :=
  fold_left (fun s e => withEvent e s) evs st.

(** The directories handed to [fs.mkdirSync], in order. *)
Fixpoint mkdirs (evs : list Event) : list string :=
  match evs with
  | [] => []
  | Mkdir path :: evs' => path :: mkdirs evs'
  | _ :: evs' => mkdirs evs'
  end.

(** One entry for every [rl.close()]. *)
Fixpoint closes (evs : list Event) : list unit :=
  match evs with
  | [] => []
  | RlClose :: evs' => tt :: closes evs'
  | _ :: evs' => closes evs'
  end.

(** The chains of [sharp] calls that end in [toFile], in order. *)
Fixpoint pipelines (evs : list Event) : list Pipeline :=
  match evs with
  | [] => []
  | ToFile p _ :: evs' => p :: pipelines evs'
  | _ :: evs' => pipelines evs'
  end.

(** The paths handed to [toFile], in order. *)
Fixpoint encoded (evs : list Event) : list string :=
  match evs with
  | [] => []
  | ToFile _ path :: evs' => path :: encoded evs'
  | _ :: evs' => encoded evs'
  end.

(** [isURL(str)]: whether [new URL(str)] returns. *)
Definition isURL (str : string) : bool :=
  match URL_pathname str with
  | Some _ => true
  | None => false
  end.

(** [m] asks the operator nothing. *)
Definition Quiet {A} (m : M A) : Prop :=
  forall st, asked (snd (m st)) = asked st.

(** The prompts and the lines on [console.log], the only effects of the
    setup phase. *)
Definition isPromptOrLog (e : Event) : Prop :=
  match e with
  | Question _ | ConsoleLog _ => True
  | _ => False
  end.

End TraceVocabulary.

(** The records of the calls that returned, in order. *)
Fixpoint returned (outcomes : list (Error + FileStats)) : list FileStats :=
  match outcomes with
  | [] => []
  | inr stats :: rest => stats :: returned rest
  | inl _ :: rest => returned rest
  end.

(** Of [names], one for each call, those whose call returned. *)
Fixpoint namesReturned (names : list string)
    (outcomes : list (Error + FileStats)) : list string :=
  match names, outcomes with
  | name :: names', inr _ :: rest => name :: namesReturned names' rest
  | _ :: names', inl _ :: rest => namesReturned names' rest
  | _, _ => []
  end.

(** Of [names], one for each call, those whose call threw, each with the
    error thrown. *)
Fixpoint namesThrown (names : list string)
    (outcomes : list (Error + FileStats)) : list (string * Error) :=
  match names, outcomes with
  | name :: names', inl error :: rest =>
      (name, error) :: namesThrown names' rest
  | _ :: names', inr _ :: rest => namesThrown names' rest
  | _, _ => []
  end.

Section LoopVocabulary.
Context {P : Platform}.
Variable fmt : Format.
Variable quality : Number.number.
Variable shouldCrop : bool.
Variable cropDimensions : option (list string).

(** What the calls of [processImage] give in the loop over the pictures
    of a directory, in order: the call for a picture is made in the state
    in which the loop has left the pictures before it. *)
Fixpoint directoryOutcomes (dir : string) (files : list string) (st : State)
    : list (Error + FileStats) :=
  match files with
  | [] => []
  | file :: rest =>
      fst (processImage (path_join dir file) fmt quality shouldCrop
             cropDimensions st)
        :: directoryOutcomes dir rest
             (snd (processDirectory fmt quality shouldCrop cropDimensions
                     dir [file] st))
  end.

(** The same in the loop over input paths that are files: the call for an
    input path is made once the spinner has been started, in the state in
    which the loop has left the input paths before it. *)
Fixpoint inputOutcomes (inputPaths : list string) (st : State)
    : list (Error + FileStats) :=
  match inputPaths with
  | [] => []
  | inputPath :: rest =>
      fst (processImage inputPath fmt quality shouldCrop cropDimensions
             (withEvent (SpinnerStart "Processing image...") st))
        :: inputOutcomes rest
             (snd (handleInputPath fmt quality shouldCrop cropDimensions
                     inputPath st))
  end.

(** Every input path is an existing file, and not a URL nor a directory,
    when its turn comes. *)
Fixpoint plainFiles (inputPaths : list string) (st : State) : Prop :=
  match inputPaths with
  | [] => True
  | inputPath :: rest =>
      URL_pathname inputPath = None
      /\ fs_existsSync inputPath (world st) = true
      /\ (exists stats,
            fs_statSync inputPath (world st) = inr stats
            /\ isDirectory stats = false)
      /\ plainFiles rest
           (snd (handleInputPath fmt quality shouldCrop cropDimensions
                   inputPath st))
  end.

End LoopVocabulary.

(** * Properties *)

(** ** Strings *)

Lemma split_cons (sep : ascii) (s : string) :
  exists tok toks, JSString.split sep s = tok :: toks.
Proof.
  induction s as [|c s IH]; simpl.
  - eauto.
  - destruct (Ascii.eqb c sep); [eauto|].
    destruct IH as (tok & toks & ->). eauto.
Qed.

Lemma split_noSpace (w : string) :
  noSpace w = true -> JSString.split " " w = [w].
Proof.
  induction w as [|c w IH]; simpl; intros H; [reflexivity|].
  apply andb_true_iff in H as [Hc Hw].
  destruct (Ascii.eqb c " "); [discriminate|].
  now rewrite (IH Hw).
Qed.

Lemma split_app (w r : string) :
  noSpace w = true ->
  JSString.split " " (w ++ " " ++ r) = w :: JSString.split " " r.
Proof.
  change (" " ++ r) with (String " " r).
  induction w as [|c w IH]; simpl; intros H; [reflexivity|].
  apply andb_true_iff in H as [Hc Hw].
  destruct (Ascii.eqb c " "); [discriminate|].
  now rewrite (IH Hw).
Qed.

(** Two tokens come from exactly one space. *)
Lemma split_one (s h : string) :
  JSString.split " " s = [h] -> s = h /\ noSpace h = true.
Proof.
  revert h. induction s as [|d s IH]; simpl; intros h Hs.
  - injection Hs as <-. now split.
  - destruct (Ascii.eqb d " ") eqn:Hd.
    { destruct (split_cons " " s) as (tok & toks & E).
      rewrite E in Hs. discriminate. }
    destruct (split_cons " " s) as (tok & toks & E). rewrite E in Hs, IH.
    injection Hs as <- ->.
    destruct (IH tok eq_refl) as [-> Hn]. simpl. now rewrite Hd, Hn.
Qed.

Lemma split_two (s w h : string) :
  JSString.split " " s = [w; h] <->
  s = w ++ " " ++ h /\ noSpace w = true /\ noSpace h = true.
Proof.
  split.
  - revert w. induction s as [|c s IH]; simpl; intros w H; [discriminate|].
    destruct (Ascii.eqb c " ") eqn:Hc.
    + apply Ascii.eqb_eq in Hc as ->. injection H as <- Hs.
      apply split_one in Hs as [-> Hn]. auto.
    + destruct (split_cons " " s) as (tok & toks & E). rewrite E in H, IH.
      injection H as <- ->.
      destruct (IH tok eq_refl) as (-> & Hw & Hh). simpl.
      rewrite Hc, Hw. auto.
  - intros (-> & Hw & Hh). rewrite (split_app w h Hw).
    now rewrite (split_noSpace h Hh).
Qed.

(** ** The prompts *)

(** C10: the format is webp when the answer is empty or is exactly 1, and
    png for every other answer. *)
Theorem chooseFormat_spec (formatChoice : string) :
  (chooseFormat formatChoice = webp <->
     formatChoice = "" \/ formatChoice = "1")
  /\ (chooseFormat formatChoice = png <->
        formatChoice <> "" /\ formatChoice <> "1").
Proof.
  unfold chooseFormat.
  destruct (String.eqb_spec formatChoice "") as [->|H0].
  - split; split; intros H; auto; try discriminate. now destruct H.
  - destruct (String.eqb_spec formatChoice "1") as [->|H1].
    + split; split; intros H; auto; try discriminate. now destruct H as [_ []].
    + split; split; intros H; auto; try discriminate. now destruct H.
Qed.

Example chooseFormat_other :
  chooseFormat "2" = png /\ chooseFormat "3" = png /\ chooseFormat "webp" = png.
Proof. repeat split. Qed.

(** C4, the part the code keeps: no answer gives 80, 150 gives 100 and -5
    gives 0. *)
Lemma chooseQuality_examples :
  chooseQuality "" = Number.Finite false 80 0
  /\ chooseQuality "150" = Number.Finite false 100 0
  /\ chooseQuality "-5" = Number.Finite false 0 0.
Proof. repeat split; vm_compute; reflexivity. Qed.

(** C4: an answer with no leading digits is not clamped: [parseInt] gives
    [NaN], which [Math.max] and [Math.min] hand on, so the quality is not
    an integer between 0 and 100. *)
Theorem chooseQuality_not_a_number :
  chooseQuality "abc" = Number.NaN /\ ~ isQuality (chooseQuality "abc").
Proof.
  assert (E : chooseQuality "abc" = Number.NaN) by (vm_compute; reflexivity).
  split; [exact E|]. rewrite E. intros (m & _ & H). discriminate.
Qed.

(** No test for positive numbers: a negative width passes the test of
    the crop prompt and reaches the codec as it is. *)
Lemma parseDimensions_accepts_negative :
  exists dims,
    parseDimensions "-5 10" = inr dims
    /\ Global.parseInt (nth 0 dims "undefined") = Number.Finite true 5 0
    /\ ~ isPositiveInteger (Global.parseInt (nth 0 dims "undefined")).
Proof.
  exists ["-5"; "10"].
  assert (E : Global.parseInt "-5" = Number.Finite true 5 0)
    by (vm_compute; reflexivity).
  split; [vm_compute; reflexivity|]. simpl nth. split; [exact E|].
  rewrite E. intros (m & _ & H). discriminate.
Qed.

(** The test of the crop prompt as the code has it: it throws exactly when
    the answer is not two tokens around one space that both pass [isNaN];
    accepted tokens are returned as they are, 800 600 as width 800 and
    height 600. *)
Lemma parseDimensions_spec (dimensions : string) :
  (parseDimensions dimensions = inl invalidDimensions <->
     ~ exists w h,
         dimensions = w ++ " " ++ h
         /\ noSpace w = true /\ noSpace h = true
         /\ Global.isNaN w = false /\ Global.isNaN h = false)
  /\ (forall dims,
        parseDimensions dimensions = inr dims ->
        exists w h,
          dims = [w; h] /\ dimensions = w ++ " " ++ h
          /\ Global.isNaN w = false /\ Global.isNaN h = false)
  /\ (parseDimensions "800 600" = inr ["800"; "600"]
      /\ Global.parseInt "800" = Number.Finite false 800 0
      /\ Global.parseInt "600" = Number.Finite false 600 0)
  /\ parseDimensions "abc 600" = inl invalidDimensions
  /\ parseDimensions "800" = inl invalidDimensions.
Proof.
  assert (A : forall dims,
             parseDimensions dimensions = inr dims ->
             exists w h,
               dims = [w; h] /\ dimensions = w ++ " " ++ h
               /\ noSpace w = true /\ noSpace h = true
               /\ Global.isNaN w = false /\ Global.isNaN h = false).
  { intros dims. unfold parseDimensions.
    destruct (_ || _ || _) eqn:C; [discriminate|]. intros [= <-].
    apply orb_false_iff in C as [C Nh]. apply orb_false_iff in C as [L Nw].
    apply negb_false_iff, Nat.eqb_eq in L.
    destruct (JSString.split " " dimensions) as [|w [|h [|x l]]] eqn:E;
      try discriminate.
    simpl in Nw, Nh. apply split_two in E as (-> & Hw & Hh).
    exists w, h. repeat split; assumption. }
  split; [|split; [|repeat split; vm_compute; reflexivity]].
  - split.
    + intros H (w & h & -> & Hw & Hh & Nw & Nh).
      unfold parseDimensions in H.
      rewrite (proj2 (split_two _ w h)) in H by auto.
      simpl in H. rewrite Nw, Nh in H. discriminate.
    + intros H. destruct (parseDimensions dimensions) as [e|dims] eqn:E.
      * unfold parseDimensions in E.
        destruct (_ || _ || _) in E; [|discriminate].
        now injection E as <-.
      * exfalso. apply H.
        destruct (A dims eq_refl) as (w & h & _ & ? & ? & ? & ? & ?).
        exists w, h. repeat split; assumption.
  - intros dims Hd. destruct (A dims Hd) as (w & h & ? & ? & _ & _ & ? & ?).
    exists w, h. repeat split; assumption.
Qed.

(** ** Rounding to a double *)

Lemma lowest_spec (p : positive) (k : N) :
  Zpos p * 2 ^ Z.of_N (snd (Number.lowest p k))
  = Zpos (fst (Number.lowest p k)) * 2 ^ Z.of_N k
  /\ (snd (Number.lowest p k) = 0%N
      \/ Z.odd (Zpos (fst (Number.lowest p k))) = true).
Proof.
  revert k. induction p as [p IH|p IH|]; intros k.
  - simpl. split; [reflexivity|now right].
  - destruct k as [|q].
    + simpl. split; [reflexivity|now left].
    + change (Number.lowest (xO p) (Npos q))
        with (Number.lowest p (N.pred (Npos q))).
      destruct (IH (N.pred (Npos q))) as [E C]. split; [|exact C].
      change (Zpos (xO p)) with (2 * Zpos p).
      rewrite <- Z.mul_assoc, E, N2Z.inj_pred by lia.
      replace (2 ^ Z.of_N (Npos q))
        with (2 * 2 ^ Z.pred (Z.of_N (Npos q))); [ring|].
      rewrite <- Z.pow_succ_r by lia. f_equal. lia.
  - simpl. split; [reflexivity|now right].
Qed.

Lemma dyadic_spec (neg : bool) (m e : Z) :
  0 < m ->
  exists m' k',
    Number.dyadic neg m e = Number.Finite neg m' k'
    /\ 0 < Z.of_N m'
    /\ Z.of_N m' * 2 ^ Z.max 0 (- e) = m * 2 ^ Z.max 0 e * 2 ^ Z.of_N k'
    /\ (k' = 0%N \/ Z.odd (Z.of_N m') = true).
Proof.
  intros Hm. destruct m as [|p|p]; try lia. unfold Number.dyadic.
  destruct (Z.leb_spec 0 e) as [He|He].
  - exists (Z.to_N (Zpos p * 2 ^ e)), 0%N.
    assert (0 < Zpos p * 2 ^ e) by (apply Z.mul_pos_pos; [lia|now apply Z.pow_pos_nonneg]).
    rewrite Z2N.id by lia.
    rewrite Z.max_l by lia. rewrite Z.max_r by lia.
    split; [reflexivity|]. split; [lia|]. split; [|now left].
    change (Z.of_N 0) with 0. rewrite !Z.pow_0_r. ring.
  - destruct (lowest_spec p (Z.to_N (- e))) as [E C].
    destruct (Number.lowest p (Z.to_N (- e))) as [p' k']. cbn [fst snd] in E, C.
    exists (Npos p'), k'. rewrite Z2N.id in E by lia.
    rewrite Z.max_r by lia. rewrite Z.max_l by lia.
    split; [reflexivity|]. split; [lia|]. split; [|exact C].
    change (Z.of_N (Npos p')) with (Zpos p'). rewrite <- E, Z.pow_0_r. ring.
Qed.

Lemma rne_bounds (n d : Z) :
  0 < d -> - d <= 2 * (n - Number.rne n d * d) <= d.
Proof.
  intros Hd. unfold Number.rne.
  pose proof (Z.div_mod n d ltac:(lia)) as E.
  pose proof (Z.mod_pos_bound n d Hd) as B.
  set (q := n / d) in *. set (r := n mod d) in *.
  destruct (Z.ltb_spec (2 * r) d); [nia|].
  destruct (Z.ltb_spec d (2 * r)); [nia|].
  destruct (Z.even q); nia.
Qed.

Lemma rne_exact (q d : Z) : 0 < d -> Number.rne (q * d) d = q.
Proof.
  intros Hd. unfold Number.rne.
  rewrite Z.div_mul by lia. rewrite Z.mod_mul by lia.
  destruct (Z.ltb_spec (2 * 0) d); [reflexivity|lia].
Qed.

Lemma pow2_pos (n : Z) : 0 < 2 ^ Z.max 0 n.
Proof. apply Z.pow_pos_nonneg; lia. Qed.

(** Moving the exponent by one doubles the other side. *)
Lemma scale_succ (a b l : Z) :
  a * 2 ^ Z.max 0 (- (l + 1)) < b * 2 ^ Z.max 0 (l + 1)
  <-> a * 2 ^ Z.max 0 (- l) < 2 * (b * 2 ^ Z.max 0 l).
Proof.
  destruct (Z.le_gt_cases 0 l) as [H|H].
  - rewrite (Z.max_l 0 (- (l + 1))), (Z.max_l 0 (- l)) by lia.
    rewrite (Z.max_r 0 (l + 1)), (Z.max_r 0 l) by lia.
    rewrite Z.pow_add_r by lia. change (2 ^ 1) with 2. split; intros; nia.
  - rewrite (Z.max_r 0 (- (l + 1))), (Z.max_r 0 (- l)) by lia.
    rewrite (Z.max_l 0 (l + 1)), (Z.max_l 0 l) by lia.
    replace (- l) with (- (l + 1) + 1) by lia.
    rewrite Z.pow_add_r by lia. change (2 ^ 1) with 2.
    replace (- (l + 1 + 1) + 1) with (- (l + 1)) by lia.
    split; intros; nia.
Qed.

Lemma scaled_lower (a b la lb : Z) :
  0 <= la -> 0 <= lb -> 2 ^ la <= a -> b < 2 ^ (lb + 1) ->
  b * 2 ^ Z.max 0 (la - lb - 1) <= a * 2 ^ Z.max 0 (- (la - lb - 1)).
Proof.
  intros Ha Hb La Lb. set (l := la - lb - 1).
  destruct (Z.le_gt_cases 0 l) as [H|H].
  - rewrite (Z.max_l 0 (- l)), (Z.max_r 0 l) by lia.
    assert (E : 2 ^ la = 2 ^ (lb + 1) * 2 ^ l).
    { rewrite <- Z.pow_add_r by lia. f_equal. lia. }
    assert (0 < 2 ^ l) by (apply Z.pow_pos_nonneg; lia). nia.
  - rewrite (Z.max_r 0 (- l)), (Z.max_l 0 l) by lia.
    assert (E : 2 ^ (lb + 1) = 2 ^ la * 2 ^ (- l)).
    { rewrite <- Z.pow_add_r by lia. f_equal. lia. }
    assert (0 < 2 ^ (- l)) by (apply Z.pow_pos_nonneg; lia). nia.
Qed.

Lemma scaled_upper (a b la lb : Z) :
  0 <= la -> 0 <= lb -> a < 2 ^ (la + 1) -> 2 ^ lb <= b ->
  a * 2 ^ Z.max 0 (- (la - lb + 1)) < b * 2 ^ Z.max 0 (la - lb + 1).
Proof.
  intros Ha Hb La Lb. set (l := la - lb + 1).
  destruct (Z.le_gt_cases 0 l) as [H|H].
  - rewrite (Z.max_l 0 (- l)), (Z.max_r 0 l) by lia.
    assert (E : 2 ^ (la + 1) = 2 ^ lb * 2 ^ l).
    { rewrite <- Z.pow_add_r by lia. f_equal. lia. }
    assert (0 < 2 ^ l) by (apply Z.pow_pos_nonneg; lia). nia.
  - rewrite (Z.max_r 0 (- l)), (Z.max_l 0 l) by lia.
    assert (E : 2 ^ lb = 2 ^ (la + 1) * 2 ^ (- l)).
    { rewrite <- Z.pow_add_r by lia. f_equal. lia. }
    assert (0 < 2 ^ (- l)) by (apply Z.pow_pos_nonneg; lia). nia.
Qed.

(** [ilog2 a b] is the exponent of the binade of a / b. *)
Lemma ilog2_spec (a b : Z) :
  0 < a -> 0 < b ->
  b * 2 ^ Z.max 0 (Number.ilog2 a b)
  <= a * 2 ^ Z.max 0 (- Number.ilog2 a b)
  /\ a * 2 ^ Z.max 0 (- Number.ilog2 a b)
     < 2 * (b * 2 ^ Z.max 0 (Number.ilog2 a b)).
Proof.
  intros Ha Hb. unfold Number.ilog2.
  destruct (Z.log2_spec a Ha) as [La Ua]. destruct (Z.log2_spec b Hb) as [Lb Ub].
  pose proof (Z.log2_nonneg a). pose proof (Z.log2_nonneg b).
  rewrite <- Z.add_1_r in Ua, Ub.
  set (la := Z.log2 a) in *. set (lb := Z.log2 b) in *.
  destruct (Z.ltb_spec (a * 2 ^ Z.max 0 (- (la - lb)))
              (b * 2 ^ Z.max 0 (la - lb))) as [T|T].
  - split.
    + apply scaled_lower; assumption.
    + apply scale_succ. replace (la - lb - 1 + 1) with (la - lb) by lia.
      exact T.
  - split; [exact T|].
    apply scale_succ. apply scaled_upper; assumption.
Qed.

(** A ratio with a power of two below it and 53 bits above is a double:
    rounding returns it. *)
Lemma round_exact (neg : bool) (a j : Z) :
  0 < a < 2 ^ 53 -> 0 <= j <= 1074 ->
  exists m k,
    Number.round neg a (2 ^ j) = Number.Finite neg m k
    /\ Z.of_N m * 2 ^ j = a * 2 ^ Z.of_N k
    /\ (k = 0%N \/ Z.odd (Z.of_N m) = true).
Proof.
  intros Ha Hj. unfold Number.round.
  assert (Pj : 0 < 2 ^ j) by (apply Z.pow_pos_nonneg; lia).
  destruct (Z.eqb_spec a 0) as [|_]; [lia|].
  destruct (ilog2_spec a (2 ^ j) ltac:(lia) Pj) as [L _].
  set (l := Number.ilog2 a (2 ^ j)) in *.
  assert (Hl : l + j <= 52).
  { destruct (Z.le_gt_cases (l + j) 52) as [|C]; [assumption|exfalso].
    destruct (Z.le_gt_cases 0 l) as [H|H].
    - rewrite (Z.max_r 0 l), (Z.max_l 0 (- l)) in L by lia.
      rewrite <- Z.pow_add_r in L by lia. rewrite Z.pow_0_r in L.
      assert (2 ^ 53 <= 2 ^ (j + l)) by (apply Z.pow_le_mono_r; lia). lia.
    - rewrite (Z.max_l 0 l), (Z.max_r 0 (- l)) in L by lia.
      rewrite Z.pow_0_r in L.
      assert (E : 2 ^ j = 2 ^ (j + l) * 2 ^ (- l)).
      { rewrite <- Z.pow_add_r by lia. f_equal. lia. }
      assert (2 ^ 53 <= 2 ^ (j + l)) by (apply Z.pow_le_mono_r; lia).
      assert (0 < 2 ^ (- l)) by (apply Z.pow_pos_nonneg; lia). nia. }
  set (e := Z.max (l - 52) (-1074)).
  assert (He : e <= - j) by (unfold e; lia).
  rewrite (Z.max_r 0 (- e)), (Z.max_l 0 e) by lia.
  rewrite Z.pow_0_r, Z.mul_1_r.
  assert (E : a * 2 ^ (- e) = a * 2 ^ (- e - j) * 2 ^ j).
  { rewrite <- Z.mul_assoc, <- Z.pow_add_r by lia. do 2 f_equal. lia. }
  rewrite E, rne_exact by exact Pj.
  assert (Pe : 0 < 2 ^ (- e - j)) by (apply Z.pow_pos_nonneg; lia).
  assert (O : (971 <=? e) = false) by (apply Z.leb_gt; lia).
  rewrite O. cbn [andb].
  destruct (dyadic_spec neg (a * 2 ^ (- e - j)) e ltac:(nia))
    as (m & k & D & Pm & V & C).
  exists m, k. split; [exact D|]. split; [|exact C].
  rewrite (Z.max_r 0 (- e)), (Z.max_l 0 e), Z.pow_0_r, Z.mul_1_r in V by lia.
  assert (E2 : 2 ^ (- e) = 2 ^ (- e - j) * 2 ^ j).
  { rewrite <- Z.pow_add_r by lia. f_equal. lia. }
  rewrite E2 in V.
  apply (Z.mul_reg_l _ _ (2 ^ (- e - j))); [lia|].
  transitivity (Z.of_N m * (2 ^ (- e - j) * 2 ^ j)); [ring|].
  rewrite V. ring.
Qed.

(** An integer within the safe range is a double. *)
Lemma ofZ_exact (z : Z) :
  - MAX_SAFE_INTEGER <= z <= MAX_SAFE_INTEGER ->
  Number.ofZ z = Number.Finite (z <? 0) (Z.abs_N z) 0.
Proof.
  unfold MAX_SAFE_INTEGER. intros Hz. unfold Number.ofZ.
  destruct (Z.eq_dec z 0) as [->|Hn]; [reflexivity|].
  change 1 with (2 ^ 0) at 1.
  destruct (round_exact (z <? 0) (Z.abs z) 0 ltac:(lia) ltac:(lia))
    as (m & k & -> & V & C).
  rewrite Z.pow_0_r, Z.mul_1_r in V.
  destruct k as [|q].
  - change (Z.of_N 0) with 0 in V. rewrite Z.pow_0_r, Z.mul_1_r in V.
    f_equal. lia.
  - exfalso. destruct C as [C|C]; [discriminate|].
    rewrite V, Z.odd_mul, Z.odd_pow in C by lia.
    simpl in C. rewrite andb_false_r in C. discriminate.
Qed.

(** An integer of any size rounds to itself below 2^53 and to something of
    2^53 or more, or to infinity, from there on. *)
Lemma round_integer (neg : bool) (v : Z) :
  0 < v ->
  Number.round neg v 1 = Number.Infinity neg
  \/ exists m,
       Number.round neg v 1 = Number.Finite neg m 0
       /\ (v < 2 ^ 53 -> Z.of_N m = v)
       /\ (2 ^ 53 <= v -> 2 ^ 53 <= Z.of_N m).
Proof.
  intros Hv. destruct (Z.lt_ge_cases v (2 ^ 53)) as [Hs|Hl].
  - right. pose proof (ofZ_exact v) as E. unfold Number.ofZ in E.
    rewrite Z.abs_eq in E by lia.
    assert (Nv : (v <? 0) = false) by (apply Z.ltb_ge; lia).
    unfold MAX_SAFE_INTEGER in E.
    assert (R : Number.round neg v 1 = Number.Finite neg (Z.abs_N v) 0).
    { change 1 with (2 ^ 0) at 1.
      destruct (round_exact neg v 0 ltac:(lia) ltac:(lia))
        as (m & k & -> & V & C).
      rewrite Z.pow_0_r, Z.mul_1_r in V.
      destruct k as [|q].
      - change (Z.of_N 0) with 0 in V. rewrite Z.pow_0_r, Z.mul_1_r in V.
        f_equal. lia.
      - exfalso. destruct C as [C|C]; [discriminate|].
        rewrite V, Z.odd_mul, Z.odd_pow in C by lia.
        simpl in C. rewrite andb_false_r in C. discriminate. }
    exists (Z.abs_N v). split; [exact R|]. split; intros; lia.
  - unfold Number.round.
    destruct (Z.eqb_spec v 0) as [|_]; [lia|].
    destruct (ilog2_spec v 1 Hv ltac:(lia)) as [L U].
    set (l := Number.ilog2 v 1) in *.
    assert (Hl0 : 53 <= l).
    { destruct (Z.le_gt_cases 53 l) as [|C]; [assumption|exfalso].
      destruct (Z.le_gt_cases 0 l) as [H|H].
      - rewrite (Z.max_r 0 l), (Z.max_l 0 (- l)), Z.pow_0_r in U by lia.
        assert (2 * 2 ^ l <= 2 ^ 53).
        { rewrite <- Z.pow_succ_r by lia. apply Z.pow_le_mono_r; lia. }
        lia.
      - rewrite (Z.max_l 0 l), (Z.max_r 0 (- l)), Z.pow_0_r in U by lia.
        assert (0 < 2 ^ (- l)) by (apply Z.pow_pos_nonneg; lia).
        assert (2 ^ 53 > 2) by reflexivity. nia. }
    rewrite (Z.max_r 0 l), (Z.max_l 0 (- l)), Z.pow_0_r in L by lia.
    rewrite (Z.max_l (l - 52) (-1074)) by lia.
    set (e := l - 52) in *.
    rewrite (Z.max_l 0 (- e)), (Z.max_r 0 e), Z.pow_0_r, !Z.mul_1_r by (unfold e; lia).
    rewrite !Z.mul_1_l in *.
    assert (Pe : 0 < 2 ^ e) by (apply Z.pow_pos_nonneg; unfold e; lia).
    assert (Ee : 2 ^ l = 2 ^ 52 * 2 ^ e).
    { rewrite <- Z.pow_add_r by (unfold e; lia). f_equal. unfold e. lia. }
    assert (He2 : 2 <= 2 ^ e).
    { change 2 with (2 ^ 1) at 1. apply Z.pow_le_mono_r; unfold e; lia. }
    pose proof (rne_bounds v (2 ^ e) Pe) as R.
    set (M := Number.rne v (2 ^ e)) in *.
    assert (HM : 2 ^ 52 <= M).
    { change (2 ^ 52) with 4503599627370496 in *. nia. }
    destruct ((971 <=? e) && (2 ^ 53 <=? M * 2 ^ (e - 971))); [now left|].
    right. destruct M as [|q|q]; try (change (2 ^ 52) with 4503599627370496 in HM; lia).
    unfold Number.dyadic.
    assert (T : (0 <=? e) = true) by (apply Z.leb_le; unfold e; lia).
    rewrite T. eexists. split; [reflexivity|].
    assert (2 ^ 53 <= Zpos q * 2 ^ e).
    { change (2 ^ 53) with (2 ^ 52 * 2). nia. }
    rewrite Z2N.id by lia. split; intros; lia.
Qed.

(** Comparing integers that doubles hold exactly. *)
Lemma ltb_ofZ (a b : Z) :
  - MAX_SAFE_INTEGER <= a <= MAX_SAFE_INTEGER ->
  - MAX_SAFE_INTEGER <= b <= MAX_SAFE_INTEGER ->
  Number.ltb (Number.ofZ a) (Number.ofZ b) = (a <? b).
Proof.
  intros Ha Hb. rewrite (ofZ_exact a Ha), (ofZ_exact b Hb).
  unfold Number.ltb. change (2 ^ Z.of_N 0) with 1.
  rewrite !Z.mul_1_r, !N2Z.inj_abs_N.
  assert (Ea : (if a <? 0 then -1 else 1) * Z.abs a = a)
    by (destruct (Z.ltb_spec a 0); lia).
  assert (Eb : (if b <? 0 then -1 else 1) * Z.abs b = b)
    by (destruct (Z.ltb_spec b 0); lia).
  now rewrite Ea, Eb.
Qed.

(** Sums and differences of integers that doubles hold exactly are the
    sums and differences rounded once. *)
Lemma add_ofZ (a b : Z) :
  - MAX_SAFE_INTEGER <= a <= MAX_SAFE_INTEGER ->
  - MAX_SAFE_INTEGER <= b <= MAX_SAFE_INTEGER ->
  Number.add (Number.ofZ a) (Number.ofZ b) = Number.ofZ (a + b).
Proof.
  intros Ha Hb. rewrite (ofZ_exact a Ha), (ofZ_exact b Hb).
  unfold Number.add. cbn [N.add Z.of_N].
  change (2 ^ 0) with 1. rewrite !Z.mul_1_r, !N2Z.inj_abs_N.
  assert (E : (if a <? 0 then -1 else 1) * Z.abs a
              + (if b <? 0 then -1 else 1) * Z.abs b = a + b).
  { destruct (Z.ltb_spec a 0), (Z.ltb_spec b 0); lia. }
  rewrite E. destruct (Z.eqb_spec (a + b) 0) as [Z0|NZ].
  - rewrite Z0. change (Number.ofZ 0) with (Number.Finite false 0 0).
    f_equal. destruct (Z.ltb_spec a 0), (Z.ltb_spec b 0); try reflexivity; lia.
  - reflexivity.
Qed.

Lemma sub_ofZ (a b : Z) :
  - MAX_SAFE_INTEGER <= a <= MAX_SAFE_INTEGER ->
  - MAX_SAFE_INTEGER <= b <= MAX_SAFE_INTEGER ->
  Number.sub (Number.ofZ a) (Number.ofZ b) = Number.ofZ (a - b).
Proof.
  intros Ha Hb. rewrite (ofZ_exact a Ha), (ofZ_exact b Hb).
  unfold Number.sub, Number.opp, Number.add. cbn [N.add Z.of_N].
  change (2 ^ 0) with 1. rewrite !Z.mul_1_r, !N2Z.inj_abs_N.
  assert (E : (if a <? 0 then -1 else 1) * Z.abs a
              + (if negb (b <? 0) then -1 else 1) * Z.abs b = a - b).
  { destruct (Z.ltb_spec a 0), (Z.ltb_spec b 0); cbn [negb]; cbv iota; lia. }
  rewrite E. destruct (Z.eqb_spec (a - b) 0) as [Z0|NZ].
  - rewrite Z0. change (Number.ofZ 0) with (Number.Finite false 0 0).
    f_equal. destruct (Z.ltb_spec a 0), (Z.ltb_spec b 0); try reflexivity; lia.
  - reflexivity.
Qed.

(** ** Effects of the combinators *)

Section Effects.
Context {P : Platform}.

Lemma processingOf_hom : Hom processingOf.
Proof.
  split; [reflexivity|]. intros a b.
  induction a as [|e a IH]; [reflexivity|].
  destruct e; simpl; rewrite IH; reflexivity.
Qed.

Lemma consoleErrors_hom : Hom consoleErrors.
Proof.
  split; [reflexivity|]. intros a b.
  induction a as [|e a IH]; [reflexivity|].
  destruct e; simpl; rewrite IH; reflexivity.
Qed.

Lemma consoleLogs_hom : Hom consoleLogs.
Proof.
  split; [reflexivity|]. intros a b.
  induction a as [|e a IH]; [reflexivity|].
  destruct e; simpl; rewrite IH; reflexivity.
Qed.

Lemma fetched_hom : Hom fetched.
Proof.
  split; [reflexivity|]. intros a b.
  induction a as [|e a IH]; [reflexivity|].
  destruct e; simpl; rewrite IH; reflexivity.
Qed.

Lemma written_hom : Hom written.
Proof.
  split; [reflexivity|]. intros a b.
  induction a as [|e a IH]; [reflexivity|].
  destruct e; simpl; rewrite IH; reflexivity.
Qed.

(** *** Accumulators *)

Lemma Inert_ret {A} (a : A) : Inert (ret a).
Proof. intros st. reflexivity. Qed.

Lemma Inert_throw {A} (e : Error) : Inert (@throw P A e).
Proof. intros st. reflexivity. Qed.

Lemma Inert_emit (e : Event) : Inert (emit e).
Proof. intros st. reflexivity. Qed.

Lemma Inert_get {A} (f : State -> A) : Inert (get f).
Proof. intros st. reflexivity. Qed.

Lemma Inert_test {A} (f : World -> A) : Inert (test f).
Proof. intros st. reflexivity. Qed.

Lemma Inert_observe {A} (f : World -> Error + A) : Inert (observe f).
Proof. intros st. reflexivity. Qed.

Lemma Inert_update (f : World -> Error + World) : Inert (update f).
Proof. intros st. unfold update. destruct (f (world st)); reflexivity. Qed.

Lemma Inert_perform {A} (f : World -> (Error + A) * World) : Inert (perform f).
Proof. intros st. unfold perform. destruct (f (world st)); reflexivity. Qed.

Lemma Inert_question (query : string) : Inert (question query).
Proof. intros st. reflexivity. Qed.

Lemma Inert_bind {A B} (m : M A) (f : A -> M B) :
  Inert m -> (forall a, Inert (f a)) -> Inert (bind m f).
Proof.
  intros Hm Hf st. unfold bind. specialize (Hm st).
  destruct (m st) as [[e|a] st']; simpl in *; [assumption|].
  now rewrite Hf.
Qed.

Lemma Inert_tryCatch {A} (m : M A) (h : Error -> M A) :
  Inert m -> (forall e, Inert (h e)) -> Inert (tryCatch m h).
Proof.
  intros Hm Hh st. unfold tryCatch. specialize (Hm st).
  destruct (m st) as [[e|a] st']; simpl in *; [|assumption].
  now rewrite Hh.
Qed.

Lemma Inert_tryFinally {A} (m : M A) (c : M unit) :
  Inert m -> Inert c -> Inert (tryFinally m c).
Proof.
  intros Hm Hc st. unfold tryFinally. specialize (Hm st).
  destruct (m st) as [r st']; simpl in *. now rewrite Hc.
Qed.

(** *** Trace *)

Section Projection.
Context {B : Type} (proj : list Event -> list B) (Hproj : Hom proj).

Lemma Emits_same {A} (m : M A) :
  (forall st, events (snd (m st)) = events st) -> Emits proj m [].
Proof.
  intros H st. exists []. rewrite H, app_nil_r. split; [reflexivity|apply Hproj].
Qed.

Lemma Emits_ret {A} (a : A) : Emits proj (ret a) [].
Proof. now apply Emits_same. Qed.

Lemma Emits_throw {A} (e : Error) : Emits proj (@throw P A e) [].
Proof. now apply Emits_same. Qed.

Lemma Emits_get {A} (f : State -> A) : Emits proj (get f) [].
Proof. now apply Emits_same. Qed.

Lemma Emits_test {A} (f : World -> A) : Emits proj (test f) [].
Proof. now apply Emits_same. Qed.

Lemma Emits_observe {A} (f : World -> Error + A) : Emits proj (observe f) [].
Proof. now apply Emits_same. Qed.

Lemma Emits_update (f : World -> Error + World) : Emits proj (update f) [].
Proof.
  apply Emits_same. intros st. unfold update.
  destruct (f (world st)); reflexivity.
Qed.

Lemma Emits_perform {A} (f : World -> (Error + A) * World) :
  Emits proj (perform f) [].
Proof.
  apply Emits_same. intros st. unfold perform.
  destruct (f (world st)); reflexivity.
Qed.

Lemma Emits_record (fileStats : FileStats) : Emits proj (record fileStats) [].
Proof. now apply Emits_same. Qed.

Lemma Emits_emit (e : Event) : Emits proj (emit e) (proj [e]).
Proof. intros st. exists [e]. split; reflexivity. Qed.

Lemma Emits_question (query : string) :
  Emits proj (question query) (proj [Question query]).
Proof. intros st. exists [Question query]. split; reflexivity. Qed.

(** What a sequence adds when its second part is sure to run. *)
Lemma Emits_bind {A C} (m : M A) (f : A -> M C) (l1 l2 : list B) :
  Emits proj m l1 -> NoThrow m -> (forall a, Emits proj (f a) l2) ->
  Emits proj (bind m f) (l1 ++ l2).
Proof.
  intros Hm Ht Hf st. unfold bind.
  destruct (Hm st) as (e1 & E1 & P1). destruct (Ht st) as (a & Ha).
  destruct (m st) as [[e|a'] st']; simpl in *; [discriminate|].
  destruct (Hf a' st') as (e2 & E2 & P2).
  exists (e1 ++ e2)%list. rewrite E2, E1, app_assoc. split; [reflexivity|].
  rewrite (proj2 Hproj). now rewrite P1, P2.
Qed.

(** What a sequence adds when its second part adds nothing. *)
Lemma Emits_bind_l {A C} (m : M A) (f : A -> M C) (l : list B) :
  Emits proj m l -> (forall a, Emits proj (f a) []) ->
  Emits proj (bind m f) l.
Proof.
  intros Hm Hf st. unfold bind.
  destruct (Hm st) as (e1 & E1 & P1).
  destruct (m st) as [[e|a'] st']; simpl in *; [eauto|].
  destruct (Hf a' st') as (e2 & E2 & P2).
  exists (e1 ++ e2)%list. rewrite E2, E1, app_assoc. split; [reflexivity|].
  rewrite (proj2 Hproj). now rewrite P1, P2, app_nil_r.
Qed.

Lemma Emits_tryCatch {A} (m : M A) (h : Error -> M A) (l : list B) :
  Emits proj m l -> (forall e, Emits proj (h e) []) ->
  Emits proj (tryCatch m h) l.
Proof.
  intros Hm Hh st. unfold tryCatch.
  destruct (Hm st) as (e1 & E1 & P1).
  destruct (m st) as [[e|a'] st']; simpl in *; [|eauto].
  destruct (Hh e st') as (e2 & E2 & P2).
  exists (e1 ++ e2)%list. rewrite E2, E1, app_assoc. split; [reflexivity|].
  rewrite (proj2 Hproj). now rewrite P1, P2, app_nil_r.
Qed.

Lemma Emits_tryFinally {A} (m : M A) (c : M unit) (l1 l2 : list B) :
  Emits proj m l1 -> Emits proj c l2 ->
  Emits proj (tryFinally m c) (l1 ++ l2).
Proof.
  intros Hm Hc st. unfold tryFinally.
  destruct (Hm st) as (e1 & E1 & P1).
  destruct (m st) as [r st']; simpl in *.
  destruct (Hc st') as (e2 & E2 & P2).
  exists (e1 ++ e2)%list. rewrite E2, E1, app_assoc. split; [reflexivity|].
  rewrite (proj2 Hproj). now rewrite P1, P2.
Qed.

End Projection.

(** *** Results *)

Lemma Returns_ret {A} (Q : A -> Prop) (a : A) : Q a -> Returns Q (ret a).
Proof. intros H st a' [= <-]. exact H. Qed.

Lemma Returns_throw {A} (Q : A -> Prop) (e : Error) : Returns Q (throw e).
Proof. intros st a H. discriminate. Qed.

Lemma Returns_bind {A B} (Q : B -> Prop) (m : M A) (f : A -> M B) :
  (forall a, Returns Q (f a)) -> Returns Q (bind m f).
Proof.
  intros Hf st b. unfold bind.
  destruct (m st) as [[e|a] st']; simpl; [discriminate|]. apply Hf.
Qed.

Lemma Returns_tryCatch {A} (Q : A -> Prop) (m : M A) (h : Error -> M A) :
  Returns Q m -> (forall e, Returns Q (h e)) -> Returns Q (tryCatch m h).
Proof.
  intros Hm Hh st a. unfold tryCatch. specialize (Hm st).
  destruct (m st) as [[e|a'] st']; simpl in *; [apply Hh|apply Hm].
Qed.

Lemma NoThrow_ret {A} (a : A) : NoThrow (ret a).
Proof. intros st. now exists a. Qed.

Lemma NoThrow_emit (e : Event) : NoThrow (emit e).
Proof. intros st. now exists tt. Qed.

Lemma NoThrow_get {A} (f : State -> A) : NoThrow (get f).
Proof. intros st. now eexists. Qed.

Lemma NoThrow_test {A} (f : World -> A) : NoThrow (test f).
Proof. intros st. now eexists. Qed.

Lemma NoThrow_question (query : string) : NoThrow (question query).
Proof. intros st. now eexists. Qed.

Lemma NoThrow_record (fileStats : FileStats) : NoThrow (record fileStats).
Proof. intros st. now exists tt. Qed.

Lemma NoThrow_bind {A B} (m : M A) (f : A -> M B) :
  NoThrow m -> (forall a, NoThrow (f a)) -> NoThrow (bind m f).
Proof.
  intros Hm Hf st. unfold bind. destruct (Hm st) as (a & Ha).
  destruct (m st) as [[e|a'] st']; simpl in *; [discriminate|]. apply Hf.
Qed.

Lemma NoThrow_tryCatch {A} (m : M A) (h : Error -> M A) :
  (forall e, NoThrow (h e)) -> NoThrow (tryCatch m h).
Proof.
  intros Hh st. unfold tryCatch.
  destruct (m st) as [[e|a'] st']; simpl in *; [apply Hh|now exists a'].
Qed.

(** *** Invariants *)

Lemma Preserves_Inert {A} (m : M A) :
  Inert m -> Preserves totalsMatch m.
Proof.
  intros H st HI. specialize (H st). unfold accumulators in H.
  injection H as E1 E2 E3. unfold totalsMatch in *. now rewrite E1, E2, E3.
Qed.

Lemma Preserves_bind {A B} (I : State -> Prop) (m : M A) (f : A -> M B) :
  Preserves I m -> (forall a, Preserves I (f a)) -> Preserves I (bind m f).
Proof.
  intros Hm Hf st HI. unfold bind. specialize (Hm st HI).
  destruct (m st) as [[e|a] st']; simpl in *; [assumption|]. now apply Hf.
Qed.

Lemma Preserves_tryCatch {A} (I : State -> Prop) (m : M A) (h : Error -> M A) :
  Preserves I m -> (forall e, Preserves I (h e)) -> Preserves I (tryCatch m h).
Proof.
  intros Hm Hh st HI. unfold tryCatch. specialize (Hm st HI).
  destruct (m st) as [[e|a] st']; simpl in *; [now apply Hh|assumption].
Qed.

Lemma sums_snoc (stats : list FileStats) (s : FileStats) :
  sumOriginal (stats ++ [s]) = sumOriginal stats + originalSize s
  /\ sumOptimized (stats ++ [s]) = sumOptimized stats + optimizedSize s
  /\ sumSaved (stats ++ [s])
     = sumSaved stats + (originalSize s - optimizedSize s).
Proof.
  unfold sumOriginal, sumOptimized, sumSaved.
  induction stats as [|t l IH]; simpl; lia.
Qed.

Lemma sums_bounds (stats : list FileStats) :
  Forall (fun s => 0 <= originalSize s /\ 0 <= optimizedSize s) stats ->
  0 <= sumOriginal stats /\ 0 <= sumOptimized stats
  /\ sumSaved stats = sumOriginal stats - sumOptimized stats.
Proof.
  unfold sumOriginal, sumOptimized, sumSaved.
  induction 1 as [|s l [Ho Hp] _ IH]; simpl; lia.
Qed.

Lemma safeSizes_snoc (stats : list FileStats) (s : FileStats) :
  safeSizes (stats ++ [s]) ->
  safeSizes stats /\ 0 <= originalSize s /\ 0 <= optimizedSize s.
Proof.
  intros (F & Ho & Hp). apply Forall_app in F. destruct F as [F1 F2].
  inversion F2 as [|? ? [Hs1 Hs2] _]; subst.
  destruct (sums_snoc stats s) as (E1 & E2 & _).
  destruct (sums_bounds stats F1) as (B1 & B2 & _).
  rewrite E1 in Ho. rewrite E2 in Hp.
  repeat split; try assumption; lia.
Qed.

Lemma Preserves_record (fileStats : FileStats) :
  Preserves totalsMatch (record fileStats).
Proof.
  intros st HI Hs. unfold record in *. cbn [snd processedStats
    totalOriginalBytes totalSavedBytes] in *.
  pose proof Hs as (F & Ho & Hp).
  destruct (safeSizes_snoc _ _ Hs) as (Hs0 & Hs1 & Hs2).
  destruct (HI Hs0) as [H1 H2]. rewrite H1, H2.
  destruct (sums_snoc (processedStats st) fileStats) as (E1 & E2 & E3).
  destruct Hs0 as (F0 & _ & _).
  destruct (sums_bounds _ F0) as (B1 & B2 & B3).
  rewrite E1 in Ho. rewrite E2 in Hp. rewrite E1, E3.
  rewrite sub_ofZ by lia. rewrite !add_ofZ by lia. split; reflexivity.
Qed.

End Effects.

(** ** Effects of the steps of the script *)

Ltac inert_step :=
  first
    [ apply Inert_bind | apply Inert_tryCatch | apply Inert_tryFinally
    | apply Inert_ret | apply Inert_throw | apply Inert_emit | apply Inert_get
    | apply Inert_test | apply Inert_observe | apply Inert_update
    | apply Inert_perform | apply Inert_question
    | match goal with
      | |- Inert (if ?b then _ else _) => destruct b
      | |- Inert (match ?x with _ => _ end) => destruct x
      | |- forall _, _ => intro
      end ].

Ltac inert := cbv zeta; repeat inert_step.

Ltac silent_step H :=
  first
    [ apply (Emits_bind_l _ H) | apply (Emits_tryCatch _ H)
    | apply (Emits_ret _ H) | apply (Emits_throw _ H) | apply (Emits_get _ H)
    | apply (Emits_test _ H) | apply (Emits_observe _ H)
    | apply (Emits_update _ H) | apply (Emits_perform _ H)
    | apply (Emits_record _ H)
    | exact (Emits_emit _ _) | exact (Emits_question _ _)
    | match goal with
      | |- Emits _ (if ?b then _ else _) _ => destruct b
      | |- Emits _ (match ?x with _ => _ end) _ => destruct x
      | |- forall _, _ => intro
      end ].

Ltac silent H := cbv zeta; repeat silent_step H.

Section Steps.
Context {P : Platform}.
Variable fmt : Format.
Variable quality : Number.number.
Variable shouldCrop : bool.
Variable cropDimensions : option (list string).

Lemma processImage_Inert (path : string) :
  Inert (processImage path fmt quality shouldCrop cropDimensions).
Proof. unfold processImage. inert. Qed.

Lemma processImage_processing (path : string) :
  Emits processingOf (processImage path fmt quality shouldCrop cropDimensions)
    [processingText path].
Proof.
  unfold processImage. cbv zeta.
  apply (Emits_tryCatch _ processingOf_hom);
    [|silent processingOf_hom].
  apply (Emits_bind_l _ processingOf_hom); [exact (Emits_emit _ _)|].
  silent processingOf_hom.
Qed.

Lemma processImage_consoleErrors (path : string) :
  Emits consoleErrors (processImage path fmt quality shouldCrop cropDimensions) [].
Proof. unfold processImage. silent consoleErrors_hom. Qed.

Lemma processImage_fetched (path : string) :
  Emits fetched (processImage path fmt quality shouldCrop cropDimensions) [].
Proof. unfold processImage. silent fetched_hom. Qed.

Lemma processImage_inputPath (path : string) :
  Returns (fun stats => inputPath stats = path)
    (processImage path fmt quality shouldCrop cropDimensions).
Proof.
  unfold processImage. cbv zeta. apply Returns_tryCatch.
  - repeat (apply Returns_bind; intro). now apply Returns_ret.
  - intros e. apply Returns_bind. intros _. apply Returns_throw.
Qed.

(** The three facts about one call, on the trace it adds. *)
Lemma processImage_trace (path : string) (st : State) :
  exists evs,
    events (snd (processImage path fmt quality shouldCrop cropDimensions st))
    = (events st ++ evs)%list
    /\ processingOf evs = [processingText path]
    /\ consoleErrors evs = [].
Proof.
  destruct (processImage_processing path st) as (e1 & E1 & P1).
  destruct (processImage_consoleErrors path st) as (e2 & E2 & P2).
  rewrite E1 in E2. apply app_inv_head in E2. subst e2. eauto.
Qed.

End Steps.

(** ** The batch loop *)

Section BatchLoop.
Context {P : Platform}.
Variable fmt : Format.
Variable quality : Number.number.
Variable shouldCrop : bool.
Variable cropDimensions : option (list string).

Let processDirectory' := processDirectory fmt quality shouldCrop cropDimensions.

(** One turn of the loop over a directory: either the record of the file is
    pushed, or one line goes to [console.error]; the turn never throws. *)
Lemma processDirectory_turn (dir file : string) (rest : list string)
    (st : State) :
  exists (ok : bool) (added : list FileStats) (evs : list Event) (st1 : State),
    processDirectory' dir (file :: rest) st = processDirectory' dir rest st1
    /\ events st1 = (events st ++ evs)%list
    /\ processingOf evs = [processingText (path_join dir file)]
    /\ processedStats st1 = (processedStats st ++ added)%list
    /\ map inputPath added
       = map (path_join dir) (select [ok] [file])
    /\ Forall2
         (fun line f => exists msg, line = "Error processing " ++ f ++ ": " ++ msg)
         (consoleErrors evs) (select [negb ok] [file]).
Proof.
  unfold processDirectory'. simpl processDirectory.
  unfold bind at 1. unfold tryCatch. unfold bind at 1.
  pose proof (processImage_Inert fmt quality shouldCrop cropDimensions
                (path_join dir file) st) as HI.
  pose proof (processImage_inputPath fmt quality shouldCrop cropDimensions
                (path_join dir file) st) as HR.
  destruct (processImage_trace fmt quality shouldCrop cropDimensions
              (path_join dir file) st) as (evs & HE & HP & HC).
  destruct (processImage (path_join dir file) fmt quality shouldCrop
              cropDimensions st) as [[e|stats] st'] eqn:E; simpl in *.
  - exists false, [], (evs ++ [ConsoleError
                              ("Error processing " ++ file ++ ": " ++ message e)])%list.
    eexists. split; [reflexivity|]. simpl.
    injection HI as H1 H2 H3.
    rewrite HE, app_assoc, app_nil_r.
    rewrite (proj2 processingOf_hom), (proj2 consoleErrors_hom), HP, HC.
    repeat split; auto. simpl. constructor; [eauto|constructor].
  - exists true, [stats], evs. eexists. split; [reflexivity|]. simpl.
    injection HI as H1 H2 H3. rewrite HC, (HR stats eq_refl).
    repeat split; auto. now rewrite H1.
Qed.

(** The loop announces every file and returns. *)
Lemma processDirectory_announces (dir : string) (files : list string)
    (st : State) :
  let r := processDirectory fmt quality shouldCrop cropDimensions dir files st in
  fst r = inr tt
  /\ exists evs,
       events (snd r) = (events st ++ evs)%list
       /\ processingOf evs
          = map (fun file => processingText (path_join dir file)) files.
Proof.
  fold processDirectory'. revert st.
  induction files as [|file rest IH]; intros st.
  - split; [reflexivity|]. exists []. simpl. now rewrite app_nil_r.
  - destruct (processDirectory_turn dir file rest st)
      as (ok & added1 & evs1 & st1 & -> & E1 & P1 & _).
    destruct (IH st1) as (R & evs2 & E2 & P2).
    split; [exact R|]. exists (evs1 ++ evs2)%list.
    rewrite E2, E1, <- app_assoc, (proj2 processingOf_hom), P1, P2.
    split; reflexivity.
Qed.

End BatchLoop.

(** ** The directory filter *)

Lemma append_nil_r (s : string) : s ++ "" = s.
Proof. induction s as [|c s IH]; simpl; [reflexivity|now rewrite IH]. Qed.

Lemma append_assoc (a b c : string) : (a ++ b) ++ c = a ++ (b ++ c).
Proof. induction a as [|x a IH]; simpl; [reflexivity|now rewrite IH]. Qed.

Lemma length_append (a b : string) :
  String.length (a ++ b) = (String.length a + String.length b)%nat.
Proof. induction a as [|x a IH]; simpl; [reflexivity|now rewrite IH]. Qed.

Lemma rev_app (a b : string) :
  JSString.rev (a ++ b) = JSString.rev b ++ JSString.rev a.
Proof.
  induction a as [|c a IH]; simpl.
  - now rewrite append_nil_r.
  - now rewrite IH, append_assoc.
Qed.

Lemma rev_involutive (s : string) : JSString.rev (JSString.rev s) = s.
Proof.
  induction s as [|c s IH]; [reflexivity|].
  simpl. now rewrite rev_app, IH.
Qed.

Lemma toLowerCase_app (a b : string) :
  JSString.toLowerCase (a ++ b)
  = JSString.toLowerCase a ++ JSString.toLowerCase b.
Proof. induction a as [|c a IH]; simpl; [reflexivity|now rewrite IH]. Qed.

Lemma toLowerCase_rev (s : string) :
  JSString.toLowerCase (JSString.rev s) = JSString.rev (JSString.toLowerCase s).
Proof.
  induction s as [|c s IH]; [reflexivity|].
  simpl. now rewrite toLowerCase_app, IH.
Qed.

Lemma plain_pattern_chars :
  Forall plain
    (list_ascii_of_string ".jpegnifwb").
Proof.
  simpl list_ascii_of_string.
  repeat (apply Forall_cons;
          [intros [[] [] [] [] [] [] [] []]; vm_compute; split; congruence|]).
  apply Forall_nil.
Qed.

Lemma prefix_ci_spec (p s : string) :
  Forall plain (list_ascii_of_string p) ->
  JSString.prefix_ci p s = true <->
  exists x y, s = x ++ y /\ JSString.toLowerCase x = p.
Proof.
  intros Hp. revert s.
  induction p as [|c p IH]; intros s; simpl.
  - split; [|reflexivity]. intros _. exists "", s. now split.
  - simpl in Hp. inversion Hp as [|? ? Hc Hp']; subst.
    destruct s as [|a s].
    + split; [discriminate|]. intros (x & y & E & L).
      destruct x; simpl in *; discriminate.
    + rewrite andb_true_iff, (Hc a), (IH Hp' s). split.
      * intros (Ha & x & y & -> & <-). exists (String a x), y.
        simpl. now rewrite Ha.
      * intros (x & y & E & L). destruct x as [|a' x]; [discriminate|].
        simpl in *. injection E as <- ->. injection L as Ha Hx.
        split; [exact Ha|]. now exists x, y.
Qed.

Lemma Forall_plain_sub (l : list ascii) :
  incl l (list_ascii_of_string ".jpegnifwb") -> Forall plain l.
Proof.
  intros H. apply Forall_forall. intros c Hc.
  exact (proj1 (Forall_forall _ _) plain_pattern_chars c (H c Hc)).
Qed.

(** The filter keeps the names with one of the five extensions. *)
Lemma isImageFile_spec (file : string) :
  isImageFile file = true <-> hasImageExtension file.
Proof.
  unfold isImageFile, hasImageExtension. rewrite existsb_exists. split.
  - intros (ext & Hin & H). unfold JSString.endsWith_ci in H.
    apply prefix_ci_spec in H.
    + destruct H as (x & y & E & L).
      apply (f_equal JSString.rev) in E. rewrite rev_involutive, rev_app in E.
      apply (f_equal JSString.rev) in L.
      rewrite <- toLowerCase_rev, rev_involutive in L.
      destruct (JSString.rev x) as [|c e]; [discriminate|].
      simpl in L. injection L as Hc He.
      assert (c = "."%char) as ->.
      { revert Hc. destruct c as [[] [] [] [] [] [] [] []]; vm_compute;
          congruence. }
      exists (JSString.rev y), e. split; [exact E|]. now rewrite He.
    + apply Forall_plain_sub.
      simpl in Hin.
      repeat (destruct Hin as [<-|Hin];
              [intros c Hc; vm_compute in Hc; vm_compute; tauto|]).
      destruct Hin.
  - intros (stem & e & -> & Hin).
    exists (JSString.toLowerCase e). split; [exact Hin|].
    unfold JSString.endsWith_ci. apply prefix_ci_spec.
    + apply Forall_plain_sub. simpl in Hin.
      repeat (destruct Hin as [<-|Hin];
              [intros c Hc; vm_compute in Hc; vm_compute; tauto|]).
      destruct Hin.
    + exists (JSString.rev ("." ++ e)), (JSString.rev stem). split.
      * now rewrite <- rev_app.
      * rewrite toLowerCase_rev. reflexivity.
Qed.

(** ** Resolution of one input path *)

Section Resolution.
Context {P : Platform}.
Variable fmt : Format.
Variable quality : Number.number.
Variable shouldCrop : bool.
Variable cropDimensions : option (list string).

Lemma processDirectory_fetched (dir : string) (files : list string) :
  Emits fetched (processDirectory fmt quality shouldCrop cropDimensions dir files) [].
Proof.
  induction files as [|file rest IH]; simpl.
  - apply (Emits_ret _ fetched_hom).
  - apply (Emits_bind_l _ fetched_hom); [|intros _; exact IH].
    apply (Emits_tryCatch _ fetched_hom); [|silent fetched_hom].
    apply (Emits_bind_l _ fetched_hom); [apply processImage_fetched|].
    silent fetched_hom.
Qed.

Lemma processDirectory_totals (dir : string) (files : list string) :
  Preserves totalsMatch
    (processDirectory fmt quality shouldCrop cropDimensions dir files).
Proof.
  induction files as [|file rest IH]; simpl.
  - apply Preserves_Inert, Inert_ret.
  - apply Preserves_bind; [|intros _; exact IH].
    apply Preserves_tryCatch.
    + apply Preserves_bind;
        [apply Preserves_Inert, processImage_Inert|apply Preserves_record].
    + intros e. apply Preserves_Inert, Inert_emit.
Qed.

Lemma processPath_fetched (path : string) :
  Emits fetched (processPath fmt quality shouldCrop cropDimensions path) [].
Proof.
  unfold processPath. cbv zeta.
  apply (Emits_bind_l _ fetched_hom); [apply (Emits_observe _ fetched_hom)|].
  intros stats. destruct (isDirectory stats).
  - apply (Emits_bind_l _ fetched_hom); [apply (Emits_observe _ fetched_hom)|].
    intros files. destruct (Nat.eqb _ 0); [apply (Emits_throw _ fetched_hom)|].
    apply (Emits_bind_l _ fetched_hom); [exact (Emits_emit _ _)|]. intros _.
    apply (Emits_bind_l _ fetched_hom); [exact (Emits_emit _ _)|]. intros _.
    apply (Emits_bind_l _ fetched_hom); [apply processDirectory_fetched|].
    intros _. exact (Emits_emit _ _).
  - apply (Emits_bind_l _ fetched_hom); [exact (Emits_emit _ _)|]. intros _.
    apply (Emits_bind_l _ fetched_hom); [apply processImage_fetched|].
    silent fetched_hom.
Qed.

Lemma processPath_totals (path : string) :
  Preserves totalsMatch (processPath fmt quality shouldCrop cropDimensions path).
Proof.
  unfold processPath. cbv zeta.
  apply Preserves_bind; [apply Preserves_Inert, Inert_observe|].
  intros stats. destruct (isDirectory stats).
  - apply Preserves_bind; [apply Preserves_Inert, Inert_observe|].
    intros files. destruct (Nat.eqb _ 0); [apply Preserves_Inert, Inert_throw|].
    apply Preserves_bind; [apply Preserves_Inert, Inert_emit|]. intros _.
    apply Preserves_bind; [apply Preserves_Inert, Inert_emit|]. intros _.
    apply Preserves_bind; [apply processDirectory_totals|]. intros _.
    apply Preserves_Inert, Inert_emit.
  - apply Preserves_bind; [apply Preserves_Inert, Inert_emit|]. intros _.
    apply Preserves_bind;
      [apply Preserves_Inert, processImage_Inert|apply Preserves_record].
Qed.

Lemma handleInputPath_totals (token : string) :
  Preserves totalsMatch
    (handleInputPath fmt quality shouldCrop cropDimensions token).
Proof.
  unfold handleInputPath. destruct (URL_pathname token) as [pathname|].
  - apply Preserves_bind; [apply Preserves_Inert, Inert_question|].
    intros answer. cbv zeta. apply Preserves_tryCatch.
    + apply Preserves_bind; [apply Preserves_Inert, Inert_emit|]. intros _.
      apply Preserves_bind;
        [apply Preserves_Inert; unfold downloadImage; inert|]. intros _.
      apply Preserves_bind; [apply Preserves_Inert, Inert_emit|]. intros _.
      apply processPath_totals.
    + intros e. apply Preserves_Inert, Inert_emit.
  - apply Preserves_tryCatch.
    + apply Preserves_bind; [apply Preserves_Inert, Inert_test|]. intros b.
      apply Preserves_bind; [apply Preserves_Inert; inert|]. intros _.
      apply processPath_totals.
    + intros e. apply Preserves_Inert, Inert_emit.
Qed.

Lemma processInputs_totals (inputPaths : list string) :
  Preserves totalsMatch
    (processInputs fmt quality shouldCrop cropDimensions inputPaths).
Proof.
  induction inputPaths as [|token rest IH]; simpl.
  - apply Preserves_Inert, Inert_ret.
  - apply Preserves_bind; [apply handleInputPath_totals|intros _; exact IH].
Qed.

Lemma handleInputPath_NoThrow (token : string) :
  NoThrow (handleInputPath fmt quality shouldCrop cropDimensions token).
Proof.
  unfold handleInputPath. destruct (URL_pathname token) as [pathname|].
  - apply NoThrow_bind; [apply NoThrow_question|]. intros answer.
    apply NoThrow_tryCatch. intros e. apply NoThrow_emit.
  - apply NoThrow_tryCatch. intros e. apply NoThrow_emit.
Qed.

Lemma processInputs_NoThrow (inputPaths : list string) :
  NoThrow (processInputs fmt quality shouldCrop cropDimensions inputPaths).
Proof.
  induction inputPaths as [|token rest IH]; simpl.
  - apply NoThrow_ret.
  - apply NoThrow_bind; [apply handleInputPath_NoThrow|intros _; exact IH].
Qed.

(** X9: for a token that parses as a URL, the one address handed to
    [fetch] is the destination path in the download directory, the path
    that [fs.writeFileSync] gets as well, and not the token. *)
Lemma handleInputPath_fetches_destination (token pathname : string)
    (st : State) :
  URL_pathname token = Some pathname ->
  exists evs,
    events (snd (handleInputPath fmt quality shouldCrop cropDimensions token st))
    = (events st ++ evs)%list
    /\ fetched evs = [downloadPath pathname (keyboard (asked st))].
Proof.
  intros H. unfold handleInputPath. rewrite H.
  unfold bind at 1. unfold question at 1. cbv zeta.
  match goal with
  | |- context [tryCatch ?m ?h ?s] =>
      assert (E : Emits fetched (tryCatch m h)
                    [downloadPath pathname (keyboard (asked st))])
  end.
  { apply (Emits_tryCatch _ fetched_hom); [|silent fetched_hom].
    apply (Emits_bind _ fetched_hom _ _ [] _);
      [exact (Emits_emit _ _)|apply NoThrow_emit|]. intros _.
    apply (Emits_bind_l _ fetched_hom).
    - unfold downloadImage.
      apply (Emits_bind_l _ fetched_hom); [exact (Emits_emit _ _)|].
      silent fetched_hom.
    - intros _. apply (Emits_bind_l _ fetched_hom); [exact (Emits_emit _ _)|].
      intros _. apply processPath_fetched. }
  match goal with
  | |- context [tryCatch ?m ?h ?s] => destruct (E s) as (evs & E1 & E2)
  end.
  exists (Question ("Enter output file name for " ++ path_basename pathname
                      ++ " (leave blank to use URL file name): ") :: evs).
  rewrite E1. simpl. rewrite <- app_assoc. split; [reflexivity|exact E2].
Qed.

End Resolution.

(** ** Directories, totals and the report *)

Section Report.
Context {P : Platform}.
Variable fmt : Format.
Variable quality : Number.number.
Variable shouldCrop : bool.
Variable cropDimensions : option (list string).

(** The directory branch of [processPath]. *)
Lemma processPath_directory_eq (dir : string) (files : list string)
    (stats : Stats) (st : State) :
  fs_statSync dir (world st) = inr stats ->
  isDirectory stats = true ->
  fs_readdirSync dir (world st) = inr files ->
  processPath fmt quality shouldCrop cropDimensions dir st
  = match imageFilesOf files with
    | [] => (inl noImageFiles, st)
    | _ :: _ =>
        let count :=
          Decimal.ofN (N.of_nat (List.length (imageFilesOf files))) in
        let st1 :=
          withEvent (SpinnerStart "Starting batch processing...")
            (withEvent
               (SpinnerInfo ("Found " ++ count ++ " image(s) to process")) st) in
        let r :=
          processDirectory fmt quality shouldCrop cropDimensions dir
            (imageFilesOf files) st1 in
        match fst r with
        | inl e => (inl e, snd r)
        | inr _ =>
            (inr tt,
             withEvent
               (SpinnerSucceed
                  ("Batch processing complete! Processed " ++ count ++ " files"))
               (snd r))
        end
    end.
Proof.
  intros Hs Hd Hf. unfold processPath. cbv zeta.
  unfold bind at 1. unfold observe at 1. rewrite Hs. rewrite Hd.
  unfold bind at 1. unfold observe at 1. rewrite Hf.
  destruct (imageFilesOf files) as [|file0 rest] eqn:E; [reflexivity|].
  assert (Hne : Nat.eqb (List.length (file0 :: rest)) 0 = false) by reflexivity.
  rewrite Hne. clear Hne.
  unfold bind at 1. unfold emit at 1.
  unfold bind at 1. unfold emit at 1.
  unfold bind at 1.
  destruct (processDirectory _ _ _ _ _ _ _) as [[e|[]] st']; reflexivity.
Qed.

(** From [fs.statSync] on, for a path that is a directory: the files
    handed to the codec are the entries with one of the five extensions in
    any mix of cases, and the step throws the no-image error exactly when
    no entry has one. *)
Lemma processPath_directory (dir : string) (files : list string)
    (stats : Stats) (st : State) :
  fs_statSync dir (world st) = inr stats ->
  isDirectory stats = true ->
  fs_readdirSync dir (world st) = inr files ->
  let r := processPath fmt quality shouldCrop cropDimensions dir st in
  (forall file,
     In file (imageFilesOf files) <-> In file files /\ hasImageExtension file)
  /\ (fst r = inl noImageFiles <->
        forall file, In file files -> ~ hasImageExtension file)
  /\ exists evs,
       events (snd r) = (events st ++ evs)%list
       /\ processingOf evs
          = map (fun file => processingText (path_join dir file))
              (imageFilesOf files).
Proof.
  intros Hs Hd Hf r.
  assert (Hin : forall file,
             In file (imageFilesOf files)
             <-> In file files /\ hasImageExtension file).
  { intros file. unfold imageFilesOf. rewrite filter_In, isImageFile_spec.
    reflexivity. }
  split; [exact Hin|].
  subst r. rewrite (processPath_directory_eq dir files stats st Hs Hd Hf).
  destruct (imageFilesOf files) as [|file0 rest] eqn:E.
  - simpl. split.
    + split; [|reflexivity]. intros _ file Hfile Hext.
      apply (proj2 (Hin file)); auto.
    + exists []. now rewrite app_nil_r.
  - cbv zeta.
    match goal with
    | |- context [processDirectory _ _ _ _ dir (file0 :: rest) ?s] =>
        destruct (processDirectory_announces fmt quality shouldCrop
                    cropDimensions dir (file0 :: rest) s)
          as (R & evs & Ev & Pr)
    end.
    rewrite R. split.
    + split; [discriminate|]. intros H. exfalso.
      apply (H file0); apply (proj1 (Hin file0)); now left.
    + eexists. cbn [snd events withEvent]. rewrite Ev.
      cbn [snd events withEvent]. rewrite <- !app_assoc.
      split; [reflexivity|].
      rewrite !(proj2 processingOf_hom), Pr. simpl. now rewrite app_nil_r.
Qed.

(** What [reportTotals] prints when there is a record. *)
Lemma reportTotals_some (st : State) :
  processedStats st <> [] ->
  reportTotals st
  = (inr tt,
     withEvent
       (ConsoleLog ("   Total Space Saved: "
                      ++ formatFileSize (totalSavedBytes st)
                      ++ " (" ++ totalSavingsPercent st ++ "%)"))
       (withEvent
          (ConsoleLog ("   Total Size After:  "
                         ++ formatFileSize
                              (Number.sub (totalOriginalBytes st)
                                 (totalSavedBytes st))))
          (withEvent
             (ConsoleLog ("   Total Size Before: "
                            ++ formatFileSize (totalOriginalBytes st)))
             (withEvent (ConsoleLog totalsHeading) st)))).
Proof.
  intros H. unfold reportTotals. unfold bind at 1. unfold get at 1.
  destruct (processedStats st) as [|s l] eqn:E; [congruence|].
  reflexivity.
Qed.

Lemma sums_agree (stats : list FileStats) :
  sumOriginal stats - sumSaved stats = sumOptimized stats.
Proof.
  unfold sumOriginal, sumSaved, sumOptimized.
  induction stats as [|s l IH]; simpl; lia.
Qed.

(** C7: when at least one record was kept, and the sizes of the records
    are not negative and sum up to a total that a double holds exactly (at
    most 2^53 - 1 bytes of originals and of optimized files), the two
    totals are exact: the total saved is the sum over the records of
    original minus optimized size, and the total printed as the size after,
    the total of the original sizes minus the total saved, is the sum of
    the optimized sizes. *)
Theorem totals_reported (inputPaths : list string) (st0 : State) :
  accumulators st0 = ([], Number.ofZ 0, Number.ofZ 0) ->
  let st :=
    snd (processInputs fmt quality shouldCrop cropDimensions inputPaths st0) in
  processedStats st <> [] ->
  safeSizes (processedStats st) ->
  totalSavedBytes st = Number.ofZ (sumSaved (processedStats st))
  /\ totalOriginalBytes st = Number.ofZ (sumOriginal (processedStats st))
  /\ sumOriginal (processedStats st) - sumSaved (processedStats st)
     = sumOptimized (processedStats st)
  /\ Number.sub (totalOriginalBytes st) (totalSavedBytes st)
     = Number.ofZ (sumOptimized (processedStats st))
  /\ consoleLogs
       (skipn (List.length (events st)) (events (snd (reportTotals st))))
     = [ totalsHeading;
         "   Total Size Before: "
           ++ formatFileSize (Number.ofZ (sumOriginal (processedStats st)));
         "   Total Size After:  "
           ++ formatFileSize (Number.ofZ (sumOptimized (processedStats st)));
         "   Total Space Saved: "
           ++ formatFileSize (Number.ofZ (sumSaved (processedStats st)))
           ++ " (" ++ totalSavingsPercent st ++ "%)" ].
Proof.
  intros H0 st Hne Hs.
  assert (T : totalsMatch st).
  { apply processInputs_totals. unfold accumulators in H0.
    injection H0 as E1 E2 E3. unfold totalsMatch. now rewrite E1, E2, E3. }
  destruct (T Hs) as [T1 T2].
  destruct Hs as (F & Ho & Hp).
  destruct (sums_bounds _ F) as (B1 & B2 & B3).
  assert (D : Number.sub (totalOriginalBytes st) (totalSavedBytes st)
              = Number.ofZ (sumOptimized (processedStats st))).
  { rewrite T1, T2, sub_ofZ by lia. f_equal. lia. }
  split; [exact T2|]. split; [exact T1|]. split; [apply sums_agree|].
  split; [exact D|].
  rewrite (reportTotals_some st Hne). simpl.
  rewrite <- !app_assoc, skipn_app, skipn_all, Nat.sub_diag. simpl.
  now rewrite D, T1, T2.
Qed.

(** C8: with no record, the totals block is the single line that no image
    was processed, whatever the two totals hold: the branch with the
    division is not entered, and the report ends normally. *)
Theorem report_without_images (inputPaths : list string) (st : State) :
  processedStats st = [] ->
  reportTotals st = (inr tt, withEvent (ConsoleLog noImagesProcessed) st)
  /\ report inputPaths st
     = (inr tt,
        withEvent (SpinnerSucceed "All operations completed successfully!")
          (withEvent (ConsoleLog (outputDirectoryLine inputPaths))
             (withEvent (ConsoleLog noImagesProcessed)
                (withEvent (ConsoleLog resultsHeading) st)))).
Proof.
  intros H.
  assert (R : forall s,
             processedStats s = [] ->
             reportTotals s = (inr tt, withEvent (ConsoleLog noImagesProcessed) s)).
  { intros s Hs. unfold reportTotals. unfold bind at 1. unfold get at 1.
    now rewrite Hs. }
  split; [exact (R st H)|].
  unfold report. unfold bind at 1. unfold console_log at 1. unfold emit at 1.
  unfold bind at 1. unfold get at 1. simpl processedStats. rewrite H.
  simpl reportFiles. unfold bind at 1. unfold ret at 1.
  unfold bind at 1.
  rewrite (R (withEvent (ConsoleLog resultsHeading) st) H). reflexivity.
Qed.

(** The totals are both zero as long as no record was kept. *)
Lemma totals_zero_without_images (st : State) :
  totalsMatch st -> processedStats st = [] ->
  totalOriginalBytes st = Number.ofZ 0 /\ totalSavedBytes st = Number.ofZ 0.
Proof.
  intros H E. unfold totalsMatch in H. rewrite E in H. apply H.
  split; [constructor|]. unfold MAX_SAFE_INTEGER. split; simpl; lia.
Qed.

(** [main] catches whatever is thrown under it. *)
Lemma main_NoThrow (st : State) : fst (main st) = inr tt.
Proof.
  unfold main, tryFinally, tryCatch.
  match goal with
  | |- context [bind ?m ?f st] => destruct (bind m f st) as [[e|[]] st']
  end; reflexivity.
Qed.

End Report.

(** ** Runs on the concrete platform *)

(** The example of the specification: of a.jpg, b.txt and c.png the filter
    keeps the two pictures; the extension may be in upper case. *)
Example imageFilesOf_example :
  imageFilesOf ["a.jpg"; "b.txt"; "c.png"] = ["a.jpg"; "c.png"]
  /\ imageFilesOf ["A.JPG"; "b.Jpeg"; "c.webp.txt"; "gif"; ".gif"] = ["A.JPG"; "b.Jpeg"; ".gif"].
Proof. split; reflexivity. Qed.

Lemma processPath_directory_witness :
  let P := Demo.platform [] in
  let st := @initialState P Demo.album in
  let files := ["a.jpg"; "notes.txt"; "b.PNG"; "c.gif"; "d.webp"; "e.jpeg"] in
  let r := @processPath P webp (Number.ofZ 80) false None "/pics" st in
  (forall file,
     In file (imageFilesOf files) <-> In file files /\ hasImageExtension file)
  /\ (fst r = inl noImageFiles <->
        forall file, In file files -> ~ hasImageExtension file)
  /\ exists evs,
       events (snd r) = (events st ++ evs)%list
       /\ processingOf evs
          = map (fun file => @processingText P (@path_join P "/pics" file))
              (imageFilesOf files).
Proof.
  intros P st files.
  exact (@processPath_directory P webp (Number.ofZ 80) false None "/pics" files
           {| size := 4096; isDirectory := true |} st
           eq_refl eq_refl eq_refl).
Defined.

(** A directory without pictures makes the step throw. *)
Example processPath_no_images :
  let P := Demo.platform [] in
  fst (@processPath P webp (Number.ofZ 80) false None "/texts"
         (@initialState P Demo.album))
  = inl noImageFiles.
Proof. vm_compute. reflexivity. Qed.

(** Five pictures of which the third cannot be read: four records, in the
    order of the directory, and one line on [console.error]. *)
Example processDirectory_album :
  let P := Demo.platform [] in
  let r := @processDirectory P webp (Number.ofZ 80) false None "/pics"
             ["a.jpg"; "b.PNG"; "c.gif"; "d.webp"; "e.jpeg"]
             (@initialState P Demo.album) in
  fst r = inr tt
  /\ map inputPath (processedStats (snd r))
     = ["/pics/a.jpg"; "/pics/b.PNG"; "/pics/d.webp"; "/pics/e.jpeg"]
  /\ consoleErrors (events (snd r))
     = ["Error processing c.gif: Input file contains unsupported image format"].
Proof. vm_compute. repeat split. Qed.

Lemma totals_reported_witness :
  let P := Demo.platform [] in
  let st0 := @initialState P Demo.album in
  let st := snd (@processInputs P webp (Number.ofZ 80) false None ["/pics"] st0) in
  (accumulators st0 = ([], Number.ofZ 0, Number.ofZ 0)
   /\ processedStats st <> [] /\ safeSizes (processedStats st))
  /\ totalSavedBytes st = Number.ofZ (sumSaved (processedStats st))
  /\ totalOriginalBytes st = Number.ofZ (sumOriginal (processedStats st))
  /\ Number.sub (totalOriginalBytes st) (totalSavedBytes st)
     = Number.ofZ (sumOptimized (processedStats st)).
Proof.
  intros P st0 st.
  assert (H0 : accumulators st0 = ([], Number.ofZ 0, Number.ofZ 0))
    by reflexivity.
  assert (Hne : processedStats st <> [])
    by (intros H; vm_compute in H; discriminate H).
  assert (Hs : safeSizes (processedStats st)).
  { unfold safeSizes, MAX_SAFE_INTEGER. vm_compute.
    split; [|split; intros H; discriminate H].
    repeat (apply Forall_cons; [split; intros H; discriminate H|]).
    apply Forall_nil. }
  split; [split; [exact H0|split; [exact Hne|exact Hs]]|].
  destruct (@totals_reported P webp (Number.ofZ 80) false None ["/pics"] st0
              H0 Hne Hs) as (T1 & T2 & _ & T3 & _).
  split; [exact T1|]. split; [exact T2|exact T3].
Defined.

Example totals_album :
  let P := Demo.platform ["/pics"; "1"; "80"; "n"] in
  let st := snd (@script P (@initialState P Demo.album)) in
  totalOriginalBytes st = Number.ofZ 3351688
  /\ totalSavedBytes st = Number.ofZ 1675851
  /\ sumOptimized (processedStats st) = 1675837
  /\ In "   Total Size After:  1.60 MB" (consoleLogs (events st)).
Proof. vm_compute. repeat split. tauto. Qed.

Lemma report_without_images_witness :
  let P := Demo.platform [] in
  let st := @initialState P Demo.album in
  processedStats st = []
  /\ @reportTotals P st = (inr tt, withEvent (ConsoleLog noImagesProcessed) st).
Proof.
  intros P st. split; [reflexivity|].
  exact (proj1 (@report_without_images P ["/nowhere"] st eq_refl)).
Defined.

(** A run in which every input fails ends with the message and normally. *)
Example run_without_images :
  let P := Demo.platform ["/nope /texts"; ""; ""; "n"] in
  let r := @script P (@initialState P Demo.album) in
  fst r = inr tt
  /\ processedStats (snd r) = []
  /\ In noImagesProcessed (consoleLogs (events (snd r))).
Proof. vm_compute. repeat split. tauto. Qed.

(** C1: for the address https://example.com/img/cat.jpg the script hands
    [fetch] the local destination path, not the address: the resource is
    not requested, nothing is written and no record is kept. *)
Theorem download_fetches_destination :
  let P := Demo.platform ["https://example.com/img/cat.jpg"; ""; ""; "n"; ""] in
  let r := @script P (@initialState P Demo.album) in
  fetched (events (snd r)) = ["/app/downloads/cat.jpg"]
  /\ ~ In "https://example.com/img/cat.jpg" (fetched (events (snd r)))
  /\ written (events (snd r)) = []
  /\ processedStats (snd r) = [].
Proof.
  vm_compute. repeat split. intros [H|[]]. discriminate H.
Qed.

(** ** Decimal digits *)

Lemma digits_acc (fuel : nat) (n : N) (acc : string) :
  Decimal.digits fuel n acc = Decimal.digits fuel n "" ++ acc.
Proof.
  revert n acc. induction fuel as [|fuel IH]; intros n acc; simpl.
  - reflexivity.
  - destruct (n <? 10)%N; [reflexivity|].
    rewrite (IH _ (String _ acc)), (IH _ (String _ "")).
    now rewrite append_assoc.
Qed.

Lemma digits_fuel (f1 f2 : nat) (n : N) (acc : string) :
  (n < 10 ^ N.of_nat (S f1))%N -> (n < 10 ^ N.of_nat (S f2))%N ->
  Decimal.digits f1 n acc = Decimal.digits f2 n acc.
Proof.
  revert f2 n acc. induction f1 as [|f1 IH]; intros f2 n acc H1 H2.
  - change (10 ^ N.of_nat 1)%N with 10%N in H1.
    destruct f2 as [|f2]; simpl; [reflexivity|].
    apply N.ltb_lt in H1. now rewrite H1.
  - destruct f2 as [|f2].
    + change (10 ^ N.of_nat 1)%N with 10%N in H2.
      simpl. apply N.ltb_lt in H2. now rewrite H2.
    + simpl. destruct (n <? 10)%N; [reflexivity|].
      apply IH.
      * rewrite Nat2N.inj_succ, N.pow_succ_r' in H1.
        apply N.Div0.div_lt_upper_bound. exact H1.
      * rewrite Nat2N.inj_succ, N.pow_succ_r' in H2.
        apply N.Div0.div_lt_upper_bound. exact H2.
Qed.

Lemma lt_pow10_log2 (n : N) : (n < 10 ^ N.succ (N.log2 n))%N.
Proof.
  destruct n as [|p]; [reflexivity|].
  apply N.lt_le_trans with (2 ^ N.succ (N.log2 (Npos p)))%N.
  - apply N.log2_spec. reflexivity.
  - apply N.pow_le_mono_l. lia.
Qed.

Lemma ofN_small (n : N) :
  (n < 10)%N -> Decimal.ofN n = String (Decimal.digit n) "".
Proof.
  intros H. unfold Decimal.ofN.
  rewrite (digits_fuel _ 0 n "").
  - reflexivity.
  - rewrite Nat2N.inj_succ, N2Nat.id. apply lt_pow10_log2.
  - exact H.
Qed.

Lemma ofN_step (n : N) :
  (10 <= n)%N ->
  Decimal.ofN n = Decimal.ofN (n / 10) ++ String (Decimal.digit n) "".
Proof.
  intros H. unfold Decimal.ofN.
  assert (L : (3 <= N.log2 n)%N).
  { change 3%N with (N.log2 10). now apply N.log2_le_mono. }
  destruct (N.to_nat (N.log2 n)) as [|f] eqn:E; [lia|].
  simpl. assert (Hn : (n <? 10)%N = false) by (apply N.ltb_ge; exact H).
  rewrite Hn, digits_acc. f_equal.
  apply digits_fuel.
  - apply N.Div0.div_lt_upper_bound.
    rewrite <- N.pow_succ_r', <- E, N2Nat.id. apply lt_pow10_log2.
  - rewrite Nat2N.inj_succ, N2Nat.id. apply lt_pow10_log2.
Qed.

Lemma ofN_length_pos (n : N) : (1 <= String.length (Decimal.ofN n))%nat.
Proof.
  destruct (N.lt_ge_cases n 10) as [H|H].
  - rewrite (ofN_small n H). simpl. lia.
  - rewrite (ofN_step n H), length_append. simpl. lia.
Qed.

Lemma take_app (a b : string) :
  Decimal.take (String.length a) (a ++ b) = a.
Proof. induction a as [|c a IH]; simpl; [now destruct b|now rewrite IH]. Qed.

Lemma drop_app (a b : string) :
  Decimal.drop (String.length a) (a ++ b) = b.
Proof. induction a as [|c a IH]; simpl; [reflexivity|exact IH]. Qed.

Lemma digit_div (n : N) : Decimal.digit (n mod 10) = Decimal.digit n.
Proof. unfold Decimal.digit. now rewrite N.Div0.mod_mod. Qed.

Lemma split_two_decimals (x : string) (a b : ascii) :
  (1 <= String.length x)%nat ->
  let ds := x ++ String a (String b "") in
  let ds := Decimal.zeros (3 - String.length ds) ++ ds in
  Decimal.take (String.length ds - 2) ds ++ "."
    ++ Decimal.drop (String.length ds - 2) ds
  = x ++ "." ++ String a (String b "").
Proof.
  intros L. cbv zeta.
  set (t := String a (String b "")).
  assert (Lt : String.length (x ++ t) = (String.length x + 2)%nat)
    by (rewrite length_append; reflexivity).
  rewrite Lt.
  replace (3 - (String.length x + 2))%nat with 0%nat by lia.
  change (Decimal.zeros 0 ++ (x ++ t)) with (x ++ t).
  rewrite Lt.
  replace (String.length x + 2 - 2)%nat with (String.length x) by lia.
  now rewrite take_app, drop_app.
Qed.

(** The digits [toFixed(2)] gives for [n] hundredths. *)
Lemma toFixed_digits (n : N) :
  let ds := Decimal.ofN n in
  let ds := Decimal.zeros (3 - String.length ds) ++ ds in
  Decimal.take (String.length ds - 2) ds ++ "."
    ++ Decimal.drop (String.length ds - 2) ds
  = Decimal.ofN (n / 100) ++ "."
      ++ String (Decimal.digit (n / 10)) (String (Decimal.digit n) "").
Proof.
  cbv zeta.
  destruct (N.lt_ge_cases n 10) as [H|H].
  - rewrite (ofN_small n H). simpl.
    rewrite N.div_small by lia. rewrite N.div_small by lia. reflexivity.
  - rewrite (ofN_step n H).
    destruct (N.lt_ge_cases (n / 10) 10) as [H1|H1].
    + rewrite (ofN_small _ H1). simpl.
      assert (H2 : (n < 100)%N).
      { pose proof (N.div_mod n 10 ltac:(lia)).
        pose proof (N.mod_lt n 10 ltac:(lia)). lia. }
      rewrite (N.div_small n 100) by exact H2. reflexivity.
    + rewrite (ofN_step _ H1).
      assert (E : (n / 10 / 10 = n / 100)%N)
        by (rewrite N.Div0.div_div; reflexivity).
      rewrite E, append_assoc.
      change (String (Decimal.digit (n / 10)) "" ++ String (Decimal.digit n) "")
        with (String (Decimal.digit (n / 10)) (String (Decimal.digit n) "")).
      apply (split_two_decimals (Decimal.ofN (n / 100))).
      apply ofN_length_pos.
Qed.

(** ** [toFixed(2)] and [formatFileSize] *)

(** Below 10^21 [toFixed(2)] writes the nearest number of hundredths, the
    larger one on a tie, with two decimals. *)
Lemma toFixed2_spec (s : bool) (m k : N) :
  Z.of_N m < 10 ^ 21 * 2 ^ Z.of_N k ->
  Number.toFixed 2 (Number.Finite s m k)
  = (if s && (0 <? Z.of_N m) then "-" else "")
      ++ fixed2 (roundHalfUp (Z.of_N m * 100) (2 ^ Z.of_N k)).
Proof.
  intros H. unfold Number.toFixed.
  assert (T : (10 ^ 21 * 2 ^ Z.of_N k <=? Z.of_N m) = false)
    by (apply Z.leb_gt; exact H).
  rewrite T. cbv zeta. f_equal.
  change (10 ^ Z.of_nat 2) with 100.
  change (if (0 <? 2)%nat then ?x else _) with x.
  assert (Pk : 0 < 2 ^ Z.of_N k) by (apply Z.pow_pos_nonneg; lia).
  unfold roundHalfUp.
  replace (2 * Z.of_N m * 100 + 2 ^ Z.of_N k)
    with (2 * (Z.of_N m * 100) + 2 ^ Z.of_N k) by ring.
  set (n := (2 * (Z.of_N m * 100) + 2 ^ Z.of_N k) / (2 * 2 ^ Z.of_N k)).
  assert (Hn : 0 <= n) by (apply Z.div_pos; lia).
  rewrite (toFixed_digits (Z.to_N n)). unfold fixed2.
  rewrite !Z2N.inj_div by lia. reflexivity.
Qed.

(** A byte count divided by a power of two, as [formatFileSize] prints it. *)
Lemma toFixed2_div_pow2 (b j : Z) :
  0 < b <= MAX_SAFE_INTEGER -> 0 <= j <= 20 ->
  Number.toFixed 2 (Number.div (Number.ofZ b) (Number.ofZ (2 ^ j)))
  = fixed2 (roundHalfUp (100 * b) (2 ^ j)).
Proof.
  intros Hb Hj.
  assert (Pj : 0 < 2 ^ j) by (apply Z.pow_pos_nonneg; lia).
  assert (Bj : 2 ^ j <= 2 ^ 20) by (apply Z.pow_le_mono_r; lia).
  unfold MAX_SAFE_INTEGER in Hb.
  rewrite (ofZ_exact b), (ofZ_exact (2 ^ j)) by (unfold MAX_SAFE_INTEGER; lia).
  assert (Nb : (b <? 0) = false) by (apply Z.ltb_ge; lia).
  assert (Nj : (2 ^ j <? 0) = false) by (apply Z.ltb_ge; lia).
  rewrite Nb, Nj. unfold Number.div.
  assert (Zj : (Z.abs_N (2 ^ j) =? 0)%N = false) by (apply N.eqb_neq; lia).
  rewrite Zj. cbn [xorb].
  change (Z.of_N 0) with 0. rewrite Z.pow_0_r, !Z.mul_1_r.
  rewrite !N2Z.inj_abs_N, !Z.abs_eq by lia.
  destruct (round_exact false b j ltac:(lia) ltac:(lia))
    as (m & k & -> & V & _).
  assert (Pk : 0 < 2 ^ Z.of_N k) by (apply Z.pow_pos_nonneg; lia).
  rewrite toFixed2_spec.
  - cbn [andb]. change ("" ++ ?x) with x. f_equal. unfold roundHalfUp.
    rewrite <- (Z.div_mul_cancel_r _ _ (2 ^ j)) by lia.
    rewrite <- (Z.div_mul_cancel_r (2 * (100 * b) + 2 ^ j) _ (2 ^ Z.of_N k)) by lia.
    f_equal; [|ring].
    replace ((2 * (Z.of_N m * 100) + 2 ^ Z.of_N k) * 2 ^ j)
      with (200 * (Z.of_N m * 2 ^ j) + 2 ^ Z.of_N k * 2 ^ j) by ring.
    rewrite V. ring.
  - assert (Z.of_N m * 2 ^ j < 2 ^ 53 * 2 ^ Z.of_N k) by nia.
    assert (2 ^ 53 < 10 ^ 21) by reflexivity. nia.
Qed.

(** [n] below 10^d has [d] digits at most. *)
Lemma ofN_length_le (d : nat) (n : N) :
  (n < 10 ^ N.of_nat (S d))%N -> (String.length (Decimal.ofN n) <= S d)%nat.
Proof.
  revert n. induction d as [|d IH]; intros n H.
  - change (10 ^ N.of_nat 1)%N with 10%N in H. rewrite (ofN_small n H).
    simpl. lia.
  - destruct (N.lt_ge_cases n 10) as [S|L].
    + rewrite (ofN_small n S). simpl. lia.
    + rewrite (ofN_step n L), length_append. simpl.
      assert (String.length (Decimal.ofN (n / 10)) <= S d)%nat; [|lia].
      apply IH. apply N.Div0.div_lt_upper_bound.
      rewrite <- N.pow_succ_r', <- Nat2N.inj_succ. exact H.
Qed.

(** Below 2^53 the shortest decimal that reads back as an integer is the
    integer itself. *)
Lemma shortest_exact (tries k nd : nat) (x : Z) :
  0 <= x < 2 ^ 53 -> Number.shortest tries k nd x = x.
Proof.
  intros Hx. revert k. induction tries as [|tries IH]; intros k.
  - reflexivity.
  - cbn [Number.shortest]. cbv zeta.
    set (u := 10 ^ Z.of_nat (nd - k)).
    assert (Pu : 0 < u) by (apply Z.pow_pos_nonneg; lia).
    set (lo := x / u * u).
    assert (Hlo : 0 <= lo <= x).
    { unfold lo. pose proof (Z.mul_div_le x u Pu).
      assert (0 <= x / u) by (apply Z.div_pos; lia). nia. }
    assert (Hhi : x < lo + u).
    { unfold lo. pose proof (Z.mod_pos_bound x u Pu).
      pose proof (Z.div_mod x u ltac:(lia)). nia. }
    assert (Ex : Number.ofZ x = Number.Finite false (Z.abs_N x) 0).
    { rewrite ofZ_exact by (unfold MAX_SAFE_INTEGER; lia).
      f_equal. apply Z.ltb_ge. lia. }
    assert (El : Number.ofZ lo = Number.Finite false (Z.abs_N lo) 0).
    { rewrite ofZ_exact by (unfold MAX_SAFE_INTEGER; lia).
      f_equal. apply Z.ltb_ge. lia. }
    rewrite Ex, El.
    assert (Hh : match Number.ofZ (lo + u) with
                 | Number.Finite _ a 0 => (a =? Z.abs_N x)%N
                 | _ => false
                 end = false).
    { unfold Number.ofZ.
      assert (N0 : (lo + u <? 0) = false) by (apply Z.ltb_ge; lia).
      rewrite N0, Z.abs_eq by lia.
      destruct (round_integer false (lo + u) ltac:(lia))
        as [->|(m & -> & S1 & S2)]; [reflexivity|].
      apply N.eqb_neq. intros E.
      destruct (Z.lt_ge_cases (lo + u) (2 ^ 53)) as [C|C];
        [specialize (S1 C)|specialize (S2 C)]; lia. }
    rewrite Hh, andb_false_r.
    destruct (N.eqb_spec (Z.abs_N lo) (Z.abs_N x)) as [E|_]; [lia|].
    apply IH.
Qed.

(** What [x + text] writes of an integer that a double holds exactly. *)
Lemma toString_ofZ (b : Z) :
  - MAX_SAFE_INTEGER <= b <= MAX_SAFE_INTEGER ->
  Number.toString (Number.ofZ b) = Decimal.ofZ b.
Proof.
  intros Hb. rewrite (ofZ_exact b Hb). unfold Number.toString, Decimal.ofZ.
  destruct (N.eqb_spec (Z.abs_N b) 0) as [Z0|NZ].
  - assert (b = 0) by lia. subst b. reflexivity.
  - cbn [N.eqb]. unfold Number.toStringInteger. cbv zeta.
    unfold MAX_SAFE_INTEGER in Hb.
    rewrite shortest_exact by lia.
    rewrite !N2Z.id.
    assert (L : (String.length (Decimal.ofN (Z.abs_N b)) <= 21)%nat).
    { apply Nat.le_trans with 16%nat; [|lia].
      apply (ofN_length_le 15).
      apply N.lt_le_trans with (2 ^ 53)%N; [lia|].
      vm_compute. discriminate. }
    apply Nat.leb_le in L. rewrite L.
    destruct (b <? 0); reflexivity.
Qed.

(** C3: on the integers a double holds exactly, [formatFileSize] writes
    the count and B below 1024, the count over 1024 to two decimals and KB
    from 1024 and below 1024 * 1024, and the count over 1024 * 1024 to two
    decimals and MB from there on; the three suffixes tell the three
    ranges apart. *)
Theorem formatFileSize_spec (b : Z) :
  0 <= b <= MAX_SAFE_INTEGER ->
  (b < 1024 -> formatFileSize (Number.ofZ b) = Decimal.ofZ b ++ " B")
  /\ (1024 <= b < 1024 * 1024 ->
      formatFileSize (Number.ofZ b)
      = fixed2 (roundHalfUp (100 * b) 1024) ++ " KB")
  /\ (1024 * 1024 <= b ->
      formatFileSize (Number.ofZ b)
      = fixed2 (roundHalfUp (100 * b) (1024 * 1024)) ++ " MB")
  /\ (endsWith (formatFileSize (Number.ofZ b)) " B" = true <-> b < 1024)
  /\ (endsWith (formatFileSize (Number.ofZ b)) " KB" = true
      <-> 1024 <= b < 1024 * 1024)
  /\ (endsWith (formatFileSize (Number.ofZ b)) " MB" = true
      <-> 1024 * 1024 <= b).
Proof.
  intros Hb.
  assert (L1 : Number.ltb (Number.ofZ b) (Number.ofZ 1024) = (b <? 1024))
    by (apply ltb_ofZ; unfold MAX_SAFE_INTEGER in *; lia).
  assert (L2 : Number.ltb (Number.ofZ b) (Number.ofZ (1024 * 1024))
               = (b <? 1024 * 1024))
    by (apply ltb_ofZ; unfold MAX_SAFE_INTEGER in *; lia).
  assert (B : b < 1024 ->
              formatFileSize (Number.ofZ b) = Decimal.ofZ b ++ " B").
  { intros H. unfold formatFileSize. rewrite L1.
    destruct (Z.ltb_spec b 1024); [|lia].
    now rewrite toString_ofZ by lia. }
  assert (K : 1024 <= b < 1024 * 1024 ->
              formatFileSize (Number.ofZ b)
              = fixed2 (roundHalfUp (100 * b) 1024) ++ " KB").
  { intros H. unfold formatFileSize. rewrite L1, L2.
    destruct (Z.ltb_spec b 1024); [lia|].
    destruct (Z.ltb_spec b (1024 * 1024)); [|lia].
    change 1024 with (2 ^ 10).
    now rewrite (toFixed2_div_pow2 b 10) by lia. }
  assert (M : 1024 * 1024 <= b ->
              formatFileSize (Number.ofZ b)
              = fixed2 (roundHalfUp (100 * b) (1024 * 1024)) ++ " MB").
  { intros H. unfold formatFileSize. rewrite L1, L2.
    destruct (Z.ltb_spec b 1024); [lia|].
    destruct (Z.ltb_spec b (1024 * 1024)); [lia|].
    change (1024 * 1024) with (2 ^ 20).
    now rewrite (toFixed2_div_pow2 b 20) by lia. }
  assert (S1 : forall x, endsWith (x ++ " B") " B" = true
                         /\ endsWith (x ++ " B") " KB" = false
                         /\ endsWith (x ++ " B") " MB" = false).
  { intros x. unfold endsWith. rewrite rev_app. repeat split; reflexivity. }
  assert (S2 : forall x, endsWith (x ++ " KB") " B" = false
                         /\ endsWith (x ++ " KB") " KB" = true
                         /\ endsWith (x ++ " KB") " MB" = false).
  { intros x. unfold endsWith. rewrite rev_app. repeat split; reflexivity. }
  assert (S3 : forall x, endsWith (x ++ " MB") " B" = false
                         /\ endsWith (x ++ " MB") " KB" = false
                         /\ endsWith (x ++ " MB") " MB" = true).
  { intros x. unfold endsWith. rewrite rev_app. repeat split; reflexivity. }
  split; [exact B|]. split; [exact K|]. split; [exact M|].
  destruct (Z.lt_ge_cases b 1024) as [H1|H1].
  - rewrite (B H1). destruct (S1 (Decimal.ofZ b)) as (-> & -> & ->).
    repeat split; intros; try lia; try discriminate.
  - destruct (Z.lt_ge_cases b (1024 * 1024)) as [H2|H2].
    + rewrite (K (conj H1 H2)).
      destruct (S2 (fixed2 (roundHalfUp (100 * b) 1024))) as (-> & -> & ->).
      repeat split; intros; try lia; try discriminate.
    + rewrite (M H2).
      destruct (S3 (fixed2 (roundHalfUp (100 * b) (1024 * 1024))))
        as (-> & -> & ->).
      repeat split; intros; try lia; try discriminate.
Qed.

Lemma formatFileSize_spec_witness :
  0 <= 1536 <= MAX_SAFE_INTEGER
  /\ formatFileSize (Number.ofZ 1536)
     = fixed2 (roundHalfUp (100 * 1536) 1024) ++ " KB".
Proof.
  assert (H : 0 <= 1536 <= MAX_SAFE_INTEGER)
    by (unfold MAX_SAFE_INTEGER; lia).
  split; [exact H|].
  apply (proj1 (proj2 (formatFileSize_spec 1536 H))). lia.
Defined.

Example formatFileSize_examples :
  map (fun b => formatFileSize (Number.ofZ b))
    [0; 1023; 1024; 1536; 1048575; 1048576; 5000000]
  = ["0 B"; "1023 B"; "1.00 KB"; "1.50 KB"; "1024.00 KB"; "1.00 MB"; "4.77 MB"].
Proof. vm_compute. reflexivity. Qed.

(** Beyond the integers that doubles hold exactly: a total saved of
    -(10^21) bytes or of -(2^60) bytes, an infinite total, and a total that
    is not a number. *)
Example formatFileSize_beyond :
  formatFileSize (Number.ofZ (- 10 ^ 21)) = "-1e+21 B"
  /\ formatFileSize (Number.ofZ (- 2 ^ 60)) = "-1152921504606847000 B"
  /\ formatFileSize (Number.Infinity true) = "-Infinity B"
  /\ formatFileSize (Number.Infinity false) = "Infinity MB"
  /\ formatFileSize Number.NaN = "NaN MB".
Proof. repeat split; vm_compute; reflexivity. Qed.

(** ** The savings percentage *)

(** Away from underflow and overflow, rounding moves a ratio by at most
    one part in 2^53. *)
Lemma round_error (neg : bool) (a b : Z) :
  0 < a -> 0 < b -> b <= a * 2 ^ 64 -> a <= b * 2 ^ 64 ->
  exists m k,
    Number.round neg a b = Number.Finite neg m k
    /\ 0 < Z.of_N m
    /\ - (a * 2 ^ Z.of_N k)
       <= 2 ^ 53 * (Z.of_N m * b - a * 2 ^ Z.of_N k)
       <= a * 2 ^ Z.of_N k.
Proof.
  intros Ha Hb Hlo Hhi. unfold Number.round.
  destruct (Z.eqb_spec a 0) as [|_]; [lia|].
  destruct (ilog2_spec a b Ha Hb) as [L U].
  set (l := Number.ilog2 a b) in *.
  assert (Hl : -66 <= l <= 64).
  { split.
    - destruct (Z.le_gt_cases (-66) l) as [|C]; [assumption|exfalso].
      rewrite (Z.max_l 0 l), (Z.max_r 0 (- l)), Z.pow_0_r in U by lia.
      assert (2 ^ 66 <= 2 ^ (- l)) by (apply Z.pow_le_mono_r; lia).
      assert (2 ^ 66 = 4 * 2 ^ 64) by reflexivity. nia.
    - destruct (Z.le_gt_cases l 64) as [|C]; [assumption|exfalso].
      rewrite (Z.max_r 0 l), (Z.max_l 0 (- l)), Z.pow_0_r in L by lia.
      assert (2 ^ 65 <= 2 ^ l) by (apply Z.pow_le_mono_r; lia).
      assert (2 ^ 65 = 2 * 2 ^ 64) by reflexivity. nia. }
  rewrite (Z.max_l (l - 52) (-1074)) by lia.
  set (e := l - 52).
  assert (O : (971 <=? e) = false) by (apply Z.leb_gt; unfold e; lia).
  rewrite O. cbn [andb].
  pose proof (pow2_pos (- e)) as P1. pose proof (pow2_pos e) as P2.
  set (E1 := 2 ^ Z.max 0 (- e)) in *. set (E2 := 2 ^ Z.max 0 e) in *.
  assert (N : 2 ^ 52 * (b * E2) <= a * E1).
  { unfold E1, E2, e. destruct (Z.le_gt_cases 52 l) as [H|H].
    - rewrite (Z.max_r 0 (l - 52)), (Z.max_l 0 (- (l - 52))) by lia.
      rewrite (Z.max_r 0 l), (Z.max_l 0 (- l)) in L by lia.
      replace l with (52 + (l - 52)) in L at 1 by lia.
      rewrite Z.pow_add_r in L by lia. lia.
    - rewrite (Z.max_l 0 (l - 52)), (Z.max_r 0 (- (l - 52))) by lia.
      destruct (Z.le_gt_cases 0 l) as [H0|H0].
      + rewrite (Z.max_r 0 l), (Z.max_l 0 (- l)) in L by lia.
        assert (Ee : 2 ^ 52 = 2 ^ l * 2 ^ (- (l - 52))).
        { rewrite <- Z.pow_add_r by lia. f_equal. lia. }
        assert (0 < 2 ^ (- (l - 52))) by (apply Z.pow_pos_nonneg; lia).
        rewrite Ee. nia.
      + rewrite (Z.max_l 0 l), (Z.max_r 0 (- l)) in L by lia.
        assert (Ee : 2 ^ (- (l - 52)) = 2 ^ (- l) * 2 ^ 52).
        { rewrite <- Z.pow_add_r by lia. f_equal. lia. }
        rewrite Ee. nia. }
  pose proof (rne_bounds (a * E1) (b * E2) ltac:(nia)) as R.
  set (M := Number.rne (a * E1) (b * E2)) in *.
  assert (PM : 0 < M) by nia.
  destruct (dyadic_spec neg M e PM) as (m & k & D & Pm & V & _).
  fold E1 E2 in V.
  exists m, k. split; [exact D|]. split; [exact Pm|].
  assert (PK : 0 < 2 ^ Z.of_N k) by (apply Z.pow_pos_nonneg; lia).
  set (K := 2 ^ Z.of_N k) in *.
  assert (X : - (a * E1) <= 2 ^ 53 * (M * (b * E2) - a * E1) <= a * E1)
    by (change (2 ^ 53) with (2 * 2 ^ 52); lia).
  assert (G : E1 * (2 ^ 53 * (Z.of_N m * b - a * K))
              = K * (2 ^ 53 * (M * (b * E2) - a * E1))).
  { transitivity (2 ^ 53 * ((Z.of_N m * E1) * b - a * E1 * K)); [ring|].
    rewrite V. ring. }
  split.
  - apply (Z.mul_le_mono_pos_l _ _ E1 P1). rewrite G. nia.
  - apply (Z.mul_le_mono_pos_l _ _ E1 P1). rewrite G. nia.
Qed.

Lemma roundHalfUp_bounds (a b : Z) :
  0 < b -> - b < 2 * (roundHalfUp a b * b - a) <= b.
Proof.
  intros Hb. unfold roundHalfUp.
  pose proof (Z.div_mod (2 * a + b) (2 * b) ltac:(lia)) as E.
  pose proof (Z.mod_pos_bound (2 * a + b) (2 * b) ltac:(lia)) as B.
  set (q := (2 * a + b) / (2 * b)) in *.
  set (r := (2 * a + b) mod (2 * b)) in *. nia.
Qed.

(** Two roundings of one part in 2^53 each, then the rounding to
    hundredths, stay within half a hundredth of the exact value as long as
    the difference of the sizes is below 2^37. *)
Lemma nearest_hundredth (o D m1 K1 m2 K2 n : Z) :
  0 < o -> 0 < D < 2 ^ 37 -> 0 < K1 -> 0 < K2 -> 0 < m1 ->
  - (D * K1) <= 2 ^ 53 * (m1 * o - D * K1) <= D * K1 ->
  - (100 * m1 * K2) <= 2 ^ 53 * (m2 * K1 - 100 * m1 * K2) <= 100 * m1 * K2 ->
  - K2 <= 2 * (n * K2 - 100 * m2) <= K2 ->
  - o <= 2 * (n * o - 10000 * D) <= o.
Proof.
  intros Ho HD HK1 HK2 Hm1 H1 H2 H3.
  set (d1 := 2 ^ 53 * (m1 * o - D * K1)) in *.
  set (d2 := 2 ^ 53 * (m2 * K1 - 100 * m1 * K2)) in *.
  set (d3 := 2 * (n * K2 - 100 * m2)) in *.
  set (Pk := K1 * K2).
  assert (HPk : 0 < Pk) by (unfold Pk; nia).
  assert (I : 2 ^ 106 * (Pk * (2 * (n * o - 10000 * D)))
              = 20000 * 2 ^ 53 * (K2 * d1) + 200 * 2 ^ 53 * (o * d2)
                + 2 ^ 106 * (K1 * o * d3)).
  { unfold Pk, d1, d2, d3.
    change (2 ^ 106) with (2 ^ 53 * 2 ^ 53). ring. }
  assert (A1 : - (D * Pk) <= K2 * d1 <= D * Pk) by (unfold Pk; nia).
  assert (Z1 : 2 ^ 53 * (m1 * o * K2) <= (2 ^ 53 + 1) * (D * Pk)).
  { unfold d1 in H1. unfold Pk. nia. }
  assert (A2 : - (100 * (m1 * o * K2)) <= o * d2 <= 100 * (m1 * o * K2)) by nia.
  assert (A3 : - (o * Pk) <= K1 * o * d3 <= o * Pk) by (unfold Pk; nia).
  assert (Dk : D * Pk <= (2 ^ 37 - 1) * Pk) by nia.
  set (G := 2 * (n * o - 10000 * D)) in *.
  set (W := D * Pk) in *. set (Y := o * Pk) in *.
  set (Zk := m1 * o * K2) in *.
  set (B1 := K2 * d1) in *. set (B2 := o * d2) in *.
  set (B3 := K1 * o * d3) in *.
  assert (C : 2 ^ 106 * (Pk * G) < 2 ^ 106 * (Pk * (o + 1))
              /\ 2 ^ 106 * (Pk * (- o - 1)) < 2 ^ 106 * (Pk * G)).
  { replace (Pk * (o + 1)) with (Y + Pk) by (unfold Y; ring).
    replace (Pk * (- o - 1)) with (- Y - Pk) by (unfold Y; ring).
    rewrite I.
    change (2 ^ 106) with 81129638414606681695789005144064 in *.
    change (2 ^ 53) with 9007199254740992 in *.
    change (2 ^ 37) with 137438953472 in *. lia. }
  destruct C as [C1 C2].
  apply Z.mul_lt_mono_pos_l in C1; [|reflexivity].
  apply Z.mul_lt_mono_pos_l in C2; [|reflexivity].
  apply Z.mul_lt_mono_pos_l in C1; [|exact HPk].
  apply Z.mul_lt_mono_pos_l in C2; [|exact HPk].
  lia.
Qed.

(** The savings string is the nearest number of hundredths of a percent;
    halfway between two of them the lower one may come out. *)
Lemma savingsOf_nearest (o p : Z) :
  0 < o < 2 ^ 37 -> 0 <= p < 2 ^ 37 ->
  exists n,
    savingsOf o p = (if o <? p then "-" else "") ++ fixed2 n
    /\ (n = roundHalfUp (10000 * Z.abs (o - p)) o
        \/ (n = roundHalfUp (10000 * Z.abs (o - p)) o - 1
            /\ 2 * (10000 * Z.abs (o - p)) = (2 * n + 1) * o)).
Proof.
  intros Ho Hp. unfold savingsOf.
  rewrite sub_ofZ by (unfold MAX_SAFE_INTEGER; lia).
  assert (S37 : 2 ^ 37 < MAX_SAFE_INTEGER) by reflexivity.
  rewrite (ofZ_exact (o - p)), (ofZ_exact o) by lia.
  assert (F100 : Number.ofZ 100 = Number.Finite false 100 0)
    by (vm_compute; reflexivity).
  rewrite F100.
  assert (No : (o <? 0) = false) by (apply Z.ltb_ge; lia).
  rewrite No.
  assert (Zo : (Z.abs_N o =? 0)%N = false) by (apply N.eqb_neq; lia).
  unfold Number.div. rewrite Zo. rewrite xorb_false_r.
  change (Z.of_N 0) with 0. rewrite Z.pow_0_r, !Z.mul_1_r.
  rewrite !N2Z.inj_abs_N, (Z.abs_eq o) by lia.
  assert (Ss : (o - p <? 0) = (o <? p)).
  { destruct (Z.ltb_spec (o - p) 0), (Z.ltb_spec o p); lia || reflexivity. }
  rewrite Ss.
  destruct (Z.eq_dec o p) as [<-|Hne].
  - rewrite Z.sub_diag. change (Z.abs 0) with 0.
    change (Number.round (o <? o) 0 o) with (Number.Finite (o <? o) 0 0).
    rewrite Z.ltb_irrefl. exists 0. split; [vm_compute; reflexivity|].
    left. unfold roundHalfUp. rewrite Z.div_small; lia.
  - set (D := Z.abs (o - p)).
    assert (HD : 0 < D < 2 ^ 37) by (unfold D; lia).
    assert (P64 : 2 ^ 37 < 2 ^ 64) by reflexivity.
    destruct (round_error (o <? p) D o ltac:(lia) ltac:(lia)
                ltac:(nia) ltac:(nia))
      as (m1 & k1 & -> & P1 & E1).
    assert (PK1 : 0 < 2 ^ Z.of_N k1) by (apply Z.pow_pos_nonneg; lia).
    unfold Number.mul. rewrite xorb_false_r, N.add_0_r, N2Z.inj_mul.
    change (Z.of_N 100) with 100.
    set (K1 := 2 ^ Z.of_N k1) in *. set (M1 := Z.of_N m1) in *.
    assert (B1 : K1 <= 2 * M1 * o /\ M1 <= 2 * (D * K1)).
    { change (2 ^ 53) with 9007199254740992 in E1. nia. }
    assert (P38 : 2 ^ 37 * 2 * 100 < 2 ^ 64) by reflexivity.
    destruct (round_error (o <? p) (M1 * 100) K1 ltac:(lia) PK1
                ltac:(nia) ltac:(nia))
      as (m2 & k2 & -> & P2 & E2).
    assert (PK2 : 0 < 2 ^ Z.of_N k2) by (apply Z.pow_pos_nonneg; lia).
    set (K2 := 2 ^ Z.of_N k2) in *. set (M2 := Z.of_N m2) in *.
    assert (B2 : M2 * K1 <= 2 * (M1 * 100 * K2)).
    { change (2 ^ 53) with 9007199254740992 in E2. nia. }
    rewrite toFixed2_spec.
    + fold M2 K2. exists (roundHalfUp (M2 * 100) K2). split.
      * f_equal. destruct (o <? p); [|reflexivity].
        cbn [andb]. destruct (Z.ltb_spec 0 M2); [reflexivity|lia].
      * pose proof (roundHalfUp_bounds (M2 * 100) K2 PK2) as R.
        set (n := roundHalfUp (M2 * 100) K2) in *.
        assert (Nh : - o <= 2 * (n * o - 10000 * D) <= o).
        { apply (nearest_hundredth o D M1 K1 M2 K2 n); lia. }
        pose proof (roundHalfUp_bounds (10000 * D) o ltac:(lia)) as R'.
        set (n' := roundHalfUp (10000 * D) o) in *.
        destruct (Z.eq_dec (2 * (n * o - 10000 * D)) (- o)) as [T|T].
        -- right. split; nia.
        -- left. nia.
    + fold M2 K2.
      assert (M2 * K1 < 10 ^ 21 * K2 * K1); [|nia].
      assert (Q : 2 * (2 * (2 ^ 37 * K1) * 100) < 10 ^ 21 * K1).
      { change (2 ^ 37) with 137438953472.
        change (10 ^ 21) with 1000000000000000000000. lia. }
      nia.
Qed.

Section Savings.
Context {P : Platform}.
Variable fmt : Format.
Variable quality : Number.number.
Variable shouldCrop : bool.
Variable cropDimensions : option (list string).

(** The record carries the savings of its own two sizes. *)
Lemma processImage_savings (path : string) :
  Returns
    (fun stats =>
       savings stats = savingsOf (originalSize stats) (optimizedSize stats))
    (processImage path fmt quality shouldCrop cropDimensions).
Proof.
  unfold processImage. cbv zeta. apply Returns_tryCatch.
  - repeat (apply Returns_bind; intro). now apply Returns_ret.
  - intros e. apply Returns_bind. intros _. apply Returns_throw.
Qed.

(** C9, amended: for sizes below 2^37 bytes the savings of a record is the
    number of hundredths of a percent nearest to (o - p) / o * 100, written
    with two decimals and a minus sign when the file grew; when the exact
    value is halfway between two hundredths, the lower one may be written
    instead of the upper one. *)
Theorem savings_nearest (path : string) (st : State) (stats : FileStats) :
  fst (processImage path fmt quality shouldCrop cropDimensions st) = inr stats ->
  0 < originalSize stats < 2 ^ 37 ->
  0 <= optimizedSize stats < 2 ^ 37 ->
  let o := originalSize stats in
  let p := optimizedSize stats in
  exists n,
    savings stats = (if o <? p then "-" else "") ++ fixed2 n
    /\ (n = roundHalfUp (10000 * Z.abs (o - p)) o
        \/ (n = roundHalfUp (10000 * Z.abs (o - p)) o - 1
            /\ 2 * (10000 * Z.abs (o - p)) = (2 * n + 1) * o)).
Proof.
  intros H Ho Hp o p.
  rewrite (processImage_savings path st stats H).
  exact (savingsOf_nearest o p Ho Hp).
Qed.

End Savings.

Lemma savings_nearest_witness :
  let P := Demo.platform [] in
  let stats :=
    {| inputPath := "/pics/a.jpg";
       outputPath := "/pics/optimized/a.webp";
       originalSize := 204800;
       optimizedSize := 102400;
       originalFormat := "jpeg";
       optimizedFormat := "webp";
       originalDimensions := "800x600";
       optimizedDimensions := "800x600";
       savings := "50.00" |} in
  (fst (@processImage P "/pics/a.jpg" webp (Number.ofZ 80) false None
          (@initialState P Demo.album)) = inr stats
   /\ 0 < originalSize stats < 2 ^ 37
   /\ 0 <= optimizedSize stats < 2 ^ 37)
  /\ exists n,
       savings stats = (if 204800 <? 102400 then "-" else "") ++ fixed2 n
       /\ (n = roundHalfUp (10000 * Z.abs (204800 - 102400)) 204800
           \/ (n = roundHalfUp (10000 * Z.abs (204800 - 102400)) 204800 - 1
               /\ 2 * (10000 * Z.abs (204800 - 102400))
                  = (2 * n + 1) * 204800)).
Proof.
  intros P stats.
  assert (H : fst (@processImage P "/pics/a.jpg" webp (Number.ofZ 80) false
                     None (@initialState P Demo.album)) = inr stats)
    by (vm_compute; reflexivity).
  assert (Ho : 0 < originalSize stats < 2 ^ 37) by (simpl; lia).
  assert (Hp : 0 <= optimizedSize stats < 2 ^ 37) by (simpl; lia).
  split; [split; [exact H|split; [exact Ho|exact Hp]]|].
  exact (@savings_nearest P webp (Number.ofZ 80) false None "/pics/a.jpg"
           (@initialState P Demo.album) stats H Ho Hp).
Defined.

(** C9, as stated, fails: a file of 160 bytes optimized to 73 bytes saves
    54.375 percent exactly, which rounds to 54.38 (halves up, and halves to
    even as well), but the two double roundings leave 54.37499999999999
    and the record says 54.37. *)
Lemma savings_not_exact_rounding :
  let P := Demo.platform [] in
  exists stats,
    fst (@processImage P "/pics/b.PNG" webp (Number.ofZ 80) false None
           (@initialState P Demo.album)) = inr stats
    /\ originalSize stats = 160 /\ optimizedSize stats = 73
    /\ savings stats = "54.37"
    /\ savingsExact 160 73 = "54.38"
    /\ 2 * (10000 * (160 - 73)) = (2 * 5437 + 1) * 160
    /\ Number.rne (10000 * (160 - 73)) 160 = 5438
    /\ savings stats <> savingsExact (originalSize stats) (optimizedSize stats).
Proof.
  intros P.
  eexists. split; [vm_compute; reflexivity|].
  repeat split; try (vm_compute; reflexivity).
  vm_compute. discriminate.
Qed.

(** On other ties the upper neighbour is written. *)
Example savings_tie_up :
  savingsOf 32 1 = "96.88" /\ 2 * (10000 * (32 - 1)) = (2 * 9687 + 1) * 32.
Proof. split; vm_compute; reflexivity. Qed.

(** ** The quality prompt on numeric answers *)

(** X10: where the code does clamp: an answer that starts (after white
    space and a sign) with a digit gives an integer between 0 and 100. *)
Lemma chooseQuality_clamped (qualityInput : string) :
  qualityInput <> "" ->
  Global.parseInt qualityInput <> Number.NaN ->
  isQuality (chooseQuality qualityInput).
Proof.
  intros Hne Hnum. unfold chooseQuality.
  destruct (String.eqb_spec qualityInput "") as [|_]; [contradiction|].
  assert (F100 : Number.ofZ 100 = Number.Finite false 100 0)
    by (vm_compute; reflexivity).
  assert (F0 : Number.ofZ 0 = Number.Finite false 0 0) by reflexivity.
  rewrite F100, F0. revert Hnum. unfold Global.parseInt.
  destruct (Global.stripSign (JSString.trimStart qualityInput)) as [neg s1].
  destruct (Global.stripHexPrefix s1) as [radix s2].
  destruct (Global.parseDigits radix s2 None) as [v|]; [intros _|congruence].
  destruct v as [|q].
  - exists 0%N. split; [lia|]. destruct neg; reflexivity.
  - destruct (round_integer neg (Zpos q) ltac:(lia)) as [E|(m & E & Hs & Hl)];
      change (Z.of_N (Npos q)) with (Zpos q); rewrite E.
    + destruct neg; [exists 0%N|exists 100%N]; split; try lia; reflexivity.
    + assert (Pm : 0 < Z.of_N m).
      { destruct (Z.lt_ge_cases (Zpos q) (2 ^ 53)) as [H|H];
          [rewrite (Hs H); lia|specialize (Hl H)].
        change (2 ^ 53) with 9007199254740992 in Hl. lia. }
      destruct neg.
      * exists 0%N. split; [lia|].
        unfold Number.max, Number.ltb. cbn [Number.isNegative].
        change (Z.of_N 0) with 0. rewrite Z.pow_0_r, !Z.mul_1_r.
        destruct (Z.ltb_spec (1 * 0) (-1 * Z.of_N m)); [lia|].
        destruct (Z.ltb_spec (-1 * Z.of_N m) (1 * 0)); [|lia].
        reflexivity.
      * unfold Number.max, Number.ltb. cbn [Number.isNegative].
        change (Z.of_N 0) with 0. rewrite Z.pow_0_r, !Z.mul_1_r.
        destruct (Z.ltb_spec (1 * 0) (1 * Z.of_N m)); [|lia].
        unfold Number.min, Number.ltb. cbn [Number.isNegative].
        change (Z.of_N 0) with 0. rewrite Z.pow_0_r, !Z.mul_1_r.
        change (Z.of_N 100) with 100.
        destruct (Z.ltb_spec (1 * 100) (1 * Z.of_N m)).
        -- exists 100%N. split; [lia|reflexivity].
        -- destruct (Z.ltb_spec (1 * Z.of_N m) (1 * 100)).
           ++ exists m. split; [lia|reflexivity].
           ++ exists m. split; [lia|reflexivity].
Qed.

(** ** The download *)

Section Download.
Context {P : Platform}.

(** X8: [downloadImage] after [fetch] has returned a response.  When the
    response is not ok it throws the failure with the status text and
    writes nothing; when the body cannot be read it throws the error of the
    read and writes nothing; otherwise it hands the bytes of the body to
    [fs.writeFileSync], once, for the output path, and ends as that call
    ends. *)
Lemma downloadImage_spec (url outputPath : string) (st : State)
    (response : Response) (w : World) :
  node_fetch url (world st) = (inr response, w) ->
  let r := downloadImage url outputPath st in
  let added := skipn (List.length (events st)) (events (snd r)) in
  match ok response, arrayBuffer response with
  | false, _ =>
      fst r
      = inl (mkError ("Failed to download image: " ++ statusText response))
      /\ added = [Fetch url]
  | true, inl error => fst r = inl error /\ added = [Fetch url]
  | true, inr buffer =>
      added = [Fetch url; WriteFile outputPath buffer]
      /\ fst r
         = match fs_writeFileSync outputPath buffer w with
           | inl error => inl error
           | inr _ => inr tt
           end
  end.
Proof.
  intros H r added. subst added r.
  unfold downloadImage, bind, emit, perform, throw, update, observe.
  cbn [world withEvent withWorld]. rewrite H. cbv beta iota.
  destruct (ok response); cbn [negb].
  - destruct (arrayBuffer response) as [error|buffer];
      cbn [fst snd world events withWorld withEvent].
    + rewrite skipn_app, skipn_all, Nat.sub_diag. split; reflexivity.
    + destruct (fs_writeFileSync outputPath buffer w);
        cbn [fst snd events withWorld withEvent];
        rewrite <- app_assoc, skipn_app, skipn_all, Nat.sub_diag;
        split; reflexivity.
  - cbn [fst snd world events withWorld withEvent].
    rewrite skipn_app, skipn_all, Nat.sub_diag. split; reflexivity.
Qed.

End Download.

(** ** Agreement with the primitive binary64 numbers *)

(** On these sizes the model computes the very double the kernel's
    primitive floats compute, ties and a division by zero included. *)
Example percent_as_primitive_floats :
  forallb
    (fun op =>
       Primitive.eqb
         (Number.mul
            (Number.div (Number.ofZ (fst op - snd op)) (Number.ofZ (fst op)))
            (Number.ofZ 100))
         (Primitive.toNumber (Primitive.percent (fst op) (snd op))))
    [(160, 73); (32, 1); (204800, 102400); (1000, 999); (3, 1); (7, 9);
     (123456789, 98765432); (1, 137438953471); (137438953471, 1);
     (0, 5); (0, 0); (5, 5)]
  = true.
Proof. vm_compute. reflexivity. Qed.

Example quotient_as_primitive_floats :
  forallb
    (fun b =>
       Primitive.eqb
         (Number.div (Number.ofZ b) (Number.ofZ 1024))
         (Primitive.toNumber
            (PrimFloat.div (Primitive.ofZ b) (Primitive.ofZ 1024))))
    [1024; 1536; 1048575; 5000000; 9007199254740991]
  = true.
Proof. vm_compute. reflexivity. Qed.

(** Sums and differences as the primitive floats compute them, beyond
    2^53 as well, where 2^53 + 1 is 2^53 again. *)
Example sums_as_primitive_floats :
  forallb
    (fun ab =>
       Primitive.eqb
         (Number.add (Number.ofZ (fst ab)) (Number.ofZ (snd ab)))
         (Primitive.toNumber
            (PrimFloat.add (Primitive.ofZ (fst ab)) (Primitive.ofZ (snd ab))))
       && Primitive.eqb
            (Number.sub (Number.ofZ (fst ab)) (Number.ofZ (snd ab)))
            (Primitive.toNumber
               (PrimFloat.sub (Primitive.ofZ (fst ab))
                  (Primitive.ofZ (snd ab)))))
    [(0, 0); (204800, 102400); (160, 73); (73, 160); (5, 5); (-5, 5);
     (9007199254740992, 1); (9007199254740992, 3); (9007199254740991, 2);
     (9007199254740993, 9007199254740992); (1152921504606846976, 129);
     (4611686018427387904, 4611686018427387904); (-9007199254740992, -1)]
  = true
  /\ Number.add (Number.ofZ (2 ^ 53)) (Number.ofZ 1) = Number.ofZ (2 ^ 53).
Proof. split; vm_compute; reflexivity. Qed.

(** * Further properties of the script *)

(** ** The input line *)

Lemma noSpace_app (a b : string) :
  noSpace (a ++ b) = noSpace a && noSpace b.
Proof.
  induction a as [|c a IH]; simpl; [reflexivity|].
  now rewrite IH, andb_assoc.
Qed.

Lemma noSpace_rev (s : string) : noSpace (JSString.rev s) = noSpace s.
Proof.
  induction s as [|c s IH]; simpl; [reflexivity|].
  rewrite noSpace_app, IH. simpl. rewrite andb_true_r. apply andb_comm.
Qed.

Lemma noSpace_trimStart (s : string) :
  noSpace s = true -> noSpace (JSString.trimStart s) = true.
Proof.
  induction s as [|c s IH]; simpl; intros H; [reflexivity|].
  destruct (JSString.isWhiteSpace c); [|exact H].
  apply andb_true_iff in H as [_ H]. now apply IH.
Qed.

Lemma noSpace_trim (s : string) :
  noSpace s = true -> noSpace (JSString.trim s) = true.
Proof.
  intros H. unfold JSString.trim, JSString.trimEnd.
  rewrite noSpace_rev. apply noSpace_trimStart. rewrite noSpace_rev.
  now apply noSpace_trimStart.
Qed.

Lemma noSpace_cleanPath (s : string) :
  noSpace s = true -> noSpace (cleanPath s) = true.
Proof.
  intros H. unfold cleanPath. apply noSpace_trim.
  set (s1 := match s with
             | String c s' => if JSString.isQuote c then s' else s
             | "" => ""
             end).
  assert (H1 : noSpace s1 = true).
  { unfold s1. destruct s as [|c s']; [reflexivity|].
    destruct (JSString.isQuote c); [|exact H].
    simpl in H. now apply andb_true_iff in H as [_ H]. }
  destruct (JSString.rev s1) as [|c r] eqn:E; [exact H1|].
  destruct (JSString.isQuote c); [|exact H1].
  rewrite noSpace_rev. rewrite <- noSpace_rev, E in H1. simpl in H1.
  now apply andb_true_iff in H1 as [_ H1].
Qed.

Lemma split_tokens (s : string) :
  Forall (fun tok => noSpace tok = true) (JSString.split " " s)
  /\ List.length (JSString.split " " s) = S (countSpaces s).
Proof.
  induction s as [|c s [IH1 IH2]]; simpl.
  - split; [repeat constructor|reflexivity].
  - destruct (Ascii.eqb c " ") eqn:Hc.
    + split; [constructor; [reflexivity|exact IH1]|simpl; now rewrite IH2].
    + destruct (split_cons " " s) as (tok & toks & E). rewrite E in *.
      inversion IH1 as [|? ? Ht Hts]; subst. split.
      * constructor; [simpl; now rewrite Hc, Ht|exact Hts].
      * exact IH2.
Qed.

(** X1: the input line is cut at every space before the quotes are taken
    off, so there is one input path more than there are spaces, never none,
    and no input path holds a space, quoted or not. *)
Theorem inputPaths_tokens (rawInputPaths : string) :
  let inputPaths := map cleanPath (JSString.split " " rawInputPaths) in
  inputPaths <> []
  /\ List.length inputPaths = S (countSpaces rawInputPaths)
  /\ Forall (fun inputPath => noSpace inputPath = true) inputPaths.
Proof.
  cbv zeta. destruct (split_tokens rawInputPaths) as [F L].
  split; [|split].
  - destruct (split_cons " " rawInputPaths) as (tok & toks & ->). discriminate.
  - now rewrite length_map.
  - apply Forall_map. revert F. apply Forall_impl. intros tok.
    apply noSpace_cleanPath.
Qed.

Example inputPaths_quoted_with_space :
  map cleanPath (JSString.split " " "'my pics/a.jpg' b.png")
  = ["my"; "pics/a.jpg"; "b.png"].
Proof. reflexivity. Qed.

(** X2: a path between two quote characters, alike or not, is cleaned to
    what is between them, white space taken off its two ends. *)
Theorem cleanPath_quoted (q1 q2 : ascii) (path : string) :
  JSString.isQuote q1 = true -> JSString.isQuote q2 = true ->
  cleanPath (String q1 (path ++ String q2 "")) = JSString.trim path.
Proof.
  intros H1 H2. unfold cleanPath. rewrite H1.
  rewrite rev_app. cbn [JSString.rev append]. rewrite H2.
  now rewrite rev_involutive.
Qed.

Lemma cleanPath_quoted_witness :
  (JSString.isQuote "'" = true /\ JSString.isQuote "'" = true)
  /\ cleanPath (String "'" (" /pics/a.jpg " ++ String "'" ""))
     = JSString.trim " /pics/a.jpg ".
Proof.
  split; [split; reflexivity|].
  exact (cleanPath_quoted "'" "'" " /pics/a.jpg " eq_refl eq_refl).
Defined.

(** ** The crop answer *)

(** X3: cropping is on for the answers y and Y and for no other answer,
    yes included. *)
Theorem shouldCrop_iff (cropResponse : string) :
  String.eqb (JSString.toLowerCase cropResponse) "y" = true
  <-> cropResponse = "y" \/ cropResponse = "Y".
Proof.
  destruct cropResponse as [|c [|d r]].
  - split; [discriminate|intros [H|H]; discriminate].
  - destruct c as [[] [] [] [] [] [] [] []]; vm_compute;
      (split; [intros H; try discriminate H; auto
              |intros [H|H]; try discriminate H; reflexivity]).
  - split.
    + intros H. apply String.eqb_eq in H. simpl in H. discriminate.
    + intros [H|H]; discriminate.
Qed.

Example shouldCrop_yes :
  String.eqb (JSString.toLowerCase "yes") "y" = false
  /\ String.eqb (JSString.toLowerCase " y") "y" = false.
Proof. split; reflexivity. Qed.

(** ** Sizes and percentages at the edges *)

(** X4: a negative byte count that a double holds exactly, which the
    total saved is when the files grew, is always written in bytes with
    its sign, whatever its size. *)
Theorem formatFileSize_negative (bytes : Z) :
  - MAX_SAFE_INTEGER <= bytes < 0 ->
  formatFileSize (Number.ofZ bytes)
  = "-" ++ Decimal.ofN (Z.abs_N bytes) ++ " B"
  /\ endsWith (formatFileSize (Number.ofZ bytes)) " KB" = false
  /\ endsWith (formatFileSize (Number.ofZ bytes)) " MB" = false.
Proof.
  intros H.
  assert (E : formatFileSize (Number.ofZ bytes)
              = "-" ++ Decimal.ofN (Z.abs_N bytes) ++ " B").
  { unfold formatFileSize.
    rewrite ltb_ofZ by (unfold MAX_SAFE_INTEGER in *; lia).
    destruct (Z.ltb_spec bytes 1024); [|lia].
    rewrite toString_ofZ by lia. unfold Decimal.ofZ.
    destruct (Z.ltb_spec bytes 0); [|lia].
    now rewrite append_assoc. }
  split; [exact E|]. rewrite E.
  change ("-" ++ Decimal.ofN (Z.abs_N bytes) ++ " B")
    with (("-" ++ Decimal.ofN (Z.abs_N bytes)) ++ " B") at 1 2.
  unfold endsWith. rewrite rev_app. split; reflexivity.
Qed.

Lemma formatFileSize_negative_witness :
  - MAX_SAFE_INTEGER <= -5000000 < 0
  /\ formatFileSize (Number.ofZ (-5000000)) = "-5000000 B".
Proof.
  assert (H : - MAX_SAFE_INTEGER <= -5000000 < 0)
    by (unfold MAX_SAFE_INTEGER; lia).
  split; [exact H|].
  exact (proj1 (formatFileSize_negative (-5000000) H)).
Defined.

(** X5: an original of zero bytes does not stop [processImage]: the
    division gives no number, and the savings read NaN when the output is
    empty too and -Infinity otherwise. *)
Theorem savingsOf_zero_original (p : Z) :
  0 <= p <= MAX_SAFE_INTEGER ->
  savingsOf 0 p = if p =? 0 then "NaN" else "-Infinity".
Proof.
  intros Hp. unfold savingsOf.
  rewrite sub_ofZ by (unfold MAX_SAFE_INTEGER in *; lia).
  destruct (Z.eqb_spec p 0) as [->|Hn]; [reflexivity|].
  rewrite (ofZ_exact (0 - p)) by lia.
  assert (N : (0 - p <? 0) = true) by (apply Z.ltb_lt; lia).
  rewrite N. change (Number.ofZ 0) with (Number.Finite false 0 0).
  unfold Number.div. cbn [N.eqb].
  assert (Z0 : (Z.abs_N (0 - p) =? 0)%N = false) by (apply N.eqb_neq; lia).
  rewrite Z0. reflexivity.
Qed.

Lemma savingsOf_zero_original_witness :
  0 <= 73 <= MAX_SAFE_INTEGER /\ savingsOf 0 73 = "-Infinity".
Proof.
  assert (H : 0 <= 73 <= MAX_SAFE_INTEGER) by (unfold MAX_SAFE_INTEGER; lia).
  split; [exact H|]. exact (savingsOf_zero_original 73 H).
Defined.

(** X6: when the file did not grow, the savings are between 0.00 and
    100.00, 0.00 for an output as large as the original and 100.00 for an
    empty output. *)
Theorem savingsOf_range (o p : Z) :
  0 < o < 2 ^ 37 -> 0 <= p <= o ->
  exists n,
    savingsOf o p = fixed2 n /\ 0 <= n <= 10000
    /\ (p = o -> n = 0) /\ (p = 0 -> n = 10000).
Proof.
  intros Ho Hp.
  destruct (savingsOf_nearest o p Ho ltac:(lia)) as (n & E & Hn).
  assert (S : (o <? p) = false) by (apply Z.ltb_ge; lia).
  rewrite S in E. exists n. split; [exact E|].
  rewrite Z.abs_eq in Hn by lia.
  pose proof (roundHalfUp_bounds (10000 * (o - p)) o ltac:(lia)) as R.
  set (h := roundHalfUp (10000 * (o - p)) o) in *.
  destruct Hn as [->|[-> T]]; repeat split; intros; subst; nia.
Qed.

Lemma savingsOf_range_witness :
  (0 < 204800 < 2 ^ 37 /\ 0 <= 102400 <= 204800)
  /\ exists n,
       savingsOf 204800 102400 = fixed2 n /\ 0 <= n <= 10000
       /\ (102400 = 204800 -> n = 0) /\ (102400 = 0 -> n = 10000).
Proof.
  assert (Ho : 0 < 204800 < 2 ^ 37) by lia.
  assert (Hp : 0 <= 102400 <= 204800) by lia.
  split; [split; [exact Ho|exact Hp]|].
  exact (savingsOf_range 204800 102400 Ho Hp).
Defined.

Lemma digits_head (fuel : nat) (n : N) (acc : string) :
  exists d rest, Decimal.digits fuel n acc = String (Decimal.digit d) rest.
Proof.
  revert n acc. induction fuel as [|fuel IH]; intros n acc; simpl.
  - eauto.
  - destruct (n <? 10)%N; [eauto|apply IH].
Qed.

Lemma digit_not_minus (d : N) : Ascii.eqb "-" (Decimal.digit d) = false.
Proof.
  unfold Decimal.digit.
  pose proof (N.mod_lt d 10 ltac:(lia)) as H.
  assert (C : exists k, (k < 10)%nat /\ (d mod 10)%N = N.of_nat k).
  { exists (N.to_nat (d mod 10)). split; [lia|now rewrite N2Nat.id]. }
  destruct C as (k & Hk & ->).
  do 10 (destruct k as [|k]; [reflexivity|]). lia.
Qed.

(** X7: the savings start with a minus sign exactly when the optimized
    file is larger than the original, also when they then round to zero. *)
Theorem savingsOf_sign (o p : Z) :
  0 < o < 2 ^ 37 -> 0 <= p < 2 ^ 37 ->
  startsWith (savingsOf o p) "-" = true <-> o < p.
Proof.
  intros Ho Hp.
  destruct (savingsOf_nearest o p Ho Hp) as (n & -> & _).
  destruct (Z.ltb_spec o p) as [H|H].
  - split; [intros _; exact H|reflexivity].
  - split; [|lia]. intros S. exfalso. revert S. unfold fixed2.
    change ("" ++ ?x) with x. unfold Decimal.ofN.
    destruct (digits_head (N.to_nat (N.log2 (Z.to_N (n / 100))))
                (Z.to_N (n / 100)) "") as (d & rest & ->).
    cbn [startsWith append]. rewrite digit_not_minus. discriminate.
Qed.

Lemma savingsOf_sign_witness :
  (0 < 1000000 < 2 ^ 37 /\ 0 <= 1000001 < 2 ^ 37)
  /\ savingsOf 1000000 1000001 = "-0.00"
  /\ (startsWith (savingsOf 1000000 1000001) "-" = true <-> 1000000 < 1000001).
Proof.
  assert (Ho : 0 < 1000000 < 2 ^ 37) by lia.
  assert (Hp : 0 <= 1000001 < 2 ^ 37) by lia.
  split; [split; [exact Ho|exact Hp]|].
  split; [vm_compute; reflexivity|].
  exact (savingsOf_sign 1000000 1000001 Ho Hp).
Defined.

(** ** One call of [processImage] *)

Ltac run_script :=
  repeat
    (cbn [fst snd world events asked processedStats totalSavedBytes
          totalOriginalBytes withEvent withWorld];
     cbv beta;
     match goal with
     | |- context [match ?x with _ => _ end] =>
         lazymatch x with
         | context [match _ with _ => _ end] => fail
         | _ => destruct x eqn:?
         end
     end).

Section OneImage.
Context {P : Platform}.
Variable fmt : Format.
Variable quality : Number.number.
Variable shouldCrop : bool.
Variable cropDimensions : option (list string).

(** X11: [processImage] ends in one of two ways.  When it throws, the last
    effect is the failure line on the spinner, with the base name of the
    input and the message of the error thrown on, and the codec was handed
    at most one file.  When it returns, the last effect is the success line, the
    codec wrote exactly one file, and that file is the output path of the
    record. *)
Theorem processImage_outcome (path : string) (st : State) :
  let r := processImage path fmt quality shouldCrop cropDimensions st in
  match fst r with
  | inl e =>
      exists evs,
        events (snd r)
        = (events st ++ evs
             ++ [SpinnerFail ("Error processing " ++ path_basename path ++ ": "
                                ++ message e)])%list
        /\ (List.length (encoded evs) <= 1)%nat
  | inr stats =>
      exists evs,
        events (snd r)
        = (events st ++ evs
             ++ [SpinnerSucceed
                   ("Processed: "
                      ++ path_basename_ext path (path_extname path)
                      ++ "." ++ formatName fmt)])%list
        /\ encoded evs = [outputPath stats]
  end.
Proof.
  unfold processImage, tryCatch, bind, emit, observe, update, perform, test,
    ret, throw.
  cbv zeta. run_script;
    cbn [fst snd events withEvent withWorld];
    eexists;
    (split;
     [rewrite (app_assoc (events st)); f_equal;
      repeat rewrite <- app_assoc; reflexivity|]);
    cbn [encoded app List.length outputPath]; first [reflexivity|lia].
Qed.

(** X12: the output directory is made only when it is absent, once, and
    the call never makes another directory. *)
Theorem processImage_mkdir (path : string) (st : State) :
  let outputDir := path_join (path_dirname path) "optimized" in
  let r := processImage path fmt quality shouldCrop cropDimensions st in
  exists evs,
    events (snd r) = (events st ++ evs)%list
    /\ mkdirs evs
       = if fs_existsSync outputDir (world st) then [] else [outputDir].
Proof.
  unfold processImage, tryCatch, bind, emit, observe, update, perform, test,
    ret, throw.
  cbv zeta. run_script;
    cbn [fst snd events withEvent withWorld];
    eexists;
    (split; [repeat rewrite <- app_assoc; reflexivity|]);
    reflexivity.
Qed.

(** C6: the test of the crop prompt lets the empty token through.
    [isNaN] converts the empty text to 0, so an answer made of a number
    and a space, or of a space alone, is accepted although it does not
    hold two numbers; [parseInt] reads no number from the empty token, and
    NaN is the height in every chain of calls handed to the codec, as in
    the run on the picture a.jpg with the answer 800 and a space.  A
    negative number passes as well.  The answers 800 600, abc 600 and 800
    are treated as the prompt says. *)
Theorem parseDimensions_empty_token (path : string) (st : State) :
  (forall w,
     noSpace w = true -> Global.isNaN w = false ->
     parseDimensions (w ++ " ") = inr [w; ""])
  /\ parseDimensions "800 " = inr ["800"; ""]
  /\ parseDimensions " " = inr [""; ""]
  /\ Global.parseInt "" = Number.NaN
  /\ (let r := processImage path fmt quality true (Some ["800"; ""]) st in
      exists evs,
        events (snd r) = (events st ++ evs)%list
        /\ Forall
             (fun p => resize p = Some (Number.Finite false 800 0, Number.NaN))
             (pipelines evs))
  /\ (let D := Demo.platform ["/pics/a.jpg"; "1"; "80"; "y"; "800 "] in
      map resize
        (pipelines (events (snd (@script D (@initialState D Demo.album)))))
      = [Some (Number.Finite false 800 0, Number.NaN)])
  /\ parseDimensions "-5 10" = inr ["-5"; "10"]
  /\ parseDimensions "800 600" = inr ["800"; "600"]
  /\ parseDimensions "abc 600" = inl invalidDimensions
  /\ parseDimensions "800" = inl invalidDimensions.
Proof.
  split.
  { intros w Hw Nw. unfold parseDimensions.
    rewrite (proj2 (split_two (w ++ " ") w "")).
    - cbn [List.length Nat.eqb negb nth orb]. rewrite Nw. reflexivity.
    - split; [reflexivity|split; [exact Hw|reflexivity]]. }
  split; [vm_compute; reflexivity|]. split; [vm_compute; reflexivity|].
  split; [vm_compute; reflexivity|].
  split; [|repeat split; vm_compute; reflexivity].
  assert (W : Global.parseInt "800" = Number.Finite false 800 0)
    by (vm_compute; reflexivity).
  assert (H : Global.parseInt "" = Number.NaN) by (vm_compute; reflexivity).
  unfold processImage, tryCatch, bind, emit, observe, update, perform, test,
    ret, throw.
  cbv zeta. cbn [nth]. rewrite W, H. run_script;
    cbn [fst snd events withEvent withWorld];
    eexists;
    (split; [repeat rewrite <- app_assoc; reflexivity|]);
    cbn [pipelines app];
    repeat (apply Forall_cons; [reflexivity|]); apply Forall_nil.
Qed.

End OneImage.

(** ** Input paths that cannot be resolved *)

Section Unresolved.
Context {P : Platform}.
Variable fmt : Format.
Variable quality : Number.number.
Variable shouldCrop : bool.
Variable cropDimensions : option (list string).

Lemma handleInputPath_missing (token : string) (st : State) :
  URL_pathname token = None ->
  fs_existsSync token (world st) = false ->
  handleInputPath fmt quality shouldCrop cropDimensions token st
  = (inr tt,
     withEvent
       (ConsoleError
          ("Error with path " ++ token ++ ": Path does not exist: " ++ token))
       st).
Proof.
  intros Hu He. unfold handleInputPath. rewrite Hu.
  unfold tryCatch, bind, test. rewrite He. reflexivity.
Qed.

(** X13: input paths that are neither URLs nor existing paths change
    nothing but the trace: each gets its line on [console.error], in the
    order of the input, and the loop goes on to the end. *)
Theorem processInputs_missing (inputPaths : list string) (st : State) :
  Forall
    (fun inputPath =>
       URL_pathname inputPath = None
       /\ fs_existsSync inputPath (world st) = false)
    inputPaths ->
  processInputs fmt quality shouldCrop cropDimensions inputPaths st
  = (inr tt,
     withEvents
       (map
          (fun inputPath =>
             ConsoleError
               ("Error with path " ++ inputPath ++ ": Path does not exist: "
                  ++ inputPath))
          inputPaths)
       st).
Proof.
  revert st. induction inputPaths as [|token rest IH]; intros st H.
  - reflexivity.
  - inversion H as [|? ? [Hu He] Hrest]; subst.
    cbn [processInputs]. unfold bind at 1.
    rewrite (handleInputPath_missing token st Hu He).
    rewrite IH by exact Hrest. reflexivity.
Qed.

(** The turn of the loop for an existing file. *)
Lemma handleInputPath_file_eq (token : string) (stats : Stats) (st : State) :
  URL_pathname token = None ->
  fs_existsSync token (world st) = true ->
  fs_statSync token (world st) = inr stats ->
  isDirectory stats = false ->
  handleInputPath fmt quality shouldCrop cropDimensions token st
  = match
      processImage token fmt quality shouldCrop cropDimensions
        (withEvent (SpinnerStart "Processing image...") st)
    with
    | (inl e, st2) =>
        (inr tt,
         withEvent
           (ConsoleError ("Error with path " ++ token ++ ": " ++ message e))
           st2)
    | (inr fileStats, st2) => record fileStats st2
    end.
Proof.
  intros Hu He Hs Hd. unfold handleInputPath. rewrite Hu.
  unfold tryCatch at 1. unfold bind at 1. unfold test at 1. rewrite He.
  unfold bind at 1. unfold ret at 1. unfold processPath.
  unfold bind at 1. unfold observe at 1. rewrite Hs, Hd.
  unfold bind at 1. unfold emit at 1. unfold bind at 1.
  destruct (processImage token fmt quality shouldCrop cropDimensions _)
    as [[e|fileStats] st2]; reflexivity.
Qed.

(** X14: the turn of an input path that is an existing file and not a
    URL goes by what its call of [processImage] gives, and the loop goes on
    in both cases.  When the call returns a record, the record is kept and
    its original size and the difference of its two sizes are added to the
    totals, by the addition and subtraction of JavaScript numbers, with
    nothing on [console.error]; when the call throws, the records and the
    totals stay as they are and one line on [console.error] names the
    input path and gives the message of the error. *)
Theorem handleInputPath_file (token : string) (stats : Stats) (st : State) :
  URL_pathname token = None ->
  fs_existsSync token (world st) = true ->
  fs_statSync token (world st) = inr stats ->
  isDirectory stats = false ->
  let call :=
    processImage token fmt quality shouldCrop cropDimensions
      (withEvent (SpinnerStart "Processing image...") st) in
  let r := handleInputPath fmt quality shouldCrop cropDimensions token st in
  fst r = inr tt
  /\ world (snd r) = world (snd call)
  /\ exists evs,
       events (snd r) = (events st ++ evs)%list
       /\ match fst call with
          | inr fileStats =>
              processedStats (snd r)
              = (processedStats st ++ [fileStats])%list
              /\ inputPath fileStats = token
              /\ totalOriginalBytes (snd r)
                 = Number.add (totalOriginalBytes st)
                     (Number.ofZ (originalSize fileStats))
              /\ totalSavedBytes (snd r)
                 = Number.add (totalSavedBytes st)
                     (Number.sub (Number.ofZ (originalSize fileStats))
                        (Number.ofZ (optimizedSize fileStats)))
              /\ consoleErrors evs = []
          | inl error =>
              accumulators (snd r) = accumulators st
              /\ consoleErrors evs
                 = ["Error with path " ++ token ++ ": " ++ message error]
          end.
Proof.
  intros Hu He Hs Hd call r. subst call r.
  rewrite (handleInputPath_file_eq token stats st Hu He Hs Hd).
  set (st1 := withEvent (SpinnerStart "Processing image...") st).
  pose proof (processImage_Inert fmt quality shouldCrop cropDimensions
                token st1) as HI.
  pose proof (processImage_inputPath fmt quality shouldCrop cropDimensions
                token st1) as HR.
  destruct (processImage_consoleErrors fmt quality shouldCrop cropDimensions
              token st1) as (evs & HE & HC).
  destruct (processImage token fmt quality shouldCrop cropDimensions st1)
    as [[e|fileStats] st2]; cbn [fst snd] in *.
  - split; [reflexivity|]. split; [reflexivity|].
    exists (SpinnerStart "Processing image..." :: evs
              ++ [ConsoleError ("Error with path " ++ token ++ ": "
                                  ++ message e)])%list.
    cbn [events withEvent].
    rewrite HE. unfold st1. cbn [events withEvent].
    rewrite <- !app_assoc. split; [reflexivity|]. split.
    + exact HI.
    + cbn [consoleErrors].
      now rewrite (proj2 consoleErrors_hom), HC.
  - split; [reflexivity|]. split; [reflexivity|].
    exists (SpinnerStart "Processing image..." :: evs).
    unfold record. cbn [fst snd events processedStats totalOriginalBytes
                          totalSavedBytes].
    rewrite HE. unfold st1. cbn [events withEvent].
    rewrite <- !app_assoc. split; [reflexivity|].
    unfold accumulators in HI. injection HI as -> -> ->.
    rewrite (HR fileStats eq_refl). cbn [consoleErrors].
    repeat split; try reflexivity. exact HC.
Qed.

End Unresolved.

(** ** A failure does not stop a loop *)

Section Isolation.
Context {P : Platform}.
Variable fmt : Format.
Variable quality : Number.number.
Variable shouldCrop : bool.
Variable cropDimensions : option (list string).

(** The loop over a directory goes on with the next picture from the
    state in which the turn of a picture ends. *)
Lemma processDirectory_cons (dir file : string) (rest : list string)
    (st : State) :
  processDirectory fmt quality shouldCrop cropDimensions dir (file :: rest) st
  = processDirectory fmt quality shouldCrop cropDimensions dir rest
      (snd (processDirectory fmt quality shouldCrop cropDimensions dir
              [file] st)).
Proof.
  cbn [processDirectory]. unfold bind at 1 3. unfold tryCatch, bind.
  destruct (processImage (path_join dir file) fmt quality shouldCrop
              cropDimensions st) as [[e|stats] st']; reflexivity.
Qed.

(** The turn of one picture in the loop over a directory, by what the call
    of [processImage] gives. *)
Lemma processDirectory_one (dir file : string) (st : State) :
  let call :=
    processImage (path_join dir file) fmt quality shouldCrop cropDimensions
      st in
  let st1 :=
    snd (processDirectory fmt quality shouldCrop cropDimensions dir [file]
           st) in
  exists evs,
    events st1 = (events st ++ evs)%list
    /\ processingOf evs = [processingText (path_join dir file)]
    /\ match fst call with
       | inr stats =>
           processedStats st1 = (processedStats st ++ [stats])%list
           /\ inputPath stats = path_join dir file
           /\ consoleErrors evs = []
       | inl error =>
           processedStats st1 = processedStats st
           /\ consoleErrors evs
              = ["Error processing " ++ file ++ ": " ++ message error]
       end.
Proof.
  cbv zeta. cbn [processDirectory]. unfold bind at 1. unfold tryCatch, bind.
  pose proof (processImage_Inert fmt quality shouldCrop cropDimensions
                (path_join dir file) st) as HI.
  pose proof (processImage_inputPath fmt quality shouldCrop cropDimensions
                (path_join dir file) st) as HR.
  destruct (processImage_trace fmt quality shouldCrop cropDimensions
              (path_join dir file) st) as (evs & HE & HP & HC).
  destruct (processImage (path_join dir file) fmt quality shouldCrop
              cropDimensions st) as [[e|stats] st'];
    cbn [fst snd] in *; unfold accumulators in HI; injection HI as H1 H2 H3.
  - exists (evs ++ [ConsoleError
                      ("Error processing " ++ file ++ ": " ++ message e)])%list.
    unfold console_error, emit, ret. cbn [fst snd events processedStats withEvent].
    rewrite HE, app_assoc, (proj2 processingOf_hom),
      (proj2 consoleErrors_hom), HP, HC.
    repeat split; try reflexivity. exact H1.
  - exists evs. unfold record, ret.
    cbn [fst snd events processedStats]. rewrite H1, (HR stats eq_refl).
    repeat split; assumption.
Qed.

(** The turn of one input path that is a file, by what the call of
    [processImage] gives. *)
Lemma handleInputPath_one (token : string) (stats : Stats) (st : State) :
  URL_pathname token = None ->
  fs_existsSync token (world st) = true ->
  fs_statSync token (world st) = inr stats ->
  isDirectory stats = false ->
  let call :=
    processImage token fmt quality shouldCrop cropDimensions
      (withEvent (SpinnerStart "Processing image...") st) in
  let r := handleInputPath fmt quality shouldCrop cropDimensions token st in
  fst r = inr tt
  /\ exists evs,
       events (snd r) = (events st ++ evs)%list
       /\ processingOf evs = [processingText token]
       /\ match fst call with
          | inr fileStats =>
              processedStats (snd r)
              = (processedStats st ++ [fileStats])%list
              /\ inputPath fileStats = token
              /\ consoleErrors evs = []
          | inl error =>
              processedStats (snd r) = processedStats st
              /\ consoleErrors evs
                 = ["Error with path " ++ token ++ ": " ++ message error]
          end.
Proof.
  intros Hu He Hs Hd call r. subst call r.
  rewrite (handleInputPath_file_eq fmt quality shouldCrop cropDimensions
             token stats st Hu He Hs Hd).
  set (st1 := withEvent (SpinnerStart "Processing image...") st).
  pose proof (processImage_Inert fmt quality shouldCrop cropDimensions
                token st1) as HI.
  pose proof (processImage_inputPath fmt quality shouldCrop cropDimensions
                token st1) as HR.
  destruct (processImage_trace fmt quality shouldCrop cropDimensions
              token st1) as (evs & HE & HP & HC).
  destruct (processImage token fmt quality shouldCrop cropDimensions st1)
    as [[e|fileStats] st2]; cbn [fst snd] in *.
  - split; [reflexivity|].
    exists (SpinnerStart "Processing image..." :: evs
              ++ [ConsoleError ("Error with path " ++ token ++ ": "
                                  ++ message e)])%list.
    cbn [events withEvent].
    rewrite HE. unfold st1. cbn [events withEvent].
    rewrite <- !app_assoc. split; [reflexivity|].
    cbn [processingOf consoleErrors].
    rewrite (proj2 processingOf_hom), (proj2 consoleErrors_hom), HP, HC.
    unfold accumulators, st1 in HI.
    cbn [processedStats withEvent] in HI. injection HI as H1 _ _.
    cbn [processedStats withEvent]. rewrite H1.
    repeat split; reflexivity.
  - split; [reflexivity|].
    exists (SpinnerStart "Processing image..." :: evs).
    unfold record. cbn [fst snd events processedStats totalOriginalBytes
                          totalSavedBytes].
    rewrite HE. unfold st1. cbn [events withEvent].
    rewrite <- !app_assoc. split; [reflexivity|].
    cbn [processingOf consoleErrors].
    unfold accumulators in HI. injection HI as H1 _ _. rewrite H1.
    rewrite (HR fileStats eq_refl).
    repeat split; try reflexivity; assumption.
Qed.

(** C2: a picture that fails does not stop a loop, neither the loop over
    the pictures of a directory nor the loop over input paths that are
    files.  Both loops return; every picture gets its call of
    [processImage], in the order of the input; the records kept are those
    that the calls returned, in that order, one for each picture whose
    call returned and none for the others; and each picture whose call
    threw, and no other, gets a line on [console.error] that names it and
    gives the message of the error thrown. *)
Theorem batch_isolates_failures (dir : string) (files inputPaths : list string)
    (st : State) :
  (let r :=
     processDirectory fmt quality shouldCrop cropDimensions dir files st in
   let outcomes :=
     directoryOutcomes fmt quality shouldCrop cropDimensions dir files st in
   fst r = inr tt
   /\ List.length outcomes = List.length files
   /\ exists evs,
        events (snd r) = (events st ++ evs)%list
        /\ processingOf evs
           = map (fun file => processingText (path_join dir file)) files
        /\ processedStats (snd r)
           = (processedStats st ++ returned outcomes)%list
        /\ map inputPath (returned outcomes)
           = map (path_join dir) (namesReturned files outcomes)
        /\ consoleErrors evs
           = map (fun failure =>
                    "Error processing " ++ fst failure ++ ": "
                      ++ message (snd failure))
               (namesThrown files outcomes))
  /\ (plainFiles fmt quality shouldCrop cropDimensions inputPaths st ->
      let r :=
        processInputs fmt quality shouldCrop cropDimensions inputPaths st in
      let outcomes :=
        inputOutcomes fmt quality shouldCrop cropDimensions inputPaths st in
      fst r = inr tt
      /\ List.length outcomes = List.length inputPaths
      /\ exists evs,
           events (snd r) = (events st ++ evs)%list
           /\ processingOf evs = map processingText inputPaths
           /\ processedStats (snd r)
              = (processedStats st ++ returned outcomes)%list
           /\ map inputPath (returned outcomes)
              = namesReturned inputPaths outcomes
           /\ consoleErrors evs
              = map (fun failure =>
                       "Error with path " ++ fst failure ++ ": "
                         ++ message (snd failure))
                  (namesThrown inputPaths outcomes)).
Proof.
  split.
  - cbv zeta. revert st. induction files as [|file rest IH]; intros st.
    + split; [reflexivity|]. split; [reflexivity|].
      exists []. cbn. rewrite !app_nil_r. repeat split.
    + rewrite processDirectory_cons. cbn [directoryOutcomes].
      destruct (processDirectory_one dir file st) as (evs1 & E1 & P1 & O1).
      set (st1 := snd (processDirectory fmt quality shouldCrop cropDimensions
                         dir [file] st)) in *.
      destruct (IH st1) as (R & L & evs2 & E2 & P2 & S2 & M2 & C2).
      split; [exact R|]. split; [cbn [List.length]; now rewrite L|].
      exists (evs1 ++ evs2)%list.
      rewrite E2, E1, <- app_assoc, (proj2 processingOf_hom),
        (proj2 consoleErrors_hom), P1, P2, S2, C2.
      split; [reflexivity|]. split; [reflexivity|].
      destruct (fst (processImage (path_join dir file) fmt quality shouldCrop
                       cropDimensions st)) as [e|stats].
      * destruct O1 as (S1 & C1). rewrite S1, C1.
        cbn [returned namesReturned namesThrown map fst snd app].
        repeat split; try reflexivity. exact M2.
      * destruct O1 as (S1 & I1 & C1). rewrite S1, C1, <- app_assoc.
        cbn [returned namesReturned namesThrown map app].
        rewrite I1, M2. repeat split.
  - cbv zeta. revert st.
    induction inputPaths as [|token rest IH]; intros st Hp.
    + split; [reflexivity|]. split; [reflexivity|].
      exists []. cbn. rewrite !app_nil_r. repeat split.
    + destruct Hp as (Hu & He & (stats & Hs & Hd) & Hrest).
      destruct (handleInputPath_one token stats st Hu He Hs Hd)
        as (R1 & evs1 & E1 & P1 & O1).
      cbn [inputOutcomes].
      set (call := processImage token fmt quality shouldCrop cropDimensions
                     (withEvent (SpinnerStart "Processing image...") st)) in *.
      set (st1 := snd (handleInputPath fmt quality shouldCrop cropDimensions
                         token st)) in *.
      assert (Eq : processInputs fmt quality shouldCrop cropDimensions
                     (token :: rest) st
                   = processInputs fmt quality shouldCrop cropDimensions
                       rest st1).
      { cbn [processInputs]. unfold bind. subst st1.
        destruct (handleInputPath fmt quality shouldCrop cropDimensions
                    token st) as [[e|[]] s1]; cbn [fst snd] in *;
          [discriminate R1|reflexivity]. }
      rewrite Eq.
      destruct (IH st1 Hrest) as (R & L & evs2 & E2 & P2 & S2 & M2 & C2).
      split; [exact R|]. split; [cbn [List.length]; now rewrite L|].
      exists (evs1 ++ evs2)%list.
      rewrite E2, E1, <- app_assoc, (proj2 processingOf_hom),
        (proj2 consoleErrors_hom), P1, P2, S2, C2.
      split; [reflexivity|]. split; [reflexivity|].
      destruct (fst call) as [e|fileStats].
      * destruct O1 as (S1 & C1). rewrite S1, C1.
        cbn [returned namesReturned namesThrown map fst snd app].
        repeat split; try reflexivity. exact M2.
      * destruct O1 as (S1 & I1 & C1). rewrite S1, C1, <- app_assoc.
        cbn [returned namesReturned namesThrown map app].
        rewrite I1, M2. repeat split.
Qed.

End Isolation.

(** ** An input path that is a directory *)

Section Directory.
Context {P : Platform}.
Variable fmt : Format.
Variable quality : Number.number.
Variable shouldCrop : bool.
Variable cropDimensions : option (list string).




End Directory.

(** ** The whole run *)

Lemma closes_hom {P : Platform} : Hom closes.
Proof.
  split; [reflexivity|]. intros a b.
  induction a as [|e a IH]; [reflexivity|].
  destruct e; simpl; rewrite IH; reflexivity.
Qed.

Lemma Preserves_tryFinally {P : Platform} {A} (I : State -> Prop)
    (m : M A) (c : M unit) :
  Preserves I m -> Preserves I c -> Preserves I (tryFinally m c).
Proof.
  intros Hm Hc st HI. unfold tryFinally. specialize (Hm st HI).
  destruct (m st) as [r st']; simpl in *. now apply Hc.
Qed.

Section WholeRun.
Context {P : Platform}.

Lemma reportFiles_Inert (stats : list FileStats) (index : nat) :
  Inert (reportFiles index stats).
Proof.
  revert index. induction stats as [|stat rest IH]; intros index; simpl.
  - apply Inert_ret.
  - apply Inert_bind; [unfold reportFile, console_log; inert|].
    intros _. apply IH.
Qed.

Lemma report_Inert (inputPaths : list string) : Inert (report inputPaths).
Proof.
  unfold report, reportTotals, console_log.
  apply Inert_bind; [apply Inert_emit|]. intros _.
  apply Inert_bind; [apply Inert_get|]. intros stats.
  apply Inert_bind; [apply reportFiles_Inert|]. intros _.
  inert.
Qed.

Lemma reportFiles_closes (stats : list FileStats) (index : nat) :
  Emits closes (reportFiles index stats) [].
Proof.
  revert index. induction stats as [|stat rest IH]; intros index; simpl.
  - apply (Emits_ret _ closes_hom).
  - apply (Emits_bind_l _ closes_hom);
      [unfold reportFile, console_log; silent closes_hom|].
    intros _. apply IH.
Qed.

Lemma report_closes (inputPaths : list string) :
  Emits closes (report inputPaths) [].
Proof.
  unfold report, reportTotals, console_log.
  apply (Emits_bind_l _ closes_hom); [exact (Emits_emit _ _)|]. intros _.
  apply (Emits_bind_l _ closes_hom); [apply (Emits_get _ closes_hom)|].
  intros stats.
  apply (Emits_bind_l _ closes_hom); [apply reportFiles_closes|]. intros _.
  silent closes_hom.
Qed.

Section Options.
Variable fmt : Format.
Variable quality : Number.number.
Variable shouldCrop : bool.
Variable cropDimensions : option (list string).

Lemma processDirectory_closes (dir : string) (files : list string) :
  Emits closes (processDirectory fmt quality shouldCrop cropDimensions dir files) [].
Proof.
  induction files as [|file rest IH]; simpl.
  - apply (Emits_ret _ closes_hom).
  - apply (Emits_bind_l _ closes_hom); [|intros _; exact IH].
    unfold processImage, console_error. silent closes_hom.
Qed.

Lemma processPath_closes (path : string) :
  Emits closes (processPath fmt quality shouldCrop cropDimensions path) [].
Proof.
  unfold processPath. cbv zeta.
  apply (Emits_bind_l _ closes_hom); [apply (Emits_observe _ closes_hom)|].
  intros stats. destruct (isDirectory stats).
  - apply (Emits_bind_l _ closes_hom); [apply (Emits_observe _ closes_hom)|].
    intros files. destruct (Nat.eqb _ 0); [apply (Emits_throw _ closes_hom)|].
    apply (Emits_bind_l _ closes_hom); [exact (Emits_emit _ _)|]. intros _.
    apply (Emits_bind_l _ closes_hom); [exact (Emits_emit _ _)|]. intros _.
    apply (Emits_bind_l _ closes_hom); [apply processDirectory_closes|].
    intros _. exact (Emits_emit _ _).
  - unfold processImage. silent closes_hom.
Qed.

Lemma processInputs_closes (inputPaths : list string) :
  Emits closes
    (processInputs fmt quality shouldCrop cropDimensions inputPaths) [].
Proof.
  induction inputPaths as [|token rest IH]; simpl.
  - apply (Emits_ret _ closes_hom).
  - apply (Emits_bind_l _ closes_hom); [|intros _; exact IH].
    unfold handleInputPath, pathError, console_error, console_log.
    destruct (URL_pathname token) as [pathname|].
    + apply (Emits_bind_l _ closes_hom); [exact (Emits_question _ _)|].
      intros answer. cbv zeta.
      apply (Emits_tryCatch _ closes_hom); [|silent closes_hom].
      apply (Emits_bind_l _ closes_hom); [exact (Emits_emit _ _)|]. intros _.
      apply (Emits_bind_l _ closes_hom);
        [unfold downloadImage; silent closes_hom|]. intros _.
      apply (Emits_bind_l _ closes_hom); [exact (Emits_emit _ _)|]. intros _.
      apply processPath_closes.
    + apply (Emits_tryCatch _ closes_hom); [|silent closes_hom].
      apply (Emits_bind_l _ closes_hom); [apply (Emits_test _ closes_hom)|].
      intros present.
      apply (Emits_bind_l _ closes_hom); [silent closes_hom|]. intros _.
      apply processPath_closes.
Qed.

End Options.

(** X15: [main] hands no error on, whatever is thrown under it, and closes
    the readline interface once, as its last effect. *)
Theorem main_closes (st : State) :
  fst (main st) = inr tt
  /\ exists evs,
       events (snd (main st)) = (events st ++ evs ++ [RlClose])%list
       /\ closes evs = [].
Proof.
  unfold main.
  match goal with
  | |- context [tryFinally ?m _] =>
      assert (E : Emits closes m []); [|set (body := m) in *]
  end.
  { apply (Emits_tryCatch _ closes_hom); [|silent closes_hom].
    unfold console_log, askCrop.
    apply (Emits_bind_l _ closes_hom); [exact (Emits_question _ _)|].
    intros rawInputPaths. cbv zeta.
    do 3 (apply (Emits_bind_l _ closes_hom); [exact (Emits_emit _ _)|];
          intros _).
    apply (Emits_bind_l _ closes_hom); [exact (Emits_question _ _)|].
    intros formatChoice.
    apply (Emits_bind_l _ closes_hom); [exact (Emits_question _ _)|].
    intros qualityInput.
    apply (Emits_bind_l _ closes_hom); [exact (Emits_question _ _)|].
    intros cropResponse.
    apply (Emits_bind_l _ closes_hom); [silent closes_hom|].
    intros cropDimensions.
    apply (Emits_bind_l _ closes_hom); [apply processInputs_closes|].
    intros _. apply report_closes. }
  assert (R : forall s, fst (body s) = inr tt).
  { intros s. unfold body, tryCatch.
    match goal with
    | |- context [bind ?m ?f s] => destruct (bind m f s) as [[e|[]] s']
    end; reflexivity. }
  unfold tryFinally. destruct (E st) as (evs & Ev & Cl).
  specialize (R st). destruct (body st) as [r st']. cbn [fst snd] in *.
  split; [exact R|]. exists evs. unfold emit. cbn [snd events withEvent].
  rewrite Ev, <- app_assoc. split; [reflexivity|exact Cl].
Qed.

(** X17: at the end of every run of the script in which the sizes of the
    records kept are not negative and add up to totals that doubles hold
    exactly (at most 2^53 - 1 bytes of originals and of optimized files),
    the two totals are the sums over the records: the total of the original
    sizes, and the total of the differences between original and optimized
    size; their difference is the total of the optimized sizes. *)
Theorem script_totals (w : World) :
  let st := snd (script (initialState w)) in
  safeSizes (processedStats st) ->
  totalOriginalBytes st = Number.ofZ (sumOriginal (processedStats st))
  /\ totalSavedBytes st = Number.ofZ (sumSaved (processedStats st))
  /\ Number.sub (totalOriginalBytes st) (totalSavedBytes st)
     = Number.ofZ (sumOptimized (processedStats st)).
Proof.
  cbv zeta. intros Hs.
  assert (T : Preserves totalsMatch script).
  { unfold script. apply Preserves_bind.
    - apply Preserves_Inert. unfold ensureDownloadDir. inert.
    - intros _. unfold main. apply Preserves_tryFinally;
        [|apply Preserves_Inert, Inert_emit].
      apply Preserves_tryCatch; [|intros e; apply Preserves_Inert, Inert_emit].
      unfold console_log, askCrop.
      apply Preserves_bind; [apply Preserves_Inert, Inert_question|].
      intros rawInputPaths. cbv zeta.
      do 3 (apply Preserves_bind; [apply Preserves_Inert, Inert_emit|];
            intros _).
      do 3 (apply Preserves_bind; [apply Preserves_Inert, Inert_question|];
            intro).
      apply Preserves_bind; [apply Preserves_Inert; inert|].
      intros cropDimensions.
      apply Preserves_bind; [apply processInputs_totals|]. intros _.
      apply Preserves_Inert, report_Inert. }
  destruct (T (initialState w)) as [T1 T2];
    [intros _; split; reflexivity|exact Hs|].
  split; [exact T1|]. split; [exact T2|].
  destruct Hs as (F & Ho & Hp).
  destruct (sums_bounds _ F) as (B1 & B2 & B3).
  rewrite T1, T2, sub_ofZ by lia. f_equal. lia.
Qed.

End WholeRun.

(** ** A crop answer that does not parse *)

Section InvalidCrop.
Context {P : Platform}.

(** X16: when the crop question is answered with yes and the dimensions
    do not pass the test, the run stops there: nothing but prompts and
    lines on [console.log] came before, the spinner fails with the message
    of the test, the interface is closed, and neither the world nor the
    accumulators have changed; no input path was looked at. *)
Theorem main_invalid_dimensions (st : State) :
  String.eqb (JSString.toLowerCase (keyboard (3 + asked st))) "y" = true ->
  parseDimensions (keyboard (4 + asked st)) = inl invalidDimensions ->
  fst (main st) = inr tt
  /\ world (snd (main st)) = world st
  /\ accumulators (snd (main st)) = accumulators st
  /\ asked (snd (main st)) = (5 + asked st)%nat
  /\ exists evs,
       events (snd (main st))
       = (events st ++ evs
            ++ [SpinnerFail
                  "Error: Invalid dimensions! Please provide valid numbers.";
                RlClose])%list
       /\ Forall isPromptOrLog evs.
Proof.
  intros Hy Hd.
  change (3 + asked st)%nat with (S (S (S (asked st)))) in Hy.
  change (4 + asked st)%nat with (S (S (S (S (asked st))))) in Hd.
  unfold main, tryFinally, tryCatch, bind, question, console_log, emit, askCrop.
  cbn [fst snd world events asked processedStats totalSavedBytes
       totalOriginalBytes withEvent].
  cbv zeta. rewrite Hy.
  cbn [fst snd world events asked processedStats totalSavedBytes
       totalOriginalBytes withEvent].
  unfold bind, question.
  cbn [fst snd world events asked processedStats totalSavedBytes
       totalOriginalBytes withEvent].
  rewrite Hd. unfold throw.
  cbn [fst snd world events asked processedStats totalSavedBytes
       totalOriginalBytes withEvent accumulators message invalidDimensions].
  repeat (split; [reflexivity|]).
  exists [Question
            "1. Enter paths to images/image folders (or URLs) separated by space: ";
          ConsoleLog (nl ++ "2. Choose Image Format:");
          ConsoleLog "1. webp";
          ConsoleLog "2. png";
          Question "Enter your choice (1 or 2): (Default Webp)";
          Question (nl ++ "3. Enter quality (0-100, default is 80): ");
          Question (nl ++ "4. Do you want to crop the images? (y/n): ");
          Question ("Enter width and height separated by space (e.g., "
                      ++ dq ++ "800 600" ++ dq ++ "): ")].
  split.
  - repeat rewrite <- app_assoc. reflexivity.
  - repeat (apply Forall_cons; [exact I|]). apply Forall_nil.
Qed.

End InvalidCrop.

(** ** A directory with pictures *)

Section BatchCount.
Context {P : Platform}.
Variable fmt : Format.
Variable quality : Number.number.
Variable shouldCrop : bool.
Variable cropDimensions : option (list string).

Lemma processDirectory_records (dir : string) (files : list string)
    (st : State) :
  exists added,
    processedStats
      (snd (processDirectory fmt quality shouldCrop cropDimensions dir files st))
    = (processedStats st ++ added)%list
    /\ (List.length added <= List.length files)%nat.
Proof.
  revert st. induction files as [|file rest IH]; intros st.
  - exists []. simpl. rewrite app_nil_r. split; [reflexivity|lia].
  - destruct (processDirectory_turn fmt quality shouldCrop cropDimensions
                dir file rest st)
      as (ok & added1 & evs1 & st1 & E & _ & _ & S1 & M1 & _).
    rewrite E. destruct (IH st1) as (added2 & S2 & L2).
    exists (added1 ++ added2)%list. rewrite S2, S1, <- app_assoc.
    split; [reflexivity|].
    apply (f_equal (@List.length _)) in M1. rewrite !length_map in M1.
    rewrite length_app, M1. destruct ok; simpl; lia.
Qed.

(** X18: for a directory with at least one picture, the step returns
    whether the pictures could be processed or not.  Its trace starts with
    the number of pictures found and ends with the line of success, which
    counts the pictures found and not those processed; at most that many
    records are added. *)
Theorem processPath_batch (dir : string) (files : list string)
    (stats : Stats) (st : State) :
  fs_statSync dir (world st) = inr stats ->
  isDirectory stats = true ->
  fs_readdirSync dir (world st) = inr files ->
  imageFilesOf files <> [] ->
  let r := processPath fmt quality shouldCrop cropDimensions dir st in
  let count := Decimal.ofN (N.of_nat (List.length (imageFilesOf files))) in
  fst r = inr tt
  /\ exists evs added,
       events (snd r)
       = (events st
            ++ [SpinnerInfo ("Found " ++ count ++ " image(s) to process");
                SpinnerStart "Starting batch processing..."]
            ++ evs
            ++ [SpinnerSucceed
                  ("Batch processing complete! Processed " ++ count
                     ++ " files")])%list
       /\ processedStats (snd r) = (processedStats st ++ added)%list
       /\ (List.length added <= List.length (imageFilesOf files))%nat.
Proof.
  intros Hs Hd Hf Hne r count. subst r.
  rewrite (processPath_directory_eq fmt quality shouldCrop cropDimensions
             dir files stats st Hs Hd Hf).
  destruct (imageFilesOf files) as [|file0 rest] eqn:E; [contradiction|].
  cbv zeta. fold count.
  set (st1 := withEvent (SpinnerStart "Starting batch processing...")
                (withEvent
                   (SpinnerInfo ("Found " ++ count ++ " image(s) to process"))
                   st)).
  destruct (processDirectory_announces fmt quality shouldCrop cropDimensions
              dir (file0 :: rest) st1) as (R & evs & Ev & _).
  destruct (processDirectory_records dir (file0 :: rest) st1)
    as (added & Sa & La).
  rewrite R. split; [reflexivity|]. exists evs, added.
  cbn [snd events processedStats withEvent]. rewrite Ev, Sa.
  unfold st1. cbn [events processedStats withEvent].
  rewrite <- !app_assoc. split; [reflexivity|].
  split; [reflexivity|exact La].
Qed.

(** X19: when the download of a URL input fails, because [fetch] throws
    or because the response is not ok, the turn ends with one line on
    [console.error] that names the destination path and the failure;
    nothing is written, no picture is processed, and the loop goes on. *)
Theorem handleInputPath_download_fails (token pathname : string)
    (st : State) (r : Error + Response) (w : World) :
  URL_pathname token = Some pathname ->
  let destination := downloadPath pathname (keyboard (asked st)) in
  node_fetch destination (world st) = (r, w) ->
  (forall response, r = inr response -> ok response = false) ->
  let failure :=
    match r with
    | inl error => message error
    | inr response => "Failed to download image: " ++ statusText response
    end in
  let r' := handleInputPath fmt quality shouldCrop cropDimensions token st in
  fst r' = inr tt
  /\ world (snd r') = w
  /\ accumulators (snd r') = accumulators st
  /\ events (snd r')
     = (events st
          ++ [Question ("Enter output file name for " ++ path_basename pathname
                          ++ " (leave blank to use URL file name): ");
              ConsoleLog ("Downloading image from URL: " ++ destination
                            ++ "...");
              Fetch destination;
              ConsoleError ("Error with path " ++ destination ++ ": "
                              ++ failure)])%list.
Proof.
  intros Hu destination Hf Hok failure r'. subst r' failure destination.
  set (destination := downloadPath pathname (keyboard (asked st))) in *.
  set (failure :=
         match r with
         | inl error => message error
         | inr response => "Failed to download image: " ++ statusText response
         end).
  assert (E : handleInputPath fmt quality shouldCrop cropDimensions token st
              = (inr tt,
                 {| world := w;
                    events :=
                      (events st
                         ++ [Question
                               ("Enter output file name for "
                                  ++ path_basename pathname
                                  ++ " (leave blank to use URL file name): ");
                             ConsoleLog ("Downloading image from URL: "
                                           ++ destination ++ "...");
                             Fetch destination;
                             ConsoleError ("Error with path " ++ destination
                                             ++ ": " ++ failure)])%list;
                    asked := S (asked st);
                    processedStats := processedStats st;
                    totalSavedBytes := totalSavedBytes st;
                    totalOriginalBytes := totalOriginalBytes st |})).
  { unfold handleInputPath. rewrite Hu.
    unfold downloadImage, pathError, console_error, console_log.
    unfold tryCatch, bind, question, emit, perform, throw. cbv zeta.
    fold destination.
    cbn [fst snd world events withEvent withWorld]. rewrite Hf.
    subst failure. destruct r as [error|response].
    - cbn [fst snd world events asked processedStats totalSavedBytes
           totalOriginalBytes withEvent withWorld].
      unfold withEvent, withWorld.
      cbn [world events asked processedStats totalSavedBytes
           totalOriginalBytes].
      rewrite <- !app_assoc. reflexivity.
    - rewrite (Hok response eq_refl).
      cbn [negb fst snd world events asked processedStats totalSavedBytes
           totalOriginalBytes withEvent withWorld].
      unfold withEvent, withWorld.
      cbn [world events asked processedStats totalSavedBytes
           totalOriginalBytes].
      rewrite <- !app_assoc. reflexivity. }
  rewrite E. repeat split.
Qed.

End BatchCount.

(** ** The prompts of the loop *)

Section Prompts.
Context {P : Platform}.

Lemma Quiet_ret {A} (a : A) : Quiet (ret a).
Proof. intros st. reflexivity. Qed.

Lemma Quiet_throw {A} (e : Error) : Quiet (@throw P A e).
Proof. intros st. reflexivity. Qed.

Lemma Quiet_emit (e : Event) : Quiet (emit e).
Proof. intros st. reflexivity. Qed.

Lemma Quiet_get {A} (f : State -> A) : Quiet (get f).
Proof. intros st. reflexivity. Qed.

Lemma Quiet_test {A} (f : World -> A) : Quiet (test f).
Proof. intros st. reflexivity. Qed.

Lemma Quiet_observe {A} (f : World -> Error + A) : Quiet (observe f).
Proof. intros st. reflexivity. Qed.

Lemma Quiet_update (f : World -> Error + World) : Quiet (update f).
Proof. intros st. unfold update. destruct (f (world st)); reflexivity. Qed.

Lemma Quiet_perform {A} (f : World -> (Error + A) * World) :
  Quiet (perform f).
Proof. intros st. unfold perform. destruct (f (world st)); reflexivity. Qed.

Lemma Quiet_record (fileStats : FileStats) : Quiet (record fileStats).
Proof. intros st. reflexivity. Qed.

Lemma Quiet_bind {A B} (m : M A) (f : A -> M B) :
  Quiet m -> (forall a, Quiet (f a)) -> Quiet (bind m f).
Proof.
  intros Hm Hf st. unfold bind. specialize (Hm st).
  destruct (m st) as [[e|a] st']; simpl in *; [exact Hm|].
  now rewrite Hf.
Qed.

Lemma Quiet_tryCatch {A} (m : M A) (h : Error -> M A) :
  Quiet m -> (forall e, Quiet (h e)) -> Quiet (tryCatch m h).
Proof.
  intros Hm Hh st. unfold tryCatch. specialize (Hm st).
  destruct (m st) as [[e|a] st']; simpl in *; [|exact Hm].
  now rewrite Hh.
Qed.

End Prompts.

Ltac quiet_step :=
  first
    [ apply Quiet_bind | apply Quiet_tryCatch
    | apply Quiet_ret | apply Quiet_throw | apply Quiet_emit | apply Quiet_get
    | apply Quiet_test | apply Quiet_observe | apply Quiet_update
    | apply Quiet_perform | apply Quiet_record
    | match goal with
      | |- Quiet (if ?b then _ else _) => destruct b
      | |- Quiet (match ?x with _ => _ end) => destruct x
      | |- forall _, _ => intro
      end ].

Ltac quiet := cbv zeta; repeat quiet_step.

Section PromptsOfTheLoop.
Context {P : Platform}.
Variable fmt : Format.
Variable quality : Number.number.
Variable shouldCrop : bool.
Variable cropDimensions : option (list string).

Lemma processDirectory_Quiet (dir : string) (files : list string) :
  Quiet (processDirectory fmt quality shouldCrop cropDimensions dir files).
Proof.
  induction files as [|file rest IH]; simpl.
  - apply Quiet_ret.
  - apply Quiet_bind; [|intros _; exact IH].
    unfold processImage, console_error. quiet.
Qed.

Lemma processPath_Quiet (path : string) :
  Quiet (processPath fmt quality shouldCrop cropDimensions path).
Proof.
  unfold processPath. cbv zeta.
  apply Quiet_bind; [apply Quiet_observe|]. intros stats.
  destruct (isDirectory stats).
  - apply Quiet_bind; [apply Quiet_observe|]. intros files.
    destruct (Nat.eqb _ 0); [apply Quiet_throw|].
    do 2 (apply Quiet_bind; [apply Quiet_emit|]; intros _).
    apply Quiet_bind; [apply processDirectory_Quiet|]. intros _.
    apply Quiet_emit.
  - unfold processImage. quiet.
Qed.

Lemma handleInputPath_asked (token : string) (st : State) :
  asked (snd (handleInputPath fmt quality shouldCrop cropDimensions token st))
  = (asked st + if isURL token then 1 else 0)%nat.
Proof.
  unfold handleInputPath, isURL.
  destruct (URL_pathname token) as [pathname|].
  - unfold bind at 1. unfold question at 1. cbv zeta.
    match goal with
    | |- asked (snd (tryCatch ?m ?h ?s)) = _ =>
        assert (Q : Quiet (tryCatch m h))
    end.
    { unfold downloadImage, pathError, console_error, console_log.
      apply Quiet_tryCatch; [|intros e; apply Quiet_emit].
      apply Quiet_bind; [apply Quiet_emit|]. intros _.
      apply Quiet_bind; [quiet|]. intros _.
      apply Quiet_bind; [apply Quiet_emit|]. intros _.
      apply processPath_Quiet. }
    rewrite Q. cbn [asked]. lia.
  - match goal with
    | |- asked (snd (tryCatch ?m ?h ?s)) = _ =>
        assert (Q : Quiet (tryCatch m h))
    end.
    { unfold pathError, console_error.
      apply Quiet_tryCatch; [|intros e; apply Quiet_emit].
      apply Quiet_bind; [apply Quiet_test|]. intros present.
      apply Quiet_bind; [quiet|]. intros _.
      apply processPath_Quiet. }
    rewrite Q. lia.
Qed.

(** X20: the loop over the input paths asks the operator one question
    for every input that is a URL, and none for the others, whatever
    happens to the downloads and the pictures. *)
Theorem processInputs_prompts (inputPaths : list string) (st : State) :
  asked
    (snd (processInputs fmt quality shouldCrop cropDimensions inputPaths st))
  = (asked st + List.length (filter isURL inputPaths))%nat.
Proof.
  revert st. induction inputPaths as [|token rest IH]; intros st.
  - simpl. lia.
  - simpl processInputs. unfold bind.
    pose proof (handleInputPath_asked token st) as H1.
    destruct (handleInputPath_NoThrow fmt quality shouldCrop cropDimensions
                token st) as (a & Ha).
    destruct (handleInputPath fmt quality shouldCrop cropDimensions token st)
      as [[e|[]] st1]; cbn [fst snd] in *; [discriminate Ha|].
    rewrite IH, H1. cbn [filter]. destruct (isURL token); simpl; lia.
Qed.

End PromptsOfTheLoop.

(** ** The properties above on the concrete platform *)

Lemma processInputs_missing_witness :
  let P := Demo.platform [] in
  let st := @initialState P Demo.album in
  @processInputs P webp (Number.ofZ 80) false None ["/nope"; "/pics/z.jpg"] st
  = (inr tt,
     withEvents
       [ConsoleError "Error with path /nope: Path does not exist: /nope";
        ConsoleError
          "Error with path /pics/z.jpg: Path does not exist: /pics/z.jpg"]
       st).
Proof.
  intros P st.
  apply (@processInputs_missing P webp (Number.ofZ 80) false None
           ["/nope"; "/pics/z.jpg"] st).
  repeat (apply Forall_cons; [split; reflexivity|]). apply Forall_nil.
Defined.

Lemma handleInputPath_file_witness :
  let P := Demo.platform [] in
  let st := @initialState P Demo.album in
  let r := @handleInputPath P webp (Number.ofZ 80) false None "/pics/a.jpg" st in
  fst r = inr tt
  /\ map inputPath (processedStats (snd r)) = ["/pics/a.jpg"]
  /\ totalOriginalBytes (snd r) = Number.ofZ 204800
  /\ totalSavedBytes (snd r) = Number.ofZ 102400.
Proof.
  intros P st.
  pose proof (@handleInputPath_file P webp (Number.ofZ 80) false None
                "/pics/a.jpg" {| size := 204800; isDirectory := false |} st
                eq_refl eq_refl eq_refl eq_refl) as H.
  split; [exact (proj1 H)|]. vm_compute. repeat split.
Defined.

Lemma downloadImage_spec_witness :
  let P := Demo.platform [] in
  let st := @initialState P Demo.album in
  let url := "https://example.com/img/cat.jpg" in
  let r := @downloadImage P url "/app/downloads/cat.jpg" st in
  @node_fetch P url (world st)
  = (inr {| ok := true; statusText := "OK"; arrayBuffer := inr "JFIF" |},
     Demo.album)
  /\ skipn (List.length (events st)) (events (snd r))
     = [Fetch url; WriteFile "/app/downloads/cat.jpg" "JFIF"]
  /\ fst r = inr tt.
Proof.
  intros P st url. split; [reflexivity|].
  exact (@downloadImage_spec P url "/app/downloads/cat.jpg" st
           {| ok := true; statusText := "OK"; arrayBuffer := inr "JFIF" |}
           Demo.album eq_refl).
Defined.

Lemma handleInputPath_fetches_destination_witness :
  let P := Demo.platform ["kitten"] in
  let st := @initialState P Demo.album in
  exists evs,
    events
      (snd (@handleInputPath P webp (Number.ofZ 80) false None
              "https://example.com/img/cat.jpg" st))
    = (events st ++ evs)%list
    /\ fetched evs = ["/app/downloads/kitten.jpg"].
Proof.
  intros P st.
  exact (@handleInputPath_fetches_destination P webp (Number.ofZ 80) false None
           "https://example.com/img/cat.jpg" "/img/cat.jpg" st eq_refl).
Defined.

Lemma chooseQuality_clamped_witness :
  isQuality (chooseQuality "250px") /\ isQuality (chooseQuality " -7").
Proof.
  split.
  - apply (chooseQuality_clamped "250px"); [discriminate|].
    vm_compute. discriminate.
  - apply (chooseQuality_clamped " -7"); [discriminate|].
    vm_compute. discriminate.
Defined.

Lemma main_invalid_dimensions_witness :
  let P := Demo.platform ["/pics"; "1"; "80"; "Y"; "800x600"] in
  let st := @initialState P Demo.album in
  fst (@main P st) = inr tt
  /\ world (snd (@main P st)) = world st
  /\ accumulators (snd (@main P st)) = accumulators st
  /\ asked (snd (@main P st)) = 5%nat
  /\ exists evs,
       events (snd (@main P st))
       = (events st ++ evs
            ++ [SpinnerFail
                  "Error: Invalid dimensions! Please provide valid numbers.";
                RlClose])%list
       /\ Forall isPromptOrLog evs.
Proof.
  intros P st.
  exact (@main_invalid_dimensions P st eq_refl eq_refl).
Defined.

Lemma processPath_batch_witness :
  let P := Demo.platform [] in
  let st := @initialState P Demo.album in
  let r := @processPath P webp (Number.ofZ 80) false None "/pics" st in
  fst r = inr tt
  /\ exists evs added,
       events (snd r)
       = (events st
            ++ [SpinnerInfo "Found 5 image(s) to process";
                SpinnerStart "Starting batch processing..."]
            ++ evs
            ++ [SpinnerSucceed "Batch processing complete! Processed 5 files"])%list
       /\ processedStats (snd r) = (processedStats st ++ added)%list
       /\ (List.length added <= 5)%nat.
Proof.
  intros P st.
  refine (@processPath_batch P webp (Number.ofZ 80) false None "/pics"
            ["a.jpg"; "notes.txt"; "b.PNG"; "c.gif"; "d.webp"; "e.jpeg"]
            {| size := 4096; isDirectory := true |} st
            eq_refl eq_refl eq_refl _).
  discriminate.
Defined.

Lemma handleInputPath_download_fails_witness :
  let P := Demo.platform [""] in
  let st := @initialState P Demo.album in
  let r := @handleInputPath P webp (Number.ofZ 80) false None
             "https://example.com/img/cat.jpg" st in
  fst r = inr tt
  /\ world (snd r) = Demo.album
  /\ accumulators (snd r) = accumulators st
  /\ events (snd r)
     = [Question
          "Enter output file name for cat.jpg (leave blank to use URL file name): ";
        ConsoleLog "Downloading image from URL: /app/downloads/cat.jpg...";
        Fetch "/app/downloads/cat.jpg";
        ConsoleError
          "Error with path /app/downloads/cat.jpg: Only absolute URLs are supported"].
Proof.
  intros P st.
  refine (@handleInputPath_download_fails P webp (Number.ofZ 80) false None
            "https://example.com/img/cat.jpg" "/img/cat.jpg" st
            (inl (mkError "Only absolute URLs are supported")) Demo.album
            eq_refl eq_refl _).
  intros response H. discriminate H.
Defined.

Lemma script_totals_witness :
  let P := Demo.platform ["/pics /texts /pics/a.jpg"; "2"; "60"; "n"] in
  let st := snd (@script P (@initialState P Demo.album)) in
  safeSizes (processedStats st)
  /\ List.length (processedStats st) = 5%nat
  /\ totalOriginalBytes st = Number.ofZ (sumOriginal (processedStats st))
  /\ totalSavedBytes st = Number.ofZ (sumSaved (processedStats st))
  /\ Number.sub (totalOriginalBytes st) (totalSavedBytes st)
     = Number.ofZ (sumOptimized (processedStats st)).
Proof.
  intros P st.
  assert (Hs : safeSizes (processedStats st)).
  { unfold safeSizes, MAX_SAFE_INTEGER. vm_compute.
    split; [|split; intros H; discriminate H].
    repeat (apply Forall_cons; [split; intros H; discriminate H|]).
    apply Forall_nil. }
  split; [exact Hs|]. split; [vm_compute; reflexivity|].
  exact (@script_totals P Demo.album Hs).
Defined.

Lemma batch_isolates_failures_witness :
  let P := Demo.platform [] in
  let st := @initialState P Demo.album in
  let inputPaths := ["/pics/a.jpg"; "/pics/c.gif"; "/pics/e.jpeg"] in
  let r := @processInputs P webp (Number.ofZ 80) false None inputPaths st in
  let outcomes :=
    @inputOutcomes P webp (Number.ofZ 80) false None inputPaths st in
  @plainFiles P webp (Number.ofZ 80) false None inputPaths st
  /\ fst r = inr tt
  /\ namesReturned inputPaths outcomes = ["/pics/a.jpg"; "/pics/e.jpeg"]
  /\ map fst (namesThrown inputPaths outcomes) = ["/pics/c.gif"]
  /\ processedStats (snd r) = (processedStats st ++ returned outcomes)%list.
Proof.
  intros P st inputPaths r outcomes.
  assert (Hp : @plainFiles P webp (Number.ofZ 80) false None inputPaths st).
  { cbn [plainFiles inputPaths].
    repeat (split; [vm_compute; reflexivity|]).
    split; [eexists; split; vm_compute; reflexivity|].
    repeat (split; [vm_compute; reflexivity|]).
    split; [eexists; split; vm_compute; reflexivity|].
    repeat (split; [vm_compute; reflexivity|]).
    split; [eexists; split; vm_compute; reflexivity|]. exact I. }
  split; [exact Hp|].
  destruct (proj2 (@batch_isolates_failures P webp (Number.ofZ 80) false None
                     "/pics" [] inputPaths st) Hp)
    as (R & _ & evs & _ & _ & S & _ & _).
  split; [exact R|]. split; [vm_compute; reflexivity|].
  split; [vm_compute; reflexivity|exact S].
Defined.


